(** * UPS Monitor: the state-synchronisation engine, embedded and verified

    A shallow embedding of the Home Assistant integration [ups_monitor]
    (package [custom_components/ups_monitor]): the helpers of [helpers.py],
    the snapshot store, seed loop and websocket listener of [__init__.py],
    and the discovery passes and command button of [sensor.py] and
    [button.py].

    Python values are the values [json.loads] delivers.  Exceptions are
    explicit: a computation returns [Ret v] or [Raise e].  Mutable
    dictionaries and sets are threaded as state. *)

From Stdlib Require Import ZArith String Ascii List Bool Lia.
From Stdlib Require Import Floats.SpecFloat.
From Stdlib Require OrderedTypeEx.
From stdpp Require Import base gmap strings list pretty.

#[global] Set Warnings "-register-all".

Local Open Scope string_scope.
Local Open Scope Z_scope.

(** ** Python values *)

Module Py.

(** IEEE binary64, the format of a Python [float]. *)
Definition prec : Z := 53.
Definition emax : Z := 1024.

(** The values [json.loads] builds: [None], [bool], [int] (unbounded),
    [float], [str], [list] and [dict] with string keys in insertion
    order.  A [str] is held as its UTF-8 bytes. *)
Inductive pyval : Type :=
| PNone
| PBool (b : bool)
| PInt (z : Z)
| PFloat (f : spec_float)
| PStr (s : string)
| PList (xs : list pyval)
| PDict (items : list (string * pyval)).

(** The exception classes the modelled code can meet. *)
Inductive exn : Type :=
| AttributeError
| TypeError
| ValueError
| OverflowError
| RecursionError
| UnicodeDecodeError
| CancelledError.

(** A computation that returns or raises. *)
Inductive result (A : Type) : Type :=
| Ret (a : A)
| Raise (e : exn).
Arguments Ret {A} a.
Arguments Raise {A} e.

Definition bind {A B} (m : result A) (k : A -> result B) : result B :=
  match m with
  | Ret a => k a
  | Raise e => Raise e
  end.

Notation "'let*' x ':=' m 'in' k" := (bind m (fun x => k))
  (at level 10, x name, m at level 100, k at level 200).

Definition returns {A} (m : result A) : bool :=
  match m with Ret _ => true | Raise _ => false end.

(** [bool(v)]: the truth value Python gives [v] in [if v], [not v] and
    [v or w]. *)
Definition truthy (v : pyval) : bool :=
  match v with
  | PNone => false
  | PBool b => b
  | PInt z => negb (z =? 0)
  | PFloat (S754_zero _) => false
  | PFloat _ => true
  | PStr s => negb (String.eqb s "")
  | PList xs => match xs with [] => false | _ => true end
  | PDict items => match items with [] => false | _ => true end
  end.

(** [a or b]. *)
Definition py_or (a b : pyval) : pyval := if truthy a then a else b.

(** Lookup in the items of a [dict] with [str] keys. *)
Fixpoint items_get (items : list (string * pyval)) (k : string) : option pyval :=
  match items with
  | [] => None
  | (k', v) :: rest => if String.eqb k' k then Some v else items_get rest k
  end.

Definition items_get_or (items : list (string * pyval)) (k : string)
    (default : pyval) : pyval :=
  match items_get items k with Some v => v | None => default end.

(** [o.get(k)] and [o.get(k, default)]: only a [dict] has the method. *)
Definition py_get (o : pyval) (k : string) (default : pyval) : result pyval :=
  match o with
  | PDict items => Ret (items_get_or items k default)
  | _ => Raise AttributeError
  end.

(** [o.keys()], as a list. *)
Definition py_keys (o : pyval) : result (list string) :=
  match o with
  | PDict items => Ret (map fst items)
  | _ => Raise AttributeError
  end.

(** *** Text *)

(** [repr] of a [float] is CPython's shortest round-trip printer and
    [repr] of a [str] its quoting and escaping; neither is part of this
    integration.  Both are sealed: nothing below depends on the text they
    give, only on their being functions. *)
Definition float_repr (f : spec_float) : string.
Proof. exact "". Qed.

Definition str_repr (s : string) : string.
Proof. exact s. Qed.

Definition join (sep : string) (parts : list string) : string :=
  match parts with
  | [] => ""
  | p :: ps => fold_left (fun acc q => acc +:+ sep +:+ q) ps p
  end.

Fixpoint py_repr (v : pyval) : string :=
  match v with
  | PNone => "None"
  | PBool true => "True"
  | PBool false => "False"
  | PInt z => pretty z
  | PFloat f => float_repr f
  | PStr s => str_repr s
  | PList xs => "[" +:+ join ", " (map py_repr xs) +:+ "]"
  | PDict items =>
      "{" +:+ join ", " (map (fun kv => str_repr (fst kv) +:+ ": " +:+ py_repr (snd kv)) items)
          +:+ "}"
  end.

(** [str(v)], also what an f-string field [{v}] inserts. *)
Definition py_str (v : pyval) : string :=
  match v with
  | PStr s => s
  | _ => py_repr v
  end.

(** [c.lower()] on an ASCII letter; other bytes are kept. *)
Definition lower_ascii (c : ascii) : ascii :=
  let n := N_of_ascii c in
  if ((65 <=? n) && (n <=? 90))%N then ascii_of_N (n + 32) else c.

(** [s.lower()].  Lower-casing outside ASCII is not modelled: no such
    character lower-cases to a letter of the tokens tested below. *)
Fixpoint lower (s : string) : string :=
  match s with
  | EmptyString => EmptyString
  | String c rest => String (lower_ascii c) (lower rest)
  end.

Fixpoint prefix_of (p s : string) : bool :=
  match p, s with
  | EmptyString, _ => true
  | String a p', String b s' => Ascii.eqb a b && prefix_of p' s'
  | String _ _, EmptyString => false
  end.

(** [token in s] on strings. *)
Fixpoint contains (s token : string) : bool :=
  prefix_of token s ||
  match s with
  | EmptyString => false
  | String _ rest => contains rest token
  end.

End Py.

(** ** [helpers.py] *)

Module Helpers.
Import Py.

(** *** [urllib.parse], as far as [build_http_url] reads it

    [urlparse] follows CPython 3.12's [urlsplit] for the two fields the
    helper reads, [scheme] and [netloc]. *)

Record ParseResult : Type := mkParse { scheme : string; netloc : string }.

Definition is_c0_or_space (c : ascii) : bool := (N_of_ascii c <=? 32)%N.

Fixpoint lstrip_c0 (s : string) : string :=
  match s with
  | String c rest => if is_c0_or_space c then lstrip_c0 rest else s
  | EmptyString => EmptyString
  end.

Definition is_unsafe_byte (c : ascii) : bool :=
  let n := N_of_ascii c in ((n =? 9) || (n =? 10) || (n =? 13))%N.

Fixpoint remove_unsafe (s : string) : string :=
  match s with
  | String c rest =>
      if is_unsafe_byte c then remove_unsafe rest else String c (remove_unsafe rest)
  | EmptyString => EmptyString
  end.

Definition is_ascii_alpha (c : ascii) : bool :=
  let n := N_of_ascii c in
  (((65 <=? n) && (n <=? 90)) || ((97 <=? n) && (n <=? 122)))%N.

Definition is_ascii_digit (c : ascii) : bool :=
  let n := N_of_ascii c in ((48 <=? n) && (n <=? 57))%N.

(** [c in scheme_chars]: letters, digits and [+-.]. *)
Definition is_scheme_char (c : ascii) : bool :=
  let n := N_of_ascii c in
  (is_ascii_alpha c || is_ascii_digit c || (n =? 43) || (n =? 45) || (n =? 46))%N.

Fixpoint all_chars (p : ascii -> bool) (s : string) : bool :=
  match s with
  | String c rest => p c && all_chars p rest
  | EmptyString => true
  end.

Fixpoint any_char (p : ascii -> bool) (s : string) : bool :=
  match s with
  | String c rest => p c || any_char p rest
  | EmptyString => false
  end.

(** [s.partition(c)] at the first byte satisfying [p]: the text before it
    and the text from it on ([None] when there is none). *)
Fixpoint break_at (p : ascii -> bool) (s : string) : option (string * string) :=
  match s with
  | EmptyString => None
  | String c rest =>
      if p c then Some (EmptyString, s)
      else match break_at p rest with
           | Some (before, from) => Some (String c before, from)
           | None => None
           end
  end.

Definition is_colon (c : ascii) : bool := (N_of_ascii c =? 58)%N.
Definition is_netloc_delim (c : ascii) : bool :=
  let n := N_of_ascii c in ((n =? 47) || (n =? 63) || (n =? 35))%N.
Definition is_open_bracket (c : ascii) : bool := (N_of_ascii c =? 91)%N.
Definition is_close_bracket (c : ascii) : bool := (N_of_ascii c =? 93)%N.
Definition is_non_ascii (c : ascii) : bool := (128 <=? N_of_ascii c)%N.

(** The scheme split of [urlsplit]: [i = url.find(':')], and when [i > 0],
    [url[0]] is an ASCII letter and every character of [url[:i]] is a
    scheme character, the scheme is [url[:i].lower()] and the rest
    [url[i+1:]]. *)
Definition split_scheme (url : string) : string * string :=
  match break_at is_colon url with
  | Some (String c0 before, String _ rest) =>
      if is_ascii_alpha c0 && all_chars is_scheme_char (String c0 before)
      then (lower (String c0 before), rest)
      else (EmptyString, url)
  | _ => (EmptyString, url)
  end.

(** [_splitnetloc(url, 2)] after a leading [//]. *)
Definition split_netloc (url : string) : string :=
  match url with
  | String "/" (String "/" rest) =>
      match break_at is_netloc_delim rest with
      | Some (before, _) => before
      | None => rest
      end
  | _ => EmptyString
  end.

(** The checks [urlsplit] runs on a [netloc] that has both brackets
    ([_check_bracketed_netloc], on the IPv6 or IPvFuture host) or is not
    ASCII ([_checknetloc], under NFKC normalization) use the [ipaddress]
    and [unicodedata] tables; whether they accept is sealed. *)
Definition netloc_special_ok (netloc : string) : bool.
Proof. exact true. Qed.

(** [urlsplit] raises [ValueError("Invalid IPv6 URL")] itself when the
    [netloc] has one of the brackets [[] and []] without the other. *)
Definition urlparse (url : string) : result ParseResult :=
  let url := remove_unsafe (lstrip_c0 url) in
  let '(sch, rest) := split_scheme url in
  let nl := split_netloc rest in
  let opening := any_char is_open_bracket nl in
  let closing := any_char is_close_bracket nl in
  if (opening && negb closing) || (closing && negb opening)
  then Raise ValueError
  else if (opening && closing) || any_char is_non_ascii nl
  then if netloc_special_ok nl then Ret (mkParse sch nl) else Raise ValueError
  else Ret (mkParse sch nl).

(** [urlunparse((scheme, netloc, path, '', '', ''))], for the schemes
    the helper passes ([http] and [https], both in [uses_netloc]) or an
    empty scheme. *)
Definition urlunparse (sch nl path : string) : string :=
  let uses_netloc := String.eqb sch "http" || String.eqb sch "https" in
  let url :=
    if negb (String.eqb nl "")
       || (negb (String.eqb sch "") && uses_netloc && negb (prefix_of "//" path))
    then "//" +:+ nl +:+
         (if negb (String.eqb path "") && negb (prefix_of "/" path)
          then "/" +:+ path else path)
    else path in
  if negb (String.eqb sch "") then sch +:+ ":" +:+ url else url.

(** *** [build_http_url] *)

Definition build_http_url (server_url path : string) : result (option string) :=
  if String.eqb server_url "" then Ret None
  else
    let* parsed := urlparse server_url in
    let sch := scheme parsed in
    if String.eqb sch "ws" || String.eqb sch "wss" then
      let sch := if String.eqb sch "ws" then "http" else "https" in
      Ret (Some (urlunparse sch (netloc parsed) path))
    else if negb (String.eqb sch "http" || String.eqb sch "https") then
      Ret None
    else Ret (Some (urlunparse sch (netloc parsed) path)).

(** *** [get_ups_status] *)

Definition status_tokens : list string :=
  ["onbatt"; "on battery"; "ob"; "on_battery"].

Definition xon_values : list string := ["1"; "true"; "yes"].

Definition get_ups_status (device : pyval) : result string :=
  if negb (truthy device) then Ret "offline"
  else
    let* a := py_get device "attributes" PNone in
    let attrs := py_or a (PDict []) in
    let* st := py_get attrs "status" (PStr "") in
    let status_raw := lower (py_str st) in
    let* x := py_get attrs "xon_battery" (PStr "") in
    let xon := lower (py_str x) in
    let on_battery :=
      existsb (fun token => contains status_raw token) status_tokens
      || existsb (String.eqb xon) xon_values in
    Ret (if on_battery then "On Battery" else "Online").

(** *** [normalize_attribute_value] *)

(** [float(z)] for an [int]: the nearest binary64, ties to even;
    [OverflowError] when that is out of range. *)
Definition float_of_int (z : Z) : result spec_float :=
  match binary_normalize prec emax z 0 false with
  | S754_infinity _ => Raise OverflowError
  | f => Ret f
  end.

(** [float(s)] for a [str] is CPython's number parser, and
    [round(x, ndigits)] its decimal rounding; both are sealed.
    [float_of_str s] is [None] when the parser raises [ValueError]. *)
Definition float_of_str (s : string) : option spec_float.
Proof. exact None. Qed.

Definition py_round (x : spec_float) (ndigits : Z) : spec_float.
Proof. exact x. Qed.

(** [float(v)]. *)
Definition py_float (v : pyval) : result spec_float :=
  match v with
  | PNone => Raise TypeError
  | PBool b => float_of_int (if b then 1 else 0)
  | PInt z => float_of_int z
  | PFloat f => Ret f
  | PStr s => match float_of_str s with Some f => Ret f | None => Raise ValueError end
  | PList _ | PDict _ => Raise TypeError
  end.

(** [try: return body / except (ValueError, TypeError): return value]. *)
Definition except_value_type (body : result pyval) (value : pyval) : result pyval :=
  match body with
  | Raise ValueError | Raise TypeError => Ret value
  | r => r
  end.

Definition sixty : spec_float := binary_normalize prec emax 60 0 false.

Definition numeric_attrs : list string :=
  [ "battery_charge"; "load_percentage"; "input_voltage"; "output_voltage";
    "battery_voltage"; "internal_temperature"; "real_power";
    "input_frequency"; "output_frequency"; "battery_current" ].

Definition normalize_attribute_value (attribute : string) (value : pyval)
  : result pyval :=
  match value with
  | PNone => Ret PNone
  | _ =>
    if String.eqb attribute "time_left" then
      except_value_type
        (let* f := py_float value in
         Ret (PFloat (py_round (SFdiv prec emax f sixty) 2)))
        value
    else if String.eqb attribute "time_on_battery" then
      except_value_type (let* f := py_float value in Ret (PFloat f)) value
    else if existsb (String.eqb attribute) numeric_attrs then
      except_value_type (let* f := py_float value in Ret (PFloat f)) value
    else Ret value
  end.

End Helpers.

(** ** The snapshot store of [__init__.py] *)

Module Store.
Import Py.

(** *** A [dict] keyed by arbitrary hashable values

    The device mapping is keyed by whatever [device.get("device_name")]
    gave.  Python compares keys by [==] (after hashing): [True], [1] and
    [1.0] are one key, a [str] equals only a [str], and a [list] or
    [dict] is unhashable.  [hash_key] sends a value to a canonical form
    such that two hashable values are the same key exactly when their
    forms are equal. *)
Inductive hkey : Type :=
| KNone
| KStr (s : string)
| KInt (z : Z)
| KFrac (neg : bool) (m : positive) (e : Z)
| KInf (neg : bool)
| KNan.

#[global] Instance hkey_eq_dec : EqDecision hkey.
Proof. solve_decision. Defined.

(** [m * 2^e] with the factors of two of [m] moved into [e] while
    [e < 0]. *)
Fixpoint strip_twos (m : positive) (e : Z) : positive * Z :=
  match m with
  | xO m' => if e <? 0 then strip_twos m' (e + 1) else (m, e)
  | _ => (m, e)
  end.

Definition float_key (f : spec_float) : hkey :=
  match f with
  | S754_zero _ => KInt 0
  | S754_infinity s => KInf s
  | S754_nan => KNan
  | S754_finite s m e =>
      let '(m', e') := strip_twos m e in
      if 0 <=? e' then KInt (cond_Zopp s (Z.pos m' * 2 ^ e'))
      else KFrac s m' e'
  end.

(** [None] for an unhashable value ([TypeError: unhashable type]). *)
Definition hash_key (v : pyval) : option hkey :=
  match v with
  | PNone => Some KNone
  | PBool b => Some (KInt (if b then 1 else 0))
  | PInt z => Some (KInt z)
  | PFloat f => Some (float_key f)
  | PStr s => Some (KStr s)
  | PList _ | PDict _ => None
  end.

(** A dict in insertion order: the key objects as first inserted, each
    with its current value. *)
Definition pydict : Type := list (pyval * pyval).

(** [d[k] = v] for a hashable [k] of form [h]: an equal key keeps its
    place and its key object and takes the value; a new key goes last. *)
Fixpoint dict_set (d : pydict) (h : hkey) (k v : pyval) : pydict :=
  match d with
  | [] => [(k, v)]
  | (k0, v0) :: rest =>
      if decide (hash_key k0 = Some h) then (k0, v) :: rest
      else (k0, v0) :: dict_set rest h k v
  end.

(** [d.get(k)] for a key of form [h]. *)
Fixpoint dict_get (d : pydict) (h : hkey) : option pyval :=
  match d with
  | [] => None
  | (k0, v0) :: rest =>
      if decide (hash_key k0 = Some h) then Some v0 else dict_get rest h
  end.

Definition dict_keys (d : pydict) : list pyval := map fst d.

(** *** [_update_state] *)

(** The loop [for device in devices_list]: it returns the mapping as it
    stands when the loop ends or raises, with [updated_names]. *)
Fixpoint update_loop (devices_dict : pydict) (updated_names : list pyval)
    (devices_list : list pyval) : pydict * result (list pyval) :=
  match devices_list with
  | [] => (devices_dict, Ret updated_names)
  | device :: rest =>
      match py_get device "device_name" PNone with
      | Raise e => (devices_dict, Raise e)
      | Ret name =>
          if negb (truthy name) then update_loop devices_dict updated_names rest
          else
            match hash_key name with
            | None => (devices_dict, Raise TypeError)
            | Some h =>
                update_loop (dict_set devices_dict h name device)
                            (updated_names ++ [name]) rest
            end
      end
  end.

(** How a call of [_update_state] ends when it does not raise: the
    payload was not JSON and the call returned early, or the change
    signal of the entry was sent, after [updated_names] were written. *)
Inductive update_end : Type :=
| Dropped
| Dispatched (updated_names : list pyval).

(** The exceptions [json.loads] raises that are not a
    [JSONDecodeError]: [ValueError] for an integer literal longer than
    the interpreter's digit limit (4300 digits), [RecursionError] for a
    payload nested too deep, [UnicodeDecodeError] for a binary message
    that is not text. *)
Inductive loads_failure : Type :=
| IntegerTooLong
| NestedTooDeep
| NotText.

Definition failure_exn (f : loads_failure) : exn :=
  match f with
  | IntegerTooLong => ValueError
  | NestedTooDeep => RecursionError
  | NotText => UnicodeDecodeError
  end.

(** What [json.loads(payload)] comes to: the decoded value, a
    [JSONDecodeError], or one of the other exceptions. *)
Inductive loads : Type :=
| Decoded (data : pyval)
| JSONDecodeError
| LoadsRaised (f : loads_failure).

(** [_update_state(hass, entry_id, payload)] on the entry's device
    mapping, given what [json.loads(payload)] comes to.  Only
    [JSONDecodeError] is caught; another exception of [json.loads]
    leaves the function before it reads the store. *)
Definition _update_state (devices_dict : pydict) (data : loads)
  : pydict * result update_end :=
  match data with
  | JSONDecodeError => (devices_dict, Ret Dropped)
  | LoadsRaised f => (devices_dict, Raise (failure_exn f))
  | Decoded data =>
      let devices_list := match data with PList xs => xs | _ => [] end in
      let '(devices_dict, r) := update_loop devices_dict [] devices_list in
      (devices_dict, let* updated_names := r in Ret (Dispatched updated_names))
  end.

End Store.

(** ** The initial seed of [async_setup_entry] *)

Module Seed.
Import Py Helpers Store.

(** What the GET of [/api/status] came to: [session.get] raised or the
    timeout fired, or a response arrived with a status and a body;
    [json] is what [resp.json()] gives, [None] when it raises. *)
Inductive get_outcome : Type :=
| GetFailed
| GetResponse (status : Z) (json : option pyval).

(** [_fetch_initial_status(ws_url)], given the outcome of its request. *)
Definition _fetch_initial_status (ws_url : string) (o : get_outcome)
  : result pyval :=
  let* status_url := build_http_url ws_url "/api/status" in
  match status_url with
  | None => Ret (PList [])
  | Some u =>
      if String.eqb u "" then Ret (PList [])
      else match o with
           | GetResponse status (Some data) =>
               if status =? 200 then Ret data else Ret (PList [])
           | _ => Ret (PList [])
           end
  end.

(** [for d in v]: a list gives its elements, a dict its keys, a str its
    characters; other values are not iterable. *)
Fixpoint chars (s : string) : list pyval :=
  match s with
  | EmptyString => []
  | String c rest => PStr (String c EmptyString) :: chars rest
  end.

Definition py_iter (v : pyval) : result (list pyval) :=
  match v with
  | PList xs => Ret xs
  | PDict items => Ret (map (fun kv => PStr (fst kv)) items)
  | PStr s => Ret (chars s)
  | _ => Raise TypeError
  end.

(** [{d.get("device_name") for d in initial_data if d.get("device_name")}],
    as the keys collected. *)
Fixpoint collect_names (entries : list pyval) (names : list hkey)
  : result (list hkey) :=
  match entries with
  | [] => Ret names
  | d :: rest =>
      let* name := py_get d "device_name" PNone in
      if truthy name then
        match hash_key name with
        | Some h => collect_names rest (names ++ [h])%list
        | None => Raise TypeError
        end
      else collect_names rest names
  end.

Definition device_names_in_data (initial_data : pyval) : result (list hkey) :=
  let* entries := py_iter initial_data in
  collect_names entries [].

(** [configured_names - device_names_in_data]. *)
Definition missing_devices (configured_names : gset string) (names : list hkey)
  : gset string :=
  filter (fun c => KStr c ∉ names) configured_names.

(** What the loop does, in order. *)
Inductive event : Type :=
| Fetch
| Sleep (seconds : Z).

Definition max_retries : Z := 3.

(** The body of [for attempt in range(max_retries)], over the attempts
    still to run.  [env attempt] is the outcome of that attempt's
    request.  The loop ends by [break], by running out of attempts, or
    by an exception. *)
Fixpoint seed_attempts (ws_url : string) (configured_names : gset string)
    (env : Z -> get_outcome) (attempts : list Z)
    (initial_data : pyval) (trace : list event) : list event * result pyval :=
  match attempts with
  | [] => (trace, Ret initial_data)
  | attempt :: rest =>
      let trace := (trace ++ [Fetch])%list in
      match _fetch_initial_status ws_url (env attempt) with
      | Raise e => (trace, Raise e)
      | Ret initial_data =>
          if truthy initial_data then
            match device_names_in_data initial_data with
            | Raise e => (trace, Raise e)
            | Ret names =>
                if bool_decide (missing_devices configured_names names = ∅)
                then (trace, Ret initial_data)
                else
                  let trace :=
                    if attempt <? max_retries - 1 then (trace ++ [Sleep 1])%list else trace in
                  seed_attempts ws_url configured_names env rest initial_data trace
            end
          else
            let trace :=
              if attempt <? max_retries - 1 then (trace ++ [Sleep 1])%list else trace in
            seed_attempts ws_url configured_names env rest initial_data trace
      end
  end.

Definition seed_loop (ws_url : string) (configured_names : gset string)
    (env : Z -> get_outcome) : list event * result pyval :=
  seed_attempts ws_url configured_names env [0; 1; 2] PNone [].

(** The seeding that follows: [store["devices"] = {}], and
    [_update_state] on the fetched data when it is truthy
    ([json.dumps] and back gives the data again). *)
Definition seed_devices (initial_data : pyval) : pydict * result unit :=
  if truthy initial_data then
    let '(devices, r) := _update_state [] (Decoded initial_data) in
    (devices, let* _ := r in Ret tt)
  else ([], Ret tt).

End Seed.

(** ** The websocket listener [_listen_ws] *)

Module Stream.
Import Py Store.

Definition RECONNECT_DELAY : Z := 5.

(** How the [try] block of one round ends, as the environment decides
    it.  [ConnectFailed]: [websockets.connect] raised.  [EndOfStream]:
    the message iterator ended.  [ClosedOK], [ClosedError]: the two
    [ConnectionClosed] exceptions.  [OtherError]: any other [Exception].
    [Cancel]: [CancelledError], which the loop re-raises. *)
Inductive ending : Type :=
| ConnectFailed
| EndOfStream
| ClosedOK
| ClosedError
| OtherError
| Cancel.

(** What happens while the loop awaits [asyncio.sleep(RECONNECT_DELAY)]:
    the sleep runs to its end, with the stop event set meanwhile or not,
    or the task is cancelled. *)
Inductive sleeping : Type :=
| SleepDone (stop_set : bool)
| SleepCancelled.

(** One round of the environment: the messages the connection
    delivers (each as what [json.loads] makes of it), how it ends, whether the stop event is set while the
    connection is up, and what happens during the sleep that follows. *)
Record round : Type := mkRound {
  messages : list loads;
  how : ending;
  stop_set : bool;
  then_sleep : sleeping
}.

(** What the loop and its environment do, in order: the loop connects,
    hands a message to [_update_state], or sleeps; the environment sets
    the stop event. *)
Inductive event : Type :=
| Connect
| Update (data : loads)
| Sleep (seconds : Z)
| Stop.

Inductive status : Type :=
| Running
| Stopped
| Cancelled.

(** [async for message in websocket: _update_state(...)]: the messages
    are applied in order; an exception of [_update_state] leaves the
    loop, into [except Exception]. *)
Fixpoint receive (devices : pydict) (msgs : list loads)
  : pydict * list event * bool :=
  match msgs with
  | [] => (devices, [], true)
  | m :: rest =>
      match _update_state devices m with
      | (devices, Ret _) =>
          let '(devices, tr, ok) := receive devices rest in
          (devices, Update m :: tr, ok)
      | (devices, Raise _) => (devices, [Update m], false)
      end
  end.

(** [_listen_ws], over the rounds the environment provides.  [stop] is
    [stop_event.is_set()] on entry.  The result is [Running] when the
    rounds are used up with the loop about to connect again. *)
Fixpoint _listen_ws (devices : pydict) (stop : bool) (script : list round)
  : pydict * list event * status :=
  if stop then (devices, [], Stopped)
  else
    match script with
    | [] => (devices, [], Running)
    | r :: rest =>
        let '(devices, received, ok) :=
          match how r with
          | ConnectFailed => (devices, [], true)
          | _ => receive devices (messages r)
          end in
        let in_round :=
          (Connect :: received ++ (if stop_set r then [Stop] else []))%list in
        match (if ok then how r else OtherError) with
        | Cancel => (devices, in_round, Cancelled)
        | _ =>
            if stop_set r then
              let '(devices, tr, st) := _listen_ws devices true rest in
              (devices, (in_round ++ tr)%list, st)
            else
              match then_sleep r with
              | SleepCancelled =>
                  (devices, (in_round ++ [Sleep RECONNECT_DELAY])%list, Cancelled)
              | SleepDone stop' =>
                  let '(devices, tr, st) := _listen_ws devices stop' rest in
                  (devices,
                   (in_round ++ Sleep RECONNECT_DELAY
                             :: (if stop' then [Stop] else []) ++ tr)%list,
                   st)
              end
        end
    end.

End Stream.

(** ** Entity discovery: [sensor.py] *)

Module Sensor.
Import Py Store.

(** [sorted(keys)] on strings: insertion into an ordered list, by
    code point (byte order of the UTF-8 text). *)
Fixpoint insert_sorted (k : string) (sorted : list string) : list string :=
  match sorted with
  | [] => [k]
  | k' :: rest =>
      if String.leb k k' then k :: sorted else k' :: insert_sorted k rest
  end.

Definition py_sorted (keys : list string) : list string :=
  fold_right insert_sorted [] keys.

(** [device_name in configured_names], for a set of [str]. *)
Definition in_names (device_name : pyval) (configured_names : gset string) : bool :=
  match device_name with
  | PStr s => bool_decide (s ∈ configured_names)
  | _ => false
  end.

(** [if configured_names and device_name not in configured_names]. *)
Definition filtered_out (device_name : pyval) (configured_names : gset string) : bool :=
  negb (bool_decide (configured_names = ∅))
  && negb (in_names device_name configured_names).

(** The entities the platform creates, by what they are made from. *)
Inductive SensorEntity : Type :=
| UPSStatusSensor (entry_id : string) (device_name : pyval)
| UPSAttributeSensor (entry_id : string) (device_name : pyval) (attribute : string).

(** The loop [for attr_key in sorted(attrs.keys())]. *)
Fixpoint attribute_loop (entry_id : string) (device_name : pyval)
    (attr_keys : list string) (added : gset string)
    (new_entities : list SensorEntity) : gset string * list SensorEntity :=
  match attr_keys with
  | [] => (added, new_entities)
  | attr_key :: rest =>
      let entity_key := py_str device_name +:+ "-" +:+ attr_key in
      if bool_decide (entity_key ∈ added) then
        attribute_loop entry_id device_name rest added new_entities
      else if String.eqb attr_key "status" then
        attribute_loop entry_id device_name rest added new_entities
      else
        attribute_loop entry_id device_name rest ({[entity_key]} ∪ added)
          (new_entities ++ [UPSAttributeSensor entry_id device_name attr_key])
  end.

(** The loop [for device_name, device in devices.items()].  [added] is
    mutated as the loop goes, so it is returned as it stands also when
    the loop raises. *)
Fixpoint device_loop (entry_id : string) (configured_names : gset string)
    (items : pydict) (added : gset string) (new_entities : list SensorEntity)
  : gset string * result (list SensorEntity) :=
  match items with
  | [] => (added, Ret new_entities)
  | (device_name, device) :: rest =>
      if filtered_out device_name configured_names then
        device_loop entry_id configured_names rest added new_entities
      else
        let status_key := py_str device_name +:+ "-status" in
        let '(added, new_entities) :=
          if bool_decide (status_key ∈ added) then (added, new_entities)
          else ({[status_key]} ∪ added,
                (new_entities ++ [UPSStatusSensor entry_id device_name])%list) in
        match py_get device "attributes" PNone with
        | Raise e => (added, Raise e)
        | Ret a =>
            match py_keys (py_or a (PDict [])) with
            | Raise e => (added, Raise e)
            | Ret keys =>
                let '(added, new_entities) :=
                  attribute_loop entry_id device_name (py_sorted keys)
                                 added new_entities in
                device_loop entry_id configured_names rest added new_entities
            end
        end
  end.

(** [_maybe_add_entities()] of the sensor platform: the [added] set
    after the call, and the list handed to [async_add_entities] (the
    callback is called when the list is not empty). *)
Definition _maybe_add_entities (entry_id : string) (configured_names : gset string)
    (devices : pydict) (added : gset string)
  : gset string * result (list SensorEntity) :=
  device_loop entry_id configured_names devices added [].

End Sensor.

(** ** Command buttons: [button.py] *)

Module Button.
Import Py Store Sensor.

Record ButtonDescription : Type := mkButton {
  key : string;
  name : string;
  icon : string;
  command : string;
  device_types : list string
}.

Definition BUTTON_DESCRIPTIONS : list ButtonDescription :=
  [ mkButton "beeper_enable" "Enable Beeper" "mdi:volume-high" "beeper.enable" ["nut"];
    mkButton "beeper_disable" "Disable Beeper" "mdi:volume-off" "beeper.disable" ["nut"];
    mkButton "beeper_mute" "Mute Beeper" "mdi:volume-mute" "beeper.mute" ["nut"];
    mkButton "test_battery_start" "Start Battery Test" "mdi:battery-sync"
             "test.battery.start" ["nut"];
    mkButton "test_battery_stop" "Stop Battery Test" "mdi:battery-check"
             "test.battery.stop" ["nut"];
    mkButton "load_off" "Turn Off Load" "mdi:power-plug-off" "load.off" ["nut"];
    mkButton "load_on" "Turn On Load" "mdi:power-plug" "load.on" ["nut"] ].

Record UPSCommandButton : Type := mkCommandButton {
  button_entry_id : string;
  button_device_name : pyval;
  button_description : ButtonDescription
}.

(** [device_type in desc.device_types], a tuple of [str]. *)
Definition type_in (device_type : pyval) (types : list string) : bool :=
  match device_type with
  | PStr t => existsb (String.eqb t) types
  | _ => false
  end.

(** The loop [for desc in BUTTON_DESCRIPTIONS]. *)
Fixpoint description_loop (entry_id : string) (device_name device_type : pyval)
    (descs : list ButtonDescription) (added : gset string)
    (new_entities : list UPSCommandButton) : gset string * list UPSCommandButton :=
  match descs with
  | [] => (added, new_entities)
  | desc :: rest =>
      if negb (type_in device_type (device_types desc)) then
        description_loop entry_id device_name device_type rest added new_entities
      else
        let k := entry_id +:+ "-" +:+ py_str device_name +:+ "-" +:+ key desc in
        if bool_decide (k ∈ added) then
          description_loop entry_id device_name device_type rest added new_entities
        else
          description_loop entry_id device_name device_type rest ({[k]} ∪ added)
            (new_entities ++ [mkCommandButton entry_id device_name desc])
  end.

Fixpoint device_loop (entry_id : string) (configured_names : gset string)
    (items : pydict) (added : gset string) (new_entities : list UPSCommandButton)
  : gset string * result (list UPSCommandButton) :=
  match items with
  | [] => (added, Ret new_entities)
  | (device_name, device) :: rest =>
      if filtered_out device_name configured_names then
        device_loop entry_id configured_names rest added new_entities
      else
        match py_get device "type" (PStr "nut") with
        | Raise e => (added, Raise e)
        | Ret device_type =>
            let '(added, new_entities) :=
              description_loop entry_id device_name device_type
                               BUTTON_DESCRIPTIONS added new_entities in
            device_loop entry_id configured_names rest added new_entities
        end
  end.

(** [_maybe_add_entities()] of the button platform. *)
Definition _maybe_add_entities (entry_id : string) (configured_names : gset string)
    (devices : pydict) (added : gset string)
  : gset string * result (list UPSCommandButton) :=
  device_loop entry_id configured_names devices added [].

End Button.

(** ** One connection: the store and the two discovery ledgers *)

Module Connection.
Import Py Store.

(** The state of one config entry: the device mapping of the store, the
    [added] set each platform holds in its closure, and, as a record of
    what happened, every entity handed to [async_add_entities] so far. *)
Record connection : Type := mkConnection {
  devices : pydict;
  sensors_added : gset string;
  buttons_added : gset string;
  sensors_emitted : list Sensor.SensorEntity;
  buttons_emitted : list Button.UPSCommandButton
}.

(** What a call of [_maybe_add_entities] hands to the callback. *)
Definition handed_over {E} (r : result (list E)) : list E :=
  match r with
  | Ret new_entities => new_entities
  | Raise _ => []
  end.

Section Entry.

Variable entry_id : string.
Variable configured_names : gset string.

(** The change signal reaches both platforms: each runs its
    [_maybe_add_entities]; an exception in one listener is logged by the
    dispatcher and does not reach the other. *)
Definition reconcile (c : connection) : connection :=
  let '(sa, sr) :=
    Sensor._maybe_add_entities entry_id configured_names (devices c) (sensors_added c) in
  let '(ba, br) :=
    Button._maybe_add_entities entry_id configured_names (devices c) (buttons_added c) in
  {| devices := devices c;
     sensors_added := sa;
     buttons_added := ba;
     sensors_emitted := sensors_emitted c ++ handed_over sr;
     buttons_emitted := buttons_emitted c ++ handed_over br |}.

(** [Apply data]: a payload reaches [_update_state]; when the call sends
    the change signal, both platforms reconcile.  [Reconcile]: a
    reconciliation pass on the mapping as it is. *)
Inductive event : Type :=
| Apply (data : loads)
| Reconcile.

Definition step (c : connection) (ev : event) : connection :=
  match ev with
  | Reconcile => reconcile c
  | Apply data =>
      let '(d, r) := _update_state (devices c) data in
      let c' := {| devices := d;
                   sensors_added := sensors_added c;
                   buttons_added := buttons_added c;
                   sensors_emitted := sensors_emitted c;
                   buttons_emitted := buttons_emitted c |} in
      match r with
      | Ret (Dispatched _) => reconcile c'
      | _ => c'
      end
  end.

Definition run (c : connection) (evs : list event) : connection :=
  fold_left step evs c.

(** The platforms as set up on a store holding [devices0]: empty
    ledgers, then the initial pass.  (A platform whose initial pass
    raises is not set up and makes no later pass; its ledger then stays
    as that pass left it.) *)
Definition setup (devices0 : pydict) : connection :=
  reconcile {| devices := devices0;
               sensors_added := ∅; buttons_added := ∅;
               sensors_emitted := []; buttons_emitted := [] |}.

End Entry.

End Connection.

(** ** The command dispatch: [UPSCommandButton.async_press] *)

Module Command.
Import Py.

(** An exception of the HTTP exchange, by what [str(err)] gives.
    [TimeoutError]: the [asyncio.TimeoutError] that [async_timeout]
    raises, without arguments, when [HTTP_TIMEOUT] runs out.
    [OtherException]: any other [Exception] (a connection error of the
    client, a body that is not JSON), with its text. *)
Inductive transport_error : Type :=
| TimeoutError
| OtherException (text : string).

(** [str(err)]: an exception made without arguments prints as the empty
    string. *)
Definition exc_str (err : transport_error) : string :=
  match err with
  | TimeoutError => ""
  | OtherException text => text
  end.

(** What [session.post] and [resp.json()] came to. *)
Inductive exchange : Type :=
| PostRaised (err : transport_error)
| JsonRaised (status : Z) (err : transport_error)
| Responded (status : Z) (result : pyval).

(** Why [async_press] raised [HomeAssistantError]. *)
Inductive failure : Type :=
| BaseUrlUnavailable
| CommandFailedStatus (status : Z) (message : pyval)
| CommandFailed (text : string).

Inductive press_end : Type :=
| Pressed
| HomeAssistantError (why : failure).

(** [type(v).__name__]. *)
Definition type_name (v : pyval) : string :=
  match v with
  | PNone => "NoneType"
  | PBool _ => "bool"
  | PInt _ => "int"
  | PFloat _ => "float"
  | PStr _ => "str"
  | PList _ => "list"
  | PDict _ => "dict"
  end.

(** The text of the [AttributeError] of [v.get] on a value without it. *)
Definition no_get (v : pyval) : string :=
  "'" +:+ type_name v +:+ "' object has no attribute 'get'".

(** [{"success": False, "error": message}]. *)
Definition failed (message : pyval) : pyval :=
  PDict [("success", PBool false); ("error", message)].

(** The handler [except Exception as err]. *)
Definition on_exception (text : string) : option pyval * press_end :=
  (Some (failed (PStr text)), HomeAssistantError (CommandFailed text)).

(** [async_press], given [runtime.get("base_http")], the stored
    [_last_result] and the outcome of the exchange: the new
    [_last_result] and how the call ends. *)
Definition async_press (base_http : option string) (last_result : option pyval)
    (x : exchange) : option pyval * press_end :=
  match base_http with
  | None => (last_result, HomeAssistantError BaseUrlUnavailable)
  | Some base =>
      if String.eqb base "" then (last_result, HomeAssistantError BaseUrlUnavailable)
      else
        match x with
        | PostRaised err => on_exception (exc_str err)
        | JsonRaised _ err => on_exception (exc_str err)
        | Responded status result =>
            if 400 <=? status then
              match py_get result "error" (PStr "unknown error") with
              | Ret message =>
                  (Some (failed message),
                   HomeAssistantError (CommandFailedStatus status message))
              | Raise _ => on_exception (no_get result)
              end
            else
              match py_get result "success" (PBool false) with
              | Ret _ => (Some result, Pressed)
              | Raise _ => on_exception (no_get result)
              end
        end
  end.

End Command.

(** ** [config_flow.py]: the server step *)

Module ConfigFlow.
Import Py Helpers.

(** The test [async_step_user] makes on the address entered:
    [parsed.scheme not in ("ws", "wss", "http", "https") or not
    parsed.netloc] gives the error [invalid_url]. *)
Definition invalid_url (server_url : string) : result bool :=
  let* parsed := urlparse server_url in
  Ret (negb (existsb (String.eqb (scheme parsed)) ["ws"; "wss"; "http"; "https"])
       || String.eqb (netloc parsed) "").

(** What the GET of [/health] came to: a response with its status, or
    one of the two exceptions the helper catches. *)
Inductive health : Type :=
| HealthStatus (status : Z)
| HealthFailed.

(** [_async_validate_server(server_url)]. *)
Definition _async_validate_server (server_url : string) (h : health)
  : result bool :=
  let* url := build_http_url server_url "/health" in
  match url with
  | None => Ret false
  | Some u =>
      if String.eqb u "" then Ret false
      else match h with
           | HealthStatus status => Ret (status =? 200)
           | HealthFailed => Ret false
           end
  end.

End ConfigFlow.

(** ** The entities' updates *)

Module Entities.
Import Py Helpers Store.

(** [_get_device()]: [store.get("devices", {}).get(self._device_name)],
    for the device name the entity was made with (a key of the
    mapping, so hashable). *)
Definition _get_device (devices : pydict) (device_name : pyval) : option pyval :=
  match hash_key device_name with
  | Some h => dict_get devices h
  | None => None
  end.

(** What [_handle_update] writes: [_attr_available] and
    [_attr_native_value]. *)
Record entity_state : Type := mkState {
  available : bool;
  native_value : pyval
}.

(** [UPSAttributeSensor._handle_update].  The fields are returned as
    they stand also when the call raises: [_attr_available] is set
    before the value is computed. *)
Definition attribute_handle_update (devices : pydict) (device_name : pyval)
    (attribute : string) (st : entity_state) : entity_state * result unit :=
  match _get_device devices device_name with
  | None => (mkState false (native_value st), Ret tt)
  | Some device =>
      let st := mkState true (native_value st) in
      match (let* a := py_get device "attributes" PNone in
             let attrs := py_or a (PDict []) in
             let* raw_val := py_get attrs attribute PNone in
             normalize_attribute_value attribute raw_val) with
      | Ret v => (mkState true v, Ret tt)
      | Raise e => (st, Raise e)
      end
  end.

(** [UPSStatusSensor._handle_update]. *)
Definition status_handle_update (devices : pydict) (device_name : pyval)
    (st : entity_state) : entity_state * result unit :=
  let device := _get_device devices device_name in
  let st := mkState (match device with Some _ => true | None => false end)
                    (native_value st) in
  match get_ups_status (match device with Some d => d | None => PNone end) with
  | Ret s => (mkState (available st) (PStr s), Ret tt)
  | Raise e => (st, Raise e)
  end.

(** [UPSCommandButton._handle_update]: only availability. *)
Definition button_handle_update (devices : pydict) (device_name : pyval) : bool :=
  match _get_device devices device_name with Some _ => true | None => false end.

(** [UPSCommandButton.extra_state_attributes]. *)
Definition extra_state_attributes (device_name : pyval) (command : string)
    (last_result : option pyval) : list (string * pyval) :=
  let attrs := [("device_name", device_name); ("command", PStr command)] in
  match last_result with
  | Some r => if truthy r then (attrs ++ [("last_result", r)])%list else attrs
  | None => attrs
  end.

End Entities.

(** ** The configured names: [_get_configured_device_names] *)

Module Setup.
Import Py Store Seed.

(** [names.add(name)] on a set kept as the list of its elements: an
    element equal to [name] as a key is there already. *)
Fixpoint set_add (names : list pyval) (h : hkey) (name : pyval) : list pyval :=
  match names with
  | [] => [name]
  | n :: rest =>
      if decide (hash_key n = Some h) then names else n :: set_add rest h name
  end.

(** The loop [for dev in entry.options.get("devices", [])]. *)
Fixpoint names_loop (devs : list pyval) (names : list pyval) : result (list pyval) :=
  match devs with
  | [] => Ret names
  | dev :: rest =>
      let* name := py_get dev "device_name" PNone in
      if truthy name then
        match hash_key name with
        | Some h => names_loop rest (set_add names h name)
        | None => Raise TypeError
        end
      else names_loop rest names
  end.

(** [_get_configured_device_names(entry)], given the items of
    [entry.options] and [entry.data]. *)
Definition _get_configured_device_names (options data : list (string * pyval))
  : result (list pyval) :=
  let* devs := py_iter (items_get_or options "devices" (PList [])) in
  let* names := names_loop devs [] in
  match names with
  | [] =>
      let legacy := items_get_or data "device_name" PNone in
      if truthy legacy then
        match hash_key legacy with
        | Some h => Ret (set_add names h legacy)
        | None => Raise TypeError
        end
      else Ret names
  | _ => Ret names
  end.

End Setup.

(** ** [device_info.py] *)

Module DeviceInfo.
Import Py Store.

Definition DOMAIN : string := "ups_monitor".

(** The two regular-expression searches of [build_device_info], on a
    [str], are sealed: [cyberpower_search s] is [m.group(1).upper()]
    when [CP\d{3,6}[A-Z]*PFCLCD[aA]?] is found in [s] without regard to
    case, and [apc_search s] tells whether one of the APC model names
    is found. *)
Definition cyberpower_search (s : string) : option string.
Proof. exact None. Qed.

Definition apc_search (s : string) : bool.
Proof. exact false. Qed.

(** [re.search(pattern, v)]: a value that is not a [str] is refused
    with [TypeError]. *)
Definition search_cyberpower (v : pyval) : result (option string) :=
  match v with
  | PStr s => Ret (cyberpower_search s)
  | _ => Raise TypeError
  end.

Definition search_apc (v : pyval) : result bool :=
  match v with
  | PStr s => Ret (apc_search s)
  | _ => Raise TypeError
  end.

Record device_info : Type := mkInfo {
  identifiers : string * pyval;
  name : pyval;
  manufacturer : pyval;
  model : pyval;
  serial_number : pyval
}.

(** [attrs.get(k1) or attrs.get(k2) or ...]. *)
Fixpoint first_of (attrs : pyval) (keys : list string) : result pyval :=
  match keys with
  | [] => Ret PNone
  | [k] => py_get attrs k PNone
  | k :: rest =>
      let* v := py_get attrs k PNone in
      if truthy v then Ret v else first_of attrs rest
  end.

Definition build_device_info (device_name device : pyval) : result device_info :=
  let* a := py_get device "attributes" PNone in
  let attrs := py_or a (PDict []) in
  let* manufacturer := first_of attrs ["manufacturer"; "ups_mfr"; "mfr"] in
  let* model := first_of attrs ["model"; "ups_model"; "device_model"; "upsmodel"] in
  let* model :=
    if negb (truthy model) then first_of attrs ["ups_name"; "hostname"; "version"]
    else Ret model in
  let cyberpower (model manufacturer : pyval) (m : option string) :=
    match m with
    | Some found =>
        (PStr found,
         if negb (truthy manufacturer) then PStr "CyberPower" else manufacturer)
    | None => (model, manufacturer)
    end in
  let* mm :=
    if truthy model then
      let* m := search_cyberpower model in Ret (cyberpower model manufacturer m)
    else if truthy device_name then
      let* m := search_cyberpower device_name in Ret (cyberpower model manufacturer m)
    else Ret (model, manufacturer) in
  let '(model, manufacturer) := mm in
  let* manufacturer :=
    if negb (truthy manufacturer) && truthy model then
      let* apc := search_apc model in
      Ret (if apc then PStr "APC" else manufacturer)
    else Ret manufacturer in
  let model := if negb (truthy model) then device_name else model in
  let manufacturer :=
    if negb (truthy manufacturer) then PStr "go-ups" else manufacturer in
  let* serial :=
    first_of attrs ["serial_number"; "ups_serial"; "serialno"; "device_serial"] in
  match hash_key device_name with
  | None => Raise TypeError
  | Some _ =>
      Ret (mkInfo (DOMAIN, device_name) device_name manufacturer model serial)
  end.

End DeviceInfo.

(** * Properties *)

Module HelpersSpec.
Import Py Helpers.

(** *** Text *)

Lemma append_cons (c : ascii) (a b : string) :
  String c a +:+ b = String c (a +:+ b).
Proof. reflexivity. Qed.

Lemma append_nil_l (s : string) : "" +:+ s = s.
Proof. reflexivity. Qed.

Lemma append_nil_r (s : string) : s +:+ "" = s.
Proof.
  induction s as [|c s IH]; [done|]. by rewrite append_cons, IH.
Qed.

Lemma append_assoc (a b c : string) : (a +:+ b) +:+ c = a +:+ (b +:+ c).
Proof.
  induction a as [|x a IH]; [done|]. by rewrite !append_cons, IH.
Qed.

Lemma prefix_of_append (p s : string) : prefix_of p (p +:+ s) = true.
Proof.
  induction p as [|c p IH]; [done|].
  rewrite append_cons. simpl. by rewrite Ascii.eqb_refl, IH.
Qed.

(** *** [build_http_url] *)

Example build_http_url_default :
  build_http_url "ws://homeassistant.local:8080/ws" "/api/status"
  = Ret (Some "http://homeassistant.local:8080/api/status").
Proof. reflexivity. Qed.

Example build_http_url_base :
  build_http_url "wss://ups.example:8443/ws?x=1" ""
  = Ret (Some "https://ups.example:8443").
Proof. reflexivity. Qed.

Example build_http_url_http :
  build_http_url "HTTP://ups.example:8080/ws" "/api/command"
  = Ret (Some "http://ups.example:8080/api/command").
Proof. reflexivity. Qed.

Example build_http_url_ftp : build_http_url "ftp://host/ws" "" = Ret None.
Proof. reflexivity. Qed.

Example build_http_url_no_scheme : build_http_url "//host:8080/ws" "" = Ret None.
Proof. reflexivity. Qed.

Lemma eqb_eq_true (s t : string) : s = t -> String.eqb s t = true.
Proof. intros ->. apply String.eqb_refl. Qed.

Lemma eqb_neq_false (s t : string) : s <> t -> String.eqb s t = false.
Proof. intros H. by apply String.eqb_neq. Qed.

(** *** The claim's words *)

(** The request/response scheme that stands for a scheme: [ws] and
    [wss] are substituted, [http] and [https] pass, any other scheme is
    rejected. *)
Definition request_scheme (sch : string) : option string :=
  if String.eqb sch "ws" then Some "http"
  else if String.eqb sch "wss" then Some "https"
  else if String.eqb sch "http" then Some "http"
  else if String.eqb sch "https" then Some "https"
  else None.

(** The address of a path on a server: the scheme, [://], the network
    location and the path, with a slash before a path that lacks it. *)
Definition address (sch nl path : string) : string :=
  sch +:+ "://" +:+ nl +:+
  (if String.eqb path "" || prefix_of "/" path then path else "/" +:+ path).

(** *** An address as text *)

(** A scheme as it is written: a letter, then letters, digits and
    [+-.]. *)
Definition is_scheme (sch : string) : bool :=
  match sch with
  | String c0 _ => is_ascii_alpha c0 && all_chars is_scheme_char sch
  | EmptyString => false
  end.

(** A character of a plain network location: printable ASCII other
    than [/?#] and the brackets. *)
Definition is_host_char (c : ascii) : bool :=
  let n := N_of_ascii c in
  ((33 <=? n) && (n <? 128))%N
  && negb (is_netloc_delim c) && negb (is_open_bracket c)
  && negb (is_close_bracket c).

(** What follows the network location: nothing, or text that starts
    with [/], [?] or [#]. *)
Definition starts_path (tail : string) : bool :=
  match tail with
  | EmptyString => true
  | String c _ => is_netloc_delim c
  end.

Ltac ascii_cases c :=
  destruct c as [[] [] [] [] [] [] [] []]; vm_compute; try discriminate; auto.

Lemma alpha_not_c0 (c : ascii) :
  is_ascii_alpha c = true -> is_c0_or_space c = false.
Proof. ascii_cases c. Qed.

Lemma scheme_char_not_unsafe (c : ascii) :
  is_scheme_char c = true -> is_unsafe_byte c = false.
Proof. ascii_cases c. Qed.

Lemma scheme_char_not_colon (c : ascii) :
  is_scheme_char c = true -> is_colon c = false.
Proof. ascii_cases c. Qed.

Lemma host_char_not_unsafe (c : ascii) :
  is_host_char c = true -> is_unsafe_byte c = false.
Proof. ascii_cases c. Qed.

Lemma host_char_not_delim (c : ascii) :
  is_host_char c = true -> is_netloc_delim c = false.
Proof. ascii_cases c. Qed.

Lemma host_char_not_open (c : ascii) :
  is_host_char c = true -> is_open_bracket c = false.
Proof. ascii_cases c. Qed.

Lemma host_char_not_close (c : ascii) :
  is_host_char c = true -> is_close_bracket c = false.
Proof. ascii_cases c. Qed.

Lemma host_char_ascii (c : ascii) :
  is_host_char c = true -> is_non_ascii c = false.
Proof. ascii_cases c. Qed.

Lemma delim_not_unsafe (c : ascii) :
  is_netloc_delim c = true -> is_unsafe_byte c = false.
Proof. ascii_cases c. Qed.

Lemma remove_unsafe_app (a b : string) :
  remove_unsafe (a +:+ b) = remove_unsafe a +:+ remove_unsafe b.
Proof.
  induction a as [|c a IH]; [done|].
  rewrite append_cons. simpl. destruct (is_unsafe_byte c); [done|].
  by rewrite append_cons, IH.
Qed.

Lemma remove_unsafe_kept (p : ascii -> bool) (s : string) :
  (forall c, p c = true -> is_unsafe_byte c = false) ->
  all_chars p s = true -> remove_unsafe s = s.
Proof.
  intros Hp. induction s as [|c s IH]; simpl; [done|].
  intros [Hc Hs]%andb_true_iff. rewrite (Hp c Hc). by rewrite IH.
Qed.

Lemma any_char_none (p q : ascii -> bool) (s : string) :
  (forall c, q c = true -> p c = false) ->
  all_chars q s = true -> any_char p s = false.
Proof.
  intros Hp. induction s as [|c s IH]; simpl; [done|].
  intros [Hc Hs]%andb_true_iff. rewrite (Hp c Hc). by rewrite IH.
Qed.

Lemma break_at_app (p q : ascii -> bool) (a t : string) :
  (forall c, q c = true -> p c = false) ->
  all_chars q a = true ->
  break_at p (a +:+ t)
  = match break_at p t with
    | Some (before, from) => Some (a +:+ before, from)
    | None => None
    end.
Proof.
  intros Hp. induction a as [|c a IH]; simpl.
  - intros _. rewrite append_nil_l. by destruct (break_at p t) as [[b f]|].
  - intros [Hc Ha]%andb_true_iff.
    rewrite (Hp c Hc), (IH Ha).
    by destruct (break_at p t) as [[b f]|].
Qed.

(** How [urlparse] reads an address written as a scheme, [://], a plain
    network location and a tail. *)
Lemma urlparse_text (sch host tail : string) :
  is_scheme sch = true -> all_chars is_host_char host = true ->
  starts_path tail = true ->
  urlparse (sch +:+ "://" +:+ host +:+ tail) = Ret (mkParse (lower sch) host).
Proof.
  intros Hsch Hhost Htail.
  destruct sch as [|c0 sch']; [done|].
  unfold is_scheme in Hsch. apply andb_true_iff in Hsch as [Halpha Hchars].
  unfold urlparse.
  rewrite append_cons. cbn [lstrip_c0]. rewrite (alpha_not_c0 _ Halpha).
  rewrite <- append_cons.
  rewrite !remove_unsafe_app.
  rewrite (remove_unsafe_kept is_scheme_char (String c0 sch')
             scheme_char_not_unsafe Hchars).
  rewrite (remove_unsafe_kept is_host_char host host_char_not_unsafe Hhost).
  change (remove_unsafe "://") with "://".
  set (tail' := remove_unsafe tail).
  assert (Htail' : break_at is_netloc_delim tail' = None /\ tail' = ""
                   \/ break_at is_netloc_delim tail' = Some ("", tail')).
  { subst tail'. destruct tail as [|c t]; [by left|]. right.
    simpl in Htail. simpl. rewrite (delim_not_unsafe _ Htail). simpl.
    by rewrite Htail. }
  unfold split_scheme.
  change ("://" +:+ host +:+ tail')
    with (String ":" (String "/" (String "/" (host +:+ tail')))).
  rewrite (break_at_app is_colon is_scheme_char (String c0 sch') _
             scheme_char_not_colon Hchars).
  cbn [break_at]. change (is_colon ":") with true. cbn iota.
  rewrite append_nil_r. cbn iota. rewrite Halpha, Hchars. cbn [andb].
  unfold split_netloc.
  rewrite (break_at_app is_netloc_delim is_host_char host tail'
             host_char_not_delim Hhost).
  assert (Hnl : match
                  match break_at is_netloc_delim tail' with
                  | Some (before, from) => Some (host +:+ before, from)
                  | None => None
                  end
                with
                | Some (before, _) => before
                | None => host +:+ tail'
                end = host).
  { destruct Htail' as [[-> ->]| ->]; by rewrite append_nil_r. }
  rewrite Hnl.
  rewrite (any_char_none is_open_bracket is_host_char host host_char_not_open Hhost).
  rewrite (any_char_none is_close_bracket is_host_char host host_char_not_close Hhost).
  rewrite (any_char_none is_non_ascii is_host_char host host_char_ascii Hhost).
  reflexivity.
Qed.

Lemma urlunparse_address (sch nl path : string) :
  sch = "http" \/ sch = "https" ->
  nl <> "" \/ prefix_of "//" path = false ->
  urlunparse sch nl path = address sch nl path.
Proof.
  intros Hs Hnl. unfold urlunparse, address.
  assert (Hcond : negb (String.eqb nl "")
                  || (negb (String.eqb sch "")
                      && (String.eqb sch "http" || String.eqb sch "https")
                      && negb (prefix_of "//" path)) = true).
  { destruct Hnl as [Hnl|Hp].
    - by rewrite (eqb_neq_false _ _ Hnl).
    - rewrite Hp. destruct Hs as [-> | ->]; simpl; by rewrite orb_true_r. }
  rewrite Hcond.
  assert (Hslash : (if negb (String.eqb path "") && negb (prefix_of "/" path)
                    then "/" +:+ path else path)
                   = (if String.eqb path "" || prefix_of "/" path
                      then path else "/" +:+ path)).
  { by destruct (String.eqb path ""), (prefix_of "/" path). }
  rewrite Hslash.
  destruct Hs as [-> | ->]; reflexivity.
Qed.

Lemma request_scheme_http (sch sch' : string) :
  request_scheme sch = Some sch' -> sch' = "http" \/ sch' = "https".
Proof.
  unfold request_scheme.
  repeat (destruct (String.eqb sch _); [intros [= <-]; auto|]). done.
Qed.

Lemma build_http_url_parsed (server_url path : string) (parsed : ParseResult) :
  server_url <> "" ->
  urlparse server_url = Ret parsed ->
  build_http_url server_url path
  = Ret (match request_scheme (scheme parsed) with
         | Some sch => Some (urlunparse sch (netloc parsed) path)
         | None => None
         end).
Proof.
  intros Hne Hparse. unfold build_http_url, request_scheme.
  rewrite (eqb_neq_false _ _ Hne), Hparse. cbn [bind].
  destruct (String.eqb_spec (scheme parsed) "ws") as [-> |Hws]; [done|].
  destruct (String.eqb_spec (scheme parsed) "wss") as [-> |Hwss]; [done|].
  destruct (String.eqb_spec (scheme parsed) "http") as [-> |Hhttp]; [done|].
  destruct (String.eqb_spec (scheme parsed) "https") as [-> |Hhttps]; [done|].
  done.
Qed.

(** C6, as the code has it (endpoint address conversion).  An empty
    address gives [None].  An address [urlparse] refuses is not
    rejected with [None]: [build_http_url] raises [ValueError].  For an
    address [urlparse] splits into a scheme and a network location, the
    scheme is substituted ([ws] by [http], [wss] by [https], [http] and
    [https] kept, every other scheme rejected with [None]) and the
    result is the new scheme, [://], the network location and the path.
    In particular an address written as a scheme, [://], a plain host
    and a tail gives the request scheme of the lower-cased scheme,
    [://], that host and the path. *)
Theorem build_http_url_scheme (server_url path : string) :
  server_url <> "" ->
  build_http_url "" path = Ret None
  /\ (forall e, urlparse server_url = Raise e ->
        e = ValueError /\ build_http_url server_url path = Raise ValueError)
  /\ (forall parsed, urlparse server_url = Ret parsed ->
        netloc parsed <> "" \/ prefix_of "//" path = false ->
        build_http_url server_url path
        = Ret (match request_scheme (scheme parsed) with
               | Some sch => Some (address sch (netloc parsed) path)
               | None => None
               end))
  /\ (forall sch host tail,
        server_url = sch +:+ "://" +:+ host +:+ tail ->
        is_scheme sch = true ->
        host <> "" -> all_chars is_host_char host = true ->
        starts_path tail = true ->
        build_http_url server_url path
        = Ret (match request_scheme (lower sch) with
               | Some sch' => Some (address sch' host path)
               | None => None
               end)).
Proof.
  intros Hne.
  assert (Hparsed : forall parsed, urlparse server_url = Ret parsed ->
            netloc parsed <> "" \/ prefix_of "//" path = false ->
            build_http_url server_url path
            = Ret (match request_scheme (scheme parsed) with
                   | Some sch => Some (address sch (netloc parsed) path)
                   | None => None
                   end)).
  { intros parsed Hparse Hnl.
    rewrite (build_http_url_parsed _ _ _ Hne Hparse).
    destruct (request_scheme (scheme parsed)) as [sch|] eqn:Hsch; [|done].
    by rewrite (urlunparse_address _ _ _ (request_scheme_http _ _ Hsch) Hnl). }
  split; [reflexivity|]. split; [|split; [exact Hparsed|]].
  - intros e Hparse.
    assert (He : e = ValueError).
    { revert Hparse. unfold urlparse.
      destruct (split_scheme _) as [sch rest]. cbv zeta.
      destruct (_ || _); [by intros [= <-]|].
      destruct (_ || _); [|done].
      destruct (netloc_special_ok _); [done|]. by intros [= <-]. }
    subst e. split; [done|].
    unfold build_http_url. by rewrite (eqb_neq_false _ _ Hne), Hparse.
  - intros sch host tail -> Hsch Hhost' Hhost Htail.
    pose proof (urlparse_text sch host tail Hsch Hhost Htail) as Hparse.
    apply (Hparsed _ Hparse). left. exact Hhost'.
Qed.

Lemma build_http_url_scheme_witness :
  build_http_url "ws://homeassistant.local:8080/ws" "/api/status"
  = Ret (Some "http://homeassistant.local:8080/api/status")
  /\ build_http_url "WSS://ups.example:8443" ""
     = Ret (Some "https://ups.example:8443")
  /\ build_http_url "ftp://ups.example/ws" "/api/status" = Ret None
  /\ build_http_url "" "/api/status" = Ret None.
Proof.
  destruct (build_http_url_scheme "ws://homeassistant.local:8080/ws" "/api/status")
    as (Hempty & _ & _ & Hws); [discriminate|].
  destruct (build_http_url_scheme "WSS://ups.example:8443" "")
    as (_ & _ & _ & Hwss); [discriminate|].
  destruct (build_http_url_scheme "ftp://ups.example/ws" "/api/status")
    as (_ & _ & _ & Hftp); [discriminate|].
  split; [|split; [|split]].
  - apply (Hws "ws" "homeassistant.local:8080" "/ws"); try reflexivity. discriminate.
  - apply (Hwss "WSS" "ups.example:8443" ""); try reflexivity. discriminate.
  - apply (Hftp "ftp" "ups.example" "/ws"); try reflexivity. discriminate.
  - exact Hempty.
Defined.

(** C6, as stated, fails: not every address with another form is
    rejected.  On an address whose host opens a bracket and does not
    close it, [urlparse] raises [ValueError] and so does
    [build_http_url]. *)
Lemma build_http_url_raises_on_open_bracket :
  build_http_url "ws://[::1/ws" "/api/status" = Raise ValueError.
Proof. reflexivity. Qed.


(** With a network location, the address built is the scheme, [://],
    the network location and the path. *)
Lemma urlunparse_http (sch nl path : string) :
  sch = "http" \/ sch = "https" -> nl <> "" ->
  urlunparse sch nl path
  = sch +:+ "://" +:+ nl +:+
    (if negb (String.eqb path "") && negb (prefix_of "/" path)
     then "/" +:+ path else path).
Proof.
  intros Hs Hnl. unfold urlunparse.
  rewrite (eqb_neq_false _ _ Hnl). simpl.
  destruct Hs as [-> | ->]; reflexivity.
Qed.

(** *** [get_ups_status] *)

Example get_ups_status_ob :
  get_ups_status (PDict [("device_name", PStr "ups1");
                         ("attributes", PDict [("status", PStr "OB")])])
  = Ret "On Battery".
Proof. reflexivity. Qed.

Example get_ups_status_xon :
  get_ups_status (PDict [("device_name", PStr "ups1");
                         ("attributes", PDict [("status", PStr "OL"); ("xon_battery", PInt 1)])])
  = Ret "On Battery".
Proof. reflexivity. Qed.

Example get_ups_status_ol :
  get_ups_status (PDict [("device_name", PStr "ups1");
                         ("attributes", PDict [("status", PStr "OL CHRG")])])
  = Ret "Online".
Proof. reflexivity. Qed.

Example get_ups_status_no_attributes :
  get_ups_status (PDict [("device_name", PStr "ups1")]) = Ret "Online".
Proof. reflexivity. Qed.

Example get_ups_status_attributes_list :
  get_ups_status (PDict [("device_name", PStr "ups1"); ("attributes", PList [PInt 1])])
  = Raise AttributeError.
Proof. reflexivity. Qed.

(** The test [get_ups_status] makes on the two attribute values. *)
Definition on_battery (st x : pyval) : Prop :=
  Exists (fun token => contains (lower (py_str st)) token = true) status_tokens
  \/ In (lower (py_str x)) xon_values.

Lemma existsb_Exists {A} (p : A -> bool) (l : list A) :
  existsb p l = true <-> Exists (fun a => p a = true) l.
Proof.
  rewrite existsb_exists, Exists_exists.
  split; intros [a [Hin Hp]]; exists a; split; try done; by apply list_elem_of_In.
Qed.

Lemma existsb_eqb_In (s : string) (l : list string) :
  existsb (String.eqb s) l = true <-> In s l.
Proof.
  rewrite existsb_exists. split.
  - intros [t [Hin Ht]]. apply String.eqb_eq in Ht. by subst.
  - intros Hin. exists s. split; [done|apply String.eqb_refl].
Qed.

Lemma on_battery_test (st x : pyval) :
  existsb (fun token => contains (lower (py_str st)) token) status_tokens
  || existsb (String.eqb (lower (py_str x))) xon_values = true
  <-> on_battery st x.
Proof.
  unfold on_battery. rewrite orb_true_iff, existsb_Exists, existsb_eqb_In. done.
Qed.

(** C2, as the code has it (status derivation).  A missing device
    ([None], an empty record, any falsy value) gives ["offline"], never
    ["Online"].  For a non-empty record whose attributes are a mapping
    (or missing), with [st] the [status] attribute and [x] the
    [xon_battery] attribute (the empty string when missing): the result
    is ["On Battery"] exactly when the lower-cased text of [st] contains
    one of [onbatt], [on battery], [ob], [on_battery], or the lower-cased
    text of [x] is one of [1], [true], [yes]; otherwise it is
    ["Online"].  So status ["OB"] and xon_battery ["1"] give
    ["On Battery"], and so do other values. *)
Theorem get_ups_status_derivation (device : pyval) :
  (truthy device = false ->
     get_ups_status device = Ret "offline" /\ get_ups_status device <> Ret "Online")
  /\ (forall items attrs,
        device = PDict items -> items <> [] ->
        py_or (items_get_or items "attributes" PNone) (PDict []) = PDict attrs ->
        let st := items_get_or attrs "status" (PStr "") in
        let x := items_get_or attrs "xon_battery" (PStr "") in
        (on_battery st x -> get_ups_status device = Ret "On Battery")
        /\ (~ on_battery st x -> get_ups_status device = Ret "Online")
        /\ (st = PStr "OB" \/ x = PStr "1" -> get_ups_status device = Ret "On Battery")).
Proof.
  split.
  - intros Hf. unfold get_ups_status. rewrite Hf. simpl. split; [done|discriminate].
  - intros items attrs -> Hne Hattrs st x.
    assert (Hrun : get_ups_status (PDict items)
              = Ret (if existsb (fun token => contains (lower (py_str st)) token) status_tokens
                        || existsb (String.eqb (lower (py_str x))) xon_values
                     then "On Battery" else "Online")).
    { unfold get_ups_status.
      assert (Ht : truthy (PDict items) = true) by (by destruct items).
      rewrite Ht. simpl negb. cbv iota.
      unfold py_get at 1. unfold bind at 1.
      rewrite Hattrs. reflexivity. }
    assert (Hon : on_battery st x -> get_ups_status (PDict items) = Ret "On Battery").
    { intros H. apply on_battery_test in H. by rewrite Hrun, H. }
    split; [exact Hon|split].
    + intros H. rewrite Hrun.
      destruct (_ || _) eqn:E; [|done]. by apply on_battery_test in E.
    + intros [Hst | Hx]; apply Hon; unfold on_battery.
      * left. rewrite Hst. apply Exists_exists. exists "ob". split; [|reflexivity].
        unfold status_tokens. set_solver.
      * right. rewrite Hx. simpl. tauto.
Qed.

Lemma get_ups_status_derivation_witness :
  let attrs := [("status", PStr "OB"); ("battery_charge", PInt 87)] in
  let items := [("device_name", PStr "ups1"); ("attributes", PDict attrs)] in
  (on_battery (PStr "OB") (PStr "") -> get_ups_status (PDict items) = Ret "On Battery")
  /\ (~ on_battery (PStr "OB") (PStr "") -> get_ups_status (PDict items) = Ret "Online")
  /\ (PStr "OB" = PStr "OB" \/ PStr "" = PStr "1" ->
      get_ups_status (PDict items) = Ret "On Battery").
Proof.
  intros attrs items.
  apply (proj2 (get_ups_status_derivation (PDict items)) items attrs).
  - reflexivity.
  - discriminate.
  - reflexivity.
Defined.

(** C2, as stated, fails: a status other than ["OB"] need not give
    ["Online"].  apcupsd reports ["ONBATT"]; with no [xon_battery]
    attribute the result is ["On Battery"]. *)
Lemma get_ups_status_other_status_on_battery :
  let attrs := [("status", PStr "ONBATT")] in
  let device := PDict [("device_name", PStr "ups1"); ("attributes", PDict attrs)] in
  items_get attrs "status" <> Some (PStr "OB")
  /\ items_get attrs "xon_battery" = None
  /\ get_ups_status device = Ret "On Battery"
  /\ get_ups_status device <> Ret "Online".
Proof. cbv zeta. repeat split; try reflexivity; discriminate. Qed.

(** *** [normalize_attribute_value] *)

Example float_of_int_100 :
  float_of_int 100 = Ret (S754_finite false 7036874417766400 (-46)).
Proof. vm_compute. reflexivity. Qed.

(** The largest [int] that [float] takes, and the first it refuses. *)
Example float_of_int_max :
  float_of_int (2 ^ 1024 - 2 ^ 970 - 1)
  = Ret (S754_finite false 9007199254740991 971).
Proof. vm_compute. reflexivity. Qed.

Example float_of_int_too_large :
  float_of_int (2 ^ 1024 - 2 ^ 970) = Raise OverflowError.
Proof. vm_compute. reflexivity. Qed.

Example normalize_battery_charge :
  normalize_attribute_value "battery_charge" (PInt 100)
  = Ret (PFloat (S754_finite false 7036874417766400 (-46))).
Proof. vm_compute. reflexivity. Qed.

Example normalize_model :
  normalize_attribute_value "model" (PStr "Back-UPS 1500") = Ret (PStr "Back-UPS 1500").
Proof. reflexivity. Qed.

Definition converting (attribute : string) : bool :=
  String.eqb attribute "time_left" || String.eqb attribute "time_on_battery"
  || existsb (String.eqb attribute) numeric_attrs.

Lemma normalize_none (attribute : string) :
  normalize_attribute_value attribute PNone = Ret PNone.
Proof. reflexivity. Qed.

(** Outside the converting attributes the value is returned as it is. *)
Lemma normalize_other (attribute : string) (value : pyval) :
  converting attribute = false ->
  normalize_attribute_value attribute value = Ret value.
Proof.
  unfold converting. intros H.
  apply orb_false_iff in H as [H H3]. apply orb_false_iff in H as [H1 H2].
  unfold normalize_attribute_value. rewrite H1, H2, H3. by destruct value.
Qed.

(** A value [float] refuses with [ValueError] or [TypeError] is returned
    as it is. *)
Lemma normalize_unconvertible (attribute : string) (value : pyval) :
  py_float value = Raise ValueError \/ py_float value = Raise TypeError ->
  normalize_attribute_value attribute value = Ret value.
Proof.
  intros H. unfold normalize_attribute_value.
  destruct value; try done;
    repeat (match goal with |- context [if ?b then _ else _] => destruct b end);
    try done; destruct H as [-> | ->]; reflexivity.
Qed.

Lemma float_of_int_raises (z : Z) (e : exn) :
  float_of_int z = Raise e -> e = OverflowError.
Proof.
  unfold float_of_int.
  destruct (binary_normalize prec emax z 0 false); congruence.
Qed.

Lemma py_float_raises (value : pyval) (e : exn) :
  py_float value = Raise e ->
  e = TypeError \/ e = ValueError \/ e = OverflowError.
Proof.
  destruct value; simpl; try (intros [= <-]; tauto).
  - intros H%float_of_int_raises. tauto.
  - intros H%float_of_int_raises. tauto.
  - destruct (float_of_str s); intros [= <-]. tauto.
Qed.

Lemma except_value_type_returns (r : result spec_float)
    (k : spec_float -> pyval) (value : pyval) :
  (forall e, r = Raise e -> e = TypeError \/ e = ValueError) ->
  returns (except_value_type (let* f := r in Ret (k f)) value) = true.
Proof.
  intros H. destruct r as [f|e]; [done|].
  destruct (H e eq_refl) as [-> | ->]; done.
Qed.

(** The call returns unless [float] raises [OverflowError]. *)
Lemma normalize_returns (attribute : string) (value : pyval) :
  py_float value <> Raise OverflowError ->
  returns (normalize_attribute_value attribute value) = true.
Proof.
  intros H.
  assert (Hr : forall e, py_float value = Raise e -> e = TypeError \/ e = ValueError).
  { intros e He. destruct (py_float_raises value e He) as [?|[?|?]]; subst; tauto. }
  unfold normalize_attribute_value.
  destruct value; try done;
    repeat (match goal with |- context [if ?b then _ else _] => destruct b end);
    try done; by apply except_value_type_returns.
Qed.

(** C10 at the input where the code departs from it.  An [int] too large
    for a [float], such as a JSON integer of 401 digits, makes [float(value)] raise [OverflowError], which the
    [except (ValueError, TypeError)] clauses do not catch: the call
    raises for each of the three converting groups instead of returning
    the value unchanged. *)
Theorem normalize_attribute_value_overflow :
  let value := PInt (10 ^ 400) in
  normalize_attribute_value "time_left" value = Raise OverflowError
  /\ normalize_attribute_value "time_on_battery" value = Raise OverflowError
  /\ normalize_attribute_value "battery_charge" value = Raise OverflowError.
Proof. cbv zeta. repeat split; vm_compute; reflexivity. Qed.

End HelpersSpec.

Module StoreSpec.
Import Py Store.

(** *** The writes of one call

    What the loop of [_update_state] does to the mapping is a sequence of
    assignments [devices_dict[name] = device]: those of the entries
    before the first one that raises. *)
Definition write : Type := (hkey * pyval * pyval)%type.

Definition write_ok (w : write) : Prop :=
  let '(h, k, _) := w in hash_key k = Some h.

Definition apply_writes (ws : list write) (d : pydict) : pydict :=
  fold_left (fun d w => let '(h, k, v) := w in dict_set d h k v) ws d.

Fixpoint writes (devices_list : list pyval) : list write :=
  match devices_list with
  | [] => []
  | device :: rest =>
      match py_get device "device_name" PNone with
      | Raise _ => []
      | Ret name =>
          if negb (truthy name) then writes rest
          else match hash_key name with
               | None => []
               | Some h => (h, name, device) :: writes rest
               end
      end
  end.

Lemma update_loop_writes devices_list : forall d u,
  fst (update_loop d u devices_list) = apply_writes (writes devices_list) d.
Proof.
  induction devices_list as [|device rest IH]; intros d u; simpl; [done|].
  destruct (py_get device "device_name" PNone) as [name|e]; simpl; [|done].
  destruct (truthy name); simpl; [|by apply IH].
  destruct (hash_key name) as [h|]; simpl; [by apply IH|done].
Qed.

Lemma writes_ok devices_list : Forall write_ok (writes devices_list).
Proof.
  induction devices_list as [|device rest IH]; simpl; [constructor|].
  destruct (py_get device "device_name" PNone) as [name|e]; [|constructor].
  destruct (truthy name); simpl; [|done].
  destruct (hash_key name) as [h|] eqn:Hh; constructor; done.
Qed.

(** The call's outcome does not depend on the mapping it started from. *)
Lemma update_loop_outcome devices_list : forall d d' u,
  snd (update_loop d u devices_list) = snd (update_loop d' u devices_list).
Proof.
  induction devices_list as [|device rest IH]; intros d d' u; simpl; [done|].
  destruct (py_get device "device_name" PNone) as [name|e]; simpl; [|done].
  destruct (truthy name); simpl; [|by apply IH].
  destruct (hash_key name) as [h|]; simpl; [by apply IH|done].
Qed.

(** *** One entry of the mapping under a sequence of writes *)

Definition hits (k0 : pyval) (w : write) : bool :=
  bool_decide (hash_key k0 = Some (fst (fst w))).

(** The value the key [k0] ends with: that of the last write that hits
    it, or [v0]. *)
Definition last_val (k0 : pyval) (ws : list write) (v0 : pyval) : pyval :=
  fold_left (fun v w => if hits k0 w then snd w else v) ws v0.

Definition misses (k0 : pyval) (ws : list write) : list write :=
  List.filter (fun w => negb (hits k0 w)) ws.

Lemma apply_writes_cons ws : forall k0 v0 rest,
  apply_writes ws ((k0, v0) :: rest)
  = (k0, last_val k0 ws v0) :: apply_writes (misses k0 ws) rest.
Proof.
  induction ws as [|[[h k] v] ws IH]; intros k0 v0 rest; [done|].
  change (apply_writes ((h, k, v) :: ws) ((k0, v0) :: rest))
    with (apply_writes ws (dict_set ((k0, v0) :: rest) h k v)).
  change (last_val k0 ((h, k, v) :: ws) v0)
    with (last_val k0 ws (if hits k0 (h, k, v) then v else v0)).
  unfold misses; simpl List.filter; fold (misses k0 ws).
  unfold hits; simpl.
  destruct (decide (hash_key k0 = Some h)) as [Hh|Hh].
  - rewrite bool_decide_eq_true_2 by done. simpl. apply IH.
  - rewrite bool_decide_eq_false_2 by done. simpl. rewrite IH. done.
Qed.

Lemma last_val_idem k0 ws : forall v,
  last_val k0 ws (last_val k0 ws v) = last_val k0 ws v.
Proof.
  unfold last_val.
  induction ws as [|w ws IH]; intros v; simpl; [done|].
  destruct (hits k0 w); [done|apply IH].
Qed.

Lemma misses_length k0 ws : (length (misses k0 ws) <= length ws)%nat.
Proof. unfold misses. apply List.filter_length_le. Qed.

Lemma misses_ok k0 ws : Forall write_ok ws -> Forall write_ok (misses k0 ws).
Proof.
  unfold misses. rewrite !Forall_forall. intros H w Hw.
  apply H. apply list_elem_of_In. apply list_elem_of_In, filter_In in Hw. tauto.
Qed.

(** Writing into the empty mapping, then writing the same again. *)
Lemma apply_writes_idem_nil n : forall ws,
  (length ws <= n)%nat -> Forall write_ok ws ->
  apply_writes ws (apply_writes ws []) = apply_writes ws [].
Proof.
  induction n as [|n IH]; intros [|[[h k] v] ws] Hlen Hok; simpl in *;
    try done; try lia.
  inversion Hok as [|? ? Hw Hws]; subst. simpl in Hw.
  change (apply_writes ((h, k, v) :: ws) []) with (apply_writes ws [(k, v)]).
  rewrite apply_writes_cons.
  change (apply_writes ((h, k, v) :: ws) ?d)
    with (apply_writes ws (dict_set d h k v)).
  simpl. destruct (decide (hash_key k = Some h)); [|done].
  rewrite apply_writes_cons. f_equal.
  apply IH; [|by apply misses_ok].
  pose proof (misses_length k ws). lia.
Qed.

Lemma apply_writes_idem d : forall ws,
  Forall write_ok ws ->
  apply_writes ws (apply_writes ws d) = apply_writes ws d.
Proof.
  induction d as [|[k0 v0] rest IH]; intros ws Hok.
  - by apply (apply_writes_idem_nil (length ws)).
  - rewrite !apply_writes_cons, last_val_idem. f_equal.
    apply IH. by apply misses_ok.
Qed.

(** *** Reads after a write *)

Lemma dict_get_set d : forall h k v h',
  hash_key k = Some h ->
  dict_get (dict_set d h k v) h' = if decide (h = h') then Some v else dict_get d h'.
Proof.
  induction d as [|[k0 v0] rest IH]; intros h k v h' Hk; simpl.
  - rewrite Hk. destruct (decide (h = h')) as [->|Hne].
    + by rewrite decide_True.
    + rewrite decide_False; [done|congruence].
  - destruct (decide (hash_key k0 = Some h)) as [H0|H0]; simpl.
    + rewrite H0. destruct (decide (h = h')) as [->|Hne].
      * by rewrite !decide_True.
      * rewrite !decide_False; congruence.
    + destruct (decide (hash_key k0 = Some h')) as [H1|H1].
      * destruct (decide (h = h')) as [->|Hne]; [congruence|done].
      * by apply IH.
Qed.

Lemma dict_keys_set d : forall h k v,
  dict_keys d `prefix_of` dict_keys (dict_set d h k v).
Proof.
  induction d as [|[k0 v0] rest IH]; intros h k v; simpl.
  - apply prefix_nil.
  - destruct (decide (hash_key k0 = Some h)); simpl; [done|].
    apply prefix_cons, IH.
Qed.

Lemma apply_writes_get ws : forall d h',
  Forall write_ok ws ->
  Forall (fun w => fst (fst w) <> h') ws ->
  dict_get (apply_writes ws d) h' = dict_get d h'.
Proof.
  induction ws as [|[[h k] v] ws IH]; intros d h' Hok Hne; [done|].
  inversion Hok; inversion Hne; subst. simpl in *.
  change (apply_writes ((h, k, v) :: ws) d)
    with (apply_writes ws (dict_set d h k v)).
  rewrite IH by done. rewrite dict_get_set by done.
  by rewrite decide_False.
Qed.

Lemma apply_writes_keys ws : forall d,
  dict_keys d `prefix_of` dict_keys (apply_writes ws d).
Proof.
  induction ws as [|[[h k] v] ws IH]; intros d; [done|].
  change (apply_writes ((h, k, v) :: ws) d)
    with (apply_writes ws (dict_set d h k v)).
  etransitivity; [apply dict_keys_set|apply IH].
Qed.

Lemma update_state_devices d xs :
  fst (_update_state d (Decoded (PList xs))) = apply_writes (writes xs) d.
Proof.
  unfold _update_state.
  pose proof (update_loop_writes xs d []) as H.
  destruct (update_loop d [] xs) as [d' r]. exact H.
Qed.

Lemma update_state_devices_other d v :
  (forall xs, v <> PList xs) -> fst (_update_state d (Decoded v)) = d.
Proof. intros Hv. destruct v; try done. by destruct (Hv xs). Qed.

Lemma writes_Forall (P : write -> Prop) entries :
  (forall device name h,
      device ∈ entries -> py_get device "device_name" PNone = Ret name ->
      truthy name = true -> hash_key name = Some h -> P (h, name, device)) ->
  Forall P (writes entries).
Proof.
  induction entries as [|device rest IH]; intros H; simpl; [constructor|].
  assert (Hrest : Forall P (writes rest)).
  { apply IH. intros d n h Hd. apply H. by right. }
  destruct (py_get device "device_name" PNone) as [name|e] eqn:Hget; [|constructor].
  destruct (truthy name) eqn:Ht; simpl; [|done].
  destruct (hash_key name) as [h|] eqn:Hh; constructor; [|done].
  apply H; [left|..]; done.
Qed.

(** An entry the loop can take: a JSON object whose [device_name] is
    missing, falsy or hashable. *)
Definition entry_ok (device : pyval) : bool :=
  match py_get device "device_name" PNone with
  | Ret name => negb (truthy name) || bool_decide (is_Some (hash_key name))
  | Raise _ => false
  end.

(** An entry with no usable [device_name]: the loop's [continue]. *)
Definition lacks_name (device : pyval) : bool :=
  match py_get device "device_name" PNone with
  | Ret name => negb (truthy name)
  | Raise _ => false
  end.

Definition named_entries (entries : list pyval) : list pyval :=
  List.filter (fun device => negb (lacks_name device)) entries.

Lemma update_loop_named entries : forall d u,
  forallb entry_ok entries = true ->
  update_loop d u entries = update_loop d u (named_entries entries)
  /\ returns (snd (update_loop d u entries)) = true.
Proof.
  induction entries as [|device rest IH]; intros d u Hok; [done|].
  simpl in Hok. apply andb_true_iff in Hok as [Hdev Hrest].
  unfold named_entries; simpl. fold (named_entries rest).
  unfold entry_ok in Hdev. unfold lacks_name.
  destruct (py_get device "device_name" PNone) as [name|e] eqn:Hget; [|done].
  destruct (truthy name) eqn:Ht; simpl.
  - rewrite Hget, Ht; simpl.
    simpl in Hdev. apply bool_decide_eq_true_1 in Hdev as [h Hh]. rewrite Hh.
    by apply IH.
  - by apply IH.
Qed.

Lemma update_loop_unnamed entries : forall d u,
  forallb lacks_name entries = true ->
  update_loop d u entries = (d, Ret u).
Proof.
  induction entries as [|device rest IH]; intros d u Hall; [done|].
  simpl in Hall. apply andb_true_iff in Hall as [Hdev Hrest].
  unfold lacks_name in Hdev. simpl.
  destruct (py_get device "device_name" PNone) as [name|e]; [|done].
  rewrite Hdev. by apply IH.
Qed.

(** *** Reading after a call *)

(** The entry a key reads after the list was applied: the last entry
    that names it, or what it read before. *)
Fixpoint reads_after (entries : list pyval) (h : hkey) (before : option pyval)
  : option pyval :=
  match entries with
  | [] => before
  | device :: rest =>
      reads_after rest h
        (match py_get device "device_name" PNone with
         | Ret name =>
             if truthy name && bool_decide (hash_key name = Some h)
             then Some device else before
         | Raise _ => before
         end)
  end.

Lemma update_loop_returns entries : forall d u names,
  snd (update_loop d u entries) = Ret names ->
  forallb entry_ok entries = true.
Proof.
  induction entries as [|device rest IH]; intros d u names; simpl; [done|].
  unfold entry_ok.
  destruct (py_get device "device_name" PNone) as [name|e]; [|done].
  destruct (truthy name); simpl.
  - destruct (hash_key name) as [h|] eqn:Hh; [|done].
    intros H. rewrite bool_decide_eq_true_2 by eauto. simpl. by eapply IH.
  - intros H. by eapply IH.
Qed.

Lemma update_loop_reads entries : forall d u h,
  forallb entry_ok entries = true ->
  dict_get (fst (update_loop d u entries)) h = reads_after entries h (dict_get d h).
Proof.
  induction entries as [|device rest IH]; intros d u h Hok; simpl; [done|].
  simpl in Hok. apply andb_true_iff in Hok as [Hdev Hrest].
  unfold entry_ok in Hdev.
  destruct (py_get device "device_name" PNone) as [name|e]; [|done].
  destruct (truthy name) eqn:Ht; simpl.
  - simpl in Hdev. apply bool_decide_eq_true_1 in Hdev as [h0 Hh0]. rewrite Hh0.
    rewrite IH by done. rewrite dict_get_set by done. f_equal.
    destruct (decide (h0 = h)) as [->|Hne].
    + by rewrite bool_decide_eq_true_2.
    + rewrite bool_decide_eq_false_2; [done|congruence].
  - by apply IH.
Qed.

Lemma reads_after_app front back h : forall before,
  reads_after (front ++ back) h before
  = reads_after back h (reads_after front h before).
Proof.
  induction front as [|device rest IH]; intros before; simpl; [done|].
  apply IH.
Qed.

Lemma reads_after_unnamed entries h : forall before,
  forallb lacks_name entries = true -> reads_after entries h before = before.
Proof.
  induction entries as [|device rest IH]; intros before Hall; simpl; [done|].
  simpl in Hall. apply andb_true_iff in Hall as [Hdev Hrest].
  rewrite IH by done. unfold lacks_name in Hdev.
  destruct (py_get device "device_name" PNone) as [name|e]; [|done].
  apply negb_true_iff in Hdev. by rewrite Hdev.
Qed.

Lemma update_state_snd d entries :
  snd (_update_state d (Decoded (PList entries)))
  = (let* names := snd (update_loop d [] entries) in Ret (Dispatched names)).
Proof.
  unfold _update_state. by destruct (update_loop d [] entries).
Qed.

Lemma update_state_fst d entries :
  fst (_update_state d (Decoded (PList entries))) = fst (update_loop d [] entries).
Proof.
  unfold _update_state. by destruct (update_loop d [] entries).
Qed.

(** C8 (idempotent apply).  For every device mapping and every
    payload, decoded or not, handing the same payload to
    [_update_state] a second time leaves the device mapping exactly as
    the first call left it.  This holds for every shape of payload: a
    call that raises at an entry stops at the same entry both times, and
    a payload [json.loads] refuses leaves the mapping alone. *)
Theorem update_state_idempotent (devices : pydict) (data : loads) :
  fst (_update_state (fst (_update_state devices data)) data)
  = fst (_update_state devices data).
Proof.
  destruct data as [v| |f]; [|done|done].
  destruct v as [| | | | |xs|]; try done.
  rewrite !update_state_devices.
  apply apply_writes_idem, writes_ok.
Qed.

(** C9 (merge, not replace-all).  Let the mapping hold an entry for
    device B, and let every entry of the snapshot list that names a
    device name device A, a key other than B.  Then after
    [_update_state] B still maps to the value it had; so does every key
    other than A; and the keys held before are all still there, in their
    order, followed by any new one.  A itself is replaced: when the
    list is one the loop runs through, A maps to the last entry of the
    list that names it, whatever it mapped to before, and it keeps what
    it had when no entry has a name. *)
Theorem update_state_keeps_other_devices
    (devices : pydict) (entries : list pyval) (a b : hkey) (vb : pyval) :
  a <> b ->
  dict_get devices b = Some vb ->
  (forall device name,
      device ∈ entries -> py_get device "device_name" PNone = Ret name ->
      truthy name = true -> hash_key name = Some a) ->
  let devices' := fst (_update_state devices (Decoded (PList entries))) in
  dict_get devices' b = Some vb
  /\ (forall h, h <> a -> dict_get devices' h = dict_get devices h)
  /\ dict_keys devices `prefix_of` dict_keys devices'
  /\ (forall front device back name,
        entries = (front ++ device :: back)%list ->
        forallb entry_ok entries = true ->
        py_get device "device_name" PNone = Ret name -> truthy name = true ->
        forallb lacks_name back = true ->
        dict_get devices' a = Some device)
  /\ (forallb lacks_name entries = true ->
        dict_get devices' a = dict_get devices a).
Proof.
  intros Hab Hb Hnames devices'. subst devices'.
  assert (Hother : forall h, h <> a ->
            dict_get (apply_writes (writes entries) devices) h = dict_get devices h).
  { intros h Hh. apply apply_writes_get; [apply writes_ok|].
    apply writes_Forall. intros device name h' Hin Hget Ht Hk. simpl.
    specialize (Hnames device name Hin Hget Ht). congruence. }
  split; [|split; [|split; [|split]]].
  - rewrite update_state_devices, Hother by done. exact Hb.
  - rewrite update_state_devices. exact Hother.
  - rewrite update_state_devices. apply apply_writes_keys.
  - intros front device back name Hsplit Hok Hget Ht Hback.
    rewrite update_state_fst, (update_loop_reads entries devices [] a Hok).
    assert (Hin : device ∈ entries).
    { rewrite Hsplit. apply elem_of_app. right. left. }
    pose proof (Hnames device name Hin Hget Ht) as Hk.
    rewrite Hsplit, reads_after_app. simpl.
    rewrite Hget, Ht. simpl. rewrite bool_decide_eq_true_2 by exact Hk.
    by apply reads_after_unnamed.
  - intros Hall. rewrite update_state_fst.
    by rewrite update_loop_unnamed.
Qed.

Lemma update_state_keeps_other_devices_witness :
  let old_a := PDict [("device_name", PStr "A"); ("attributes", PDict [("status", PStr "OB")])] in
  let ups_a := PDict [("device_name", PStr "A"); ("attributes", PDict [("status", PStr "OL")])] in
  let ups_b := PDict [("device_name", PStr "B"); ("attributes", PDict [("status", PStr "OB")])] in
  let devices := [(PStr "A", old_a); (PStr "B", ups_b)] in
  let devices' := fst (_update_state devices (Decoded (PList [ups_a]))) in
  dict_get devices' (KStr "B") = Some ups_b
  /\ dict_get devices' (KStr "A") = Some ups_a
  /\ (forall h, h <> KStr "A" -> dict_get devices' h = dict_get devices h)
  /\ dict_keys devices `prefix_of` dict_keys devices'.
Proof.
  intros old_a ups_a ups_b devices devices'.
  destruct (update_state_keeps_other_devices
              devices [ups_a] (KStr "A") (KStr "B") ups_b)
    as (Hb & Hother & Hkeys & Ha & _).
  - discriminate.
  - reflexivity.
  - intros device name Hin Hget _.
    apply list_elem_of_singleton in Hin. subst device.
    injection Hget as <-. reflexivity.
  - split; [exact Hb|]. split; [|split; [exact Hother|exact Hkeys]].
    apply (Ha [] ups_a [] (PStr "A")); reflexivity.
Defined.

(** C5, as the code has it (malformed-entry tolerance).  When
    [json.loads] decodes the payload to a list whose every entry is a
    JSON object with a [device_name] that is missing, falsy or a
    hashable value, [_update_state] does not raise, and the entries
    without a name are dropped: the call ends exactly as it does on the
    list without them.  When no entry has a name the mapping is
    unchanged and the change signal is sent with no update.  No count
    of dropped entries is kept.  A payload that is not JSON is dropped
    without raising; a payload on which [json.loads] raises something
    other than [JSONDecodeError] makes [_update_state] raise it, the
    mapping untouched, whatever its entries are. *)
Theorem update_state_drops_unnamed (devices : pydict) (entries : list pyval) :
  forallb entry_ok entries = true ->
  _update_state devices (Decoded (PList entries))
  = _update_state devices (Decoded (PList (named_entries entries)))
  /\ returns (snd (_update_state devices (Decoded (PList entries)))) = true
  /\ (forallb lacks_name entries = true ->
      _update_state devices (Decoded (PList entries)) = (devices, Ret (Dispatched [])))
  /\ _update_state devices JSONDecodeError = (devices, Ret Dropped)
  /\ _update_state devices (LoadsRaised IntegerTooLong) = (devices, Raise ValueError)
  /\ _update_state devices (LoadsRaised NestedTooDeep) = (devices, Raise RecursionError)
  /\ _update_state devices (LoadsRaised NotText) = (devices, Raise UnicodeDecodeError).
Proof.
  intros Hok.
  destruct (update_loop_named entries devices [] Hok) as [Heq Hret].
  split; [|split; [|split; [|repeat split]]]; unfold _update_state.
  - by rewrite Heq.
  - destruct (update_loop devices [] entries) as [d' [u|e]]; done.
  - intros Hall. by rewrite update_loop_unnamed.
Qed.

Lemma update_state_drops_unnamed_witness :
  let ups1 := PDict [("device_name", PStr "ups1"); ("type", PStr "nut")] in
  let unnamed := PDict [("type", PStr "nut")] in
  let blank := PDict [("device_name", PStr "")] in
  _update_state [] (Decoded (PList [unnamed; ups1; blank]))
  = _update_state [] (Decoded (PList (named_entries [unnamed; ups1; blank])))
  /\ returns (snd (_update_state [] (Decoded (PList [unnamed; ups1; blank])))) = true
  /\ (forallb lacks_name [unnamed; ups1; blank] = true ->
      _update_state [] (Decoded (PList [unnamed; ups1; blank])) = ([], Ret (Dispatched [])))
  /\ _update_state [] JSONDecodeError = ([], Ret Dropped)
  /\ _update_state [] (LoadsRaised IntegerTooLong) = ([], Raise ValueError)
  /\ _update_state [] (LoadsRaised NestedTooDeep) = ([], Raise RecursionError)
  /\ _update_state [] (LoadsRaised NotText) = ([], Raise UnicodeDecodeError).
Proof.
  intros ups1 unnamed blank.
  apply (update_state_drops_unnamed [] [unnamed; ups1; blank]).
  reflexivity.
Defined.

(** C5, as stated, fails: an entry that is not a JSON object makes
    [_update_state] raise.  On the payload [[1]] the call
    [device.get("device_name")] raises [AttributeError]. *)
Lemma update_state_raises_on_non_object :
  _update_state [] (Decoded (PList [PInt 1])) = ([], Raise AttributeError).
Proof. reflexivity. Qed.

(** A list of well-named objects one of which holds an integer of 5001
    digits: [json.loads] raises [ValueError], and so does the call. *)
Example update_state_raises_on_long_integer (devices : pydict) :
  _update_state devices (LoadsRaised IntegerTooLong) = (devices, Raise ValueError).
Proof. reflexivity. Qed.

(** A name that is a list cannot be a key: [TypeError], after the
    entries before it were written. *)
Example update_state_raises_on_unhashable :
  let ups1 := PDict [("device_name", PStr "ups1")] in
  _update_state [] (Decoded (PList [ups1; PDict [("device_name", PList [PInt 1])]]))
  = ([(PStr "ups1", ups1)], Raise TypeError).
Proof. reflexivity. Qed.

(** [True], [1] and [1.0] are one key; [1.5] is another. *)
Example hash_key_numbers :
  hash_key (PBool true) = hash_key (PInt 1)
  /\ hash_key (PFloat (S754_finite false 4503599627370496 (-52))) = hash_key (PInt 1)
  /\ hash_key (PFloat (S754_finite false 6755399441055744 (-52)))
     = Some (KFrac false 3 (-1)).
Proof. repeat split; reflexivity. Qed.

Example update_state_same_key :
  let d1 := PDict [("device_name", PInt 1); ("type", PStr "nut")] in
  let d2 := PDict [("device_name", PBool true)] in
  _update_state [] (Decoded (PList [d1; d2])) = ([(PInt 1, d2)], Ret (Dispatched [PInt 1; PBool true])).
Proof. reflexivity. Qed.

End StoreSpec.

Module SeedSpec.
Import Py Helpers Store StoreSpec Seed.

Definition ups (name : string) : pyval :=
  PDict [("device_name", PStr name); ("type", PStr "nut");
         ("attributes", PDict [("status", PStr "OL")])].

(** The requests of the example: [[a]], [[a]], [[a, b]]. *)
Definition example_env (attempt : Z) : get_outcome :=
  if attempt <? 2 then GetResponse 200 (Some (PList [ups "a"]))
  else GetResponse 200 (Some (PList [ups "a"; ups "b"])).

Example seed_loop_example :
  seed_loop "ws://homeassistant.local:8080/ws" {["a"; "b"]} example_env
  = ([Fetch; Sleep 1; Fetch; Sleep 1; Fetch], Ret (PList [ups "a"; ups "b"])).
Proof. vm_compute. reflexivity. Qed.

(** *** The claim's words *)

(** A fetched result of the expected shape: a list of JSON objects whose
    [device_name] is missing, falsy or hashable. *)
Definition well_formed (data : pyval) : Prop :=
  exists xs, data = PList xs /\ forallb entry_ok xs = true.

(** The name [c] appears among the [device_name] fields of [data]. *)
Definition present (c : string) (data : pyval) : Prop :=
  exists xs d, data = PList xs /\ d ∈ xs
               /\ py_get d "device_name" PNone = Ret (PStr c).

(** The fetch is not empty and every configured name appears in it. *)
Definition converged (configured_names : gset string) (data : pyval) : Prop :=
  truthy data = true /\ forall c, c ∈ configured_names -> present c data.

(** The test one attempt makes on the data it fetched. *)
Definition attempt_ok (configured_names : gset string) (data : pyval)
  : result bool :=
  if truthy data then
    let* names := device_names_in_data data in
    Ret (bool_decide (missing_devices configured_names names = ∅))
  else Ret false.

Lemma hash_key_str (v : pyval) (c : string) :
  hash_key v = Some (KStr c) <-> v = PStr c.
Proof.
  split; [|by intros ->].
  destruct v as [| b | z | f | s | xs | items]; simpl; intros H;
    try discriminate.
  - destruct f as [| | |sg m e]; simpl in H; try discriminate.
    destruct (strip_twos m e) as [m' e']. by destruct (0 <=? e').
  - congruence.
Qed.

Lemma collect_names_spec xs : forall acc,
  forallb entry_ok xs = true ->
  exists names,
    collect_names xs acc = Ret names
    /\ forall h, h ∈ names <->
         h ∈ acc \/ exists d name, d ∈ xs /\ py_get d "device_name" PNone = Ret name
                                   /\ truthy name = true /\ hash_key name = Some h.
Proof.
  induction xs as [|d rest IH]; intros acc Hok.
  - exists acc. split; [done|]. intros h. split; [tauto|].
    intros [H|(d & name & Hd & _)]; [done|]. by apply elem_of_nil in Hd.
  - simpl in Hok. apply andb_true_iff in Hok as [Hd Hrest].
    unfold entry_ok in Hd. simpl.
    destruct (py_get d "device_name" PNone) as [name|e] eqn:Hget; [|done].
    simpl. destruct (truthy name) eqn:Ht.
    + simpl in Hd. apply bool_decide_eq_true_1 in Hd as [h0 Hh0]. rewrite Hh0.
      destruct (IH (acc ++ [h0])%list Hrest) as (names & Hrun & Hin).
      exists names. split; [done|]. intros h. rewrite Hin, elem_of_app, list_elem_of_singleton.
      split.
      * intros [[H| ->]|(d' & n' & Hd' & H')]; [by left|right..].
        -- exists d, name. repeat split; try done. by left.
        -- exists d', n'. split; [by right|done].
      * intros [H|(d' & n' & Hd' & Hg' & Ht' & Hh')]; [by left; left|].
        apply elem_of_cons in Hd' as [-> |Hd'].
        -- left; right. congruence.
        -- right. exists d', n'. done.
    + destruct (IH acc Hrest) as (names & Hrun & Hin).
      exists names. split; [done|]. intros h. rewrite Hin. split.
      * intros [H|(d' & n' & Hd' & H')]; [by left|right].
        exists d', n'. split; [by right|done].
      * intros [H|(d' & n' & Hd' & Hg' & Ht' & Hh')]; [by left|].
        apply elem_of_cons in Hd' as [-> |Hd'].
        -- congruence.
        -- right. exists d', n'. done.
Qed.

Lemma attempt_ok_spec (configured_names : gset string) (data : pyval) :
  "" ∉ configured_names -> well_formed data ->
  exists b, attempt_ok configured_names data = Ret b
            /\ (b = true <-> converged configured_names data).
Proof.
  intros Hblank (xs & -> & Hok). unfold attempt_ok, converged.
  destruct (truthy (PList xs)) eqn:Ht.
  - unfold device_names_in_data. simpl.
    destruct (collect_names_spec xs [] Hok) as (names & -> & Hin). simpl.
    eexists. split; [done|].
    rewrite bool_decide_eq_true. unfold missing_devices.
    split.
    + intros Hempty. split; [done|]. intros c Hc.
      destruct (decide (KStr c ∈ names)) as [Hn|Hn].
      * apply Hin in Hn as [Hn|(d & name & Hd & Hget & _ & Hh)];
          [by apply elem_of_nil in Hn|].
        apply hash_key_str in Hh as ->. by exists xs, d.
      * exfalso. assert (c ∈ filter (fun c => KStr c ∉ names) configured_names)
          as Hcm by (by apply elem_of_filter).
        rewrite Hempty in Hcm. set_solver.
    + intros [_ Hall]. apply elem_of_equiv_empty_L. intros c [Hn Hc]%elem_of_filter.
      apply Hn, Hin. right.
      destruct (Hall c Hc) as (xs' & d & [= <-] & Hd & Hget).
      exists d, (PStr c). repeat split; try done.
      simpl. destruct (String.eqb_spec c ""); [by subst|done].
  - exists false. split; [done|]. split; [done|]. by intros [? _].
Qed.

(** One attempt of the loop, in terms of its test. *)
Lemma seed_attempts_cons ws_url configured_names env attempt rest data0 trace :
  seed_attempts ws_url configured_names env (attempt :: rest) data0 trace
  = match _fetch_initial_status ws_url (env attempt) with
    | Raise e => ((trace ++ [Fetch])%list, Raise e)
    | Ret data =>
        match attempt_ok configured_names data with
        | Raise e => ((trace ++ [Fetch])%list, Raise e)
        | Ret true => ((trace ++ [Fetch])%list, Ret data)
        | Ret false =>
            seed_attempts ws_url configured_names env rest data
              (if attempt <? max_retries - 1
               then ((trace ++ [Fetch]) ++ [Sleep 1])%list
               else (trace ++ [Fetch])%list)
        end
    end.
Proof.
  simpl. destruct (_fetch_initial_status ws_url (env attempt)) as [data|e]; [|done].
  unfold attempt_ok. destruct (truthy data); [|done].
  destruct (device_names_in_data data) as [names|e]; [|done]. simpl.
  by destruct (bool_decide _).
Qed.

Definition shapes : list (list event) :=
  [ [Fetch]; [Fetch; Sleep 1; Fetch]; [Fetch; Sleep 1; Fetch; Sleep 1; Fetch] ].

(** However the loop ends, it has fetched one, two or three times, with
    a sleep of one second between two fetches and nowhere else. *)
Lemma seed_loop_shape ws_url configured_names env :
  fst (seed_loop ws_url configured_names env) ∈ shapes.
Proof.
  unfold seed_loop, shapes.
  rewrite seed_attempts_cons.
  destruct (_fetch_initial_status ws_url (env 0)) as [d0|e]; [|set_solver].
  destruct (attempt_ok configured_names d0) as [[|]|e]; [set_solver| |set_solver].
  rewrite seed_attempts_cons.
  destruct (_fetch_initial_status ws_url (env 1)) as [d1|e]; [|set_solver].
  destruct (attempt_ok configured_names d1) as [[|]|e]; [set_solver| |set_solver].
  rewrite seed_attempts_cons.
  destruct (_fetch_initial_status ws_url (env 2)) as [d2|e]; [|set_solver].
  destruct (attempt_ok configured_names d2) as [[|]|e]; simpl; set_solver.
Qed.

(** C4 (seed convergence).  The loop fetches one, two or three times,
    with a sleep of one second between two fetches and none after the
    last.  Let the three requests return well-formed results [d0], [d1],
    [d2].  The loop stops at the first attempt whose result is not empty
    and holds every configured name: after one fetch with [d0], else
    after two with [d1], else it runs all three and ends with [d2].
    With no configured name a first non-empty fetch ends the loop.  For
    configured names a and b and fetches [[a]], [[a]], [[a, b]] the loop
    ends after the third fetch, and both devices are in the data and in
    the seeded mapping. *)
Theorem seed_loop_convergence
    (ws_url : string) (configured_names : gset string)
    (env : Z -> get_outcome) (d0 d1 d2 : pyval) :
  "" ∉ configured_names ->
  _fetch_initial_status ws_url (env 0) = Ret d0 ->
  _fetch_initial_status ws_url (env 1) = Ret d1 ->
  _fetch_initial_status ws_url (env 2) = Ret d2 ->
  well_formed d0 -> well_formed d1 -> well_formed d2 ->
  let run := seed_loop ws_url configured_names env in
  fst run ∈ shapes
  /\ (converged configured_names d0 -> run = ([Fetch], Ret d0))
  /\ (~ converged configured_names d0 -> converged configured_names d1 ->
      run = ([Fetch; Sleep 1; Fetch], Ret d1))
  /\ (~ converged configured_names d0 -> ~ converged configured_names d1 ->
      run = ([Fetch; Sleep 1; Fetch; Sleep 1; Fetch], Ret d2))
  /\ (configured_names = ∅ -> truthy d0 = true -> run = ([Fetch], Ret d0))
  /\ (let both := PList [ups "a"; ups "b"] in
      seed_loop "ws://homeassistant.local:8080/ws" {["a"; "b"]} example_env
      = ([Fetch; Sleep 1; Fetch; Sleep 1; Fetch], Ret both)
      /\ present "a" both /\ present "b" both
      /\ dict_keys (fst (seed_devices both)) = [PStr "a"; PStr "b"]).
Proof.
  intros Hblank H0 H1 H2 W0 W1 W2 run.
  destruct (attempt_ok_spec configured_names d0 Hblank W0) as (b0 & E0 & C0).
  destruct (attempt_ok_spec configured_names d1 Hblank W1) as (b1 & E1 & C1).
  destruct (attempt_ok_spec configured_names d2 Hblank W2) as (b2 & E2 & C2).
  assert (Hrun : run = if b0 then ([Fetch], Ret d0)
                       else if b1 then ([Fetch; Sleep 1; Fetch], Ret d1)
                       else ([Fetch; Sleep 1; Fetch; Sleep 1; Fetch], Ret d2)).
  { subst run. unfold seed_loop.
    rewrite seed_attempts_cons, H0, E0. destruct b0; [done|].
    rewrite seed_attempts_cons, H1, E1. destruct b1; [done|].
    rewrite seed_attempts_cons, H2, E2. by destruct b2. }
  split; [apply seed_loop_shape|].
  assert (Hfirst : converged configured_names d0 -> run = ([Fetch], Ret d0)).
  { intros Hc. apply C0 in Hc. by rewrite Hrun, Hc. }
  split; [exact Hfirst|]. split; [|split; [|split]].
  - intros N0 Hc1. rewrite Hrun. destruct b0; [by destruct N0; apply C0|].
    apply C1 in Hc1. by rewrite Hc1.
  - intros N0 N1. rewrite Hrun. destruct b0; [by destruct N0; apply C0|].
    destruct b1; [by destruct N1; apply C1|done].
  - intros -> Ht. apply Hfirst. split; [done|]. set_solver.
  - cbv zeta. split; [vm_compute; reflexivity|]. split; [|split].
    + exists [ups "a"; ups "b"], (ups "a").
      split; [done|]. split; [apply list_elem_of_here|done].
    + exists [ups "a"; ups "b"], (ups "b").
      split; [done|]. split; [apply list_elem_of_further, list_elem_of_here|done].
    + reflexivity.
Qed.

Lemma seed_loop_convergence_witness :
  let configured_names : gset string := {["a"; "b"]} in
  let url := "ws://homeassistant.local:8080/ws" in
  let d0 := PList [ups "a"] in
  let d2 := PList [ups "a"; ups "b"] in
  let run := seed_loop url configured_names example_env in
  fst run ∈ shapes
  /\ (converged configured_names d0 -> run = ([Fetch], Ret d0))
  /\ (~ converged configured_names d0 -> converged configured_names d0 ->
      run = ([Fetch; Sleep 1; Fetch], Ret d0))
  /\ (~ converged configured_names d0 -> ~ converged configured_names d0 ->
      run = ([Fetch; Sleep 1; Fetch; Sleep 1; Fetch], Ret d2))
  /\ (configured_names = ∅ -> truthy d0 = true -> run = ([Fetch], Ret d0))
  /\ (let both := PList [ups "a"; ups "b"] in
      seed_loop "ws://homeassistant.local:8080/ws" {["a"; "b"]} example_env
      = ([Fetch; Sleep 1; Fetch; Sleep 1; Fetch], Ret both)
      /\ present "a" both /\ present "b" both
      /\ dict_keys (fst (seed_devices both)) = [PStr "a"; PStr "b"]).
Proof.
  intros configured_names url d0 d2.
  apply (seed_loop_convergence url configured_names example_env d0 d0 d2).
  - subst configured_names. vm_compute. intros H. discriminate H.
  - reflexivity.
  - reflexivity.
  - reflexivity.
  - exists [ups "a"]. split; reflexivity.
  - exists [ups "a"]. split; reflexivity.
  - exists [ups "a"; ups "b"]. split; reflexivity.
Defined.

(** In the example the first two fetches lack device b. *)
Example example_not_converged :
  ~ converged {["a"; "b"]} (PList [ups "a"]).
Proof.
  intros [_ H]. destruct (H "b") as (xs & d & [= <-] & Hd & Hget); [set_solver|].
  apply list_elem_of_singleton in Hd as ->. discriminate Hget.
Qed.

(** A response other than 200, a body that is not JSON or a failed
    request all count as an empty fetch. *)
Example fetch_failures :
  let url := "ws://homeassistant.local:8080/ws" in
  _fetch_initial_status url GetFailed = Ret (PList [])
  /\ _fetch_initial_status url (GetResponse 503 (Some (PList [ups "a"]))) = Ret (PList [])
  /\ _fetch_initial_status url (GetResponse 200 None) = Ret (PList [])
  /\ _fetch_initial_status "ftp://host" (GetResponse 200 (Some (PList [ups "a"])))
     = Ret (PList []).
Proof. cbv zeta. repeat split; reflexivity. Qed.

End SeedSpec.

Module StreamSpec.
Import Py Store Stream.

Definition trace_of (run : pydict * list event * status) : list event := snd (fst run).
Definition status_of (run : pydict * list event * status) : status := snd run.

(** A round in which the connection closes at once: no message, the
    connection ends otherwise than by cancellation, and nothing sets the
    stop event or cancels the sleep. *)
Definition closes_at_once (r : round) : Prop :=
  messages r = [] /\ how r <> Cancel /\ stop_set r = false
  /\ then_sleep r = SleepDone false.

(** Once [Stop] is in the trace, no [Connect] follows it. *)
Definition stop_is_final (tr : list event) : Prop :=
  forall pre post, tr = (pre ++ Stop :: post)%list -> Connect ∉ post.

Lemma stop_is_final_no_stop tr : Stop ∉ tr -> stop_is_final tr.
Proof.
  intros H pre post ->. destruct H. apply elem_of_app. right. left.
Qed.

Lemma stop_is_final_app a b :
  Stop ∉ a -> stop_is_final b -> stop_is_final (a ++ b).
Proof.
  intros Ha Hb pre post Heq. symmetry in Heq.
  apply app_eq_app in Heq as [l [[-> Hb']|[-> Hl]]].
  - by apply (Hb l post).
  - destruct l as [|e l]; simpl in Hl.
    + by apply (Hb [] post).
    + injection Hl as <- _. destruct Ha. apply elem_of_app. right. left.
Qed.

Lemma stop_is_final_last a : Stop ∉ a -> stop_is_final (a ++ [Stop]).
Proof.
  intros Ha. apply stop_is_final_app; [done|].
  intros pre post Heq. destruct pre as [|e [|e' pre]]; simplify_eq; set_solver.
Qed.

Lemma receive_trace msgs : forall devices,
  Forall (fun e => exists m, e = Update m) (snd (fst (receive devices msgs))).
Proof.
  induction msgs as [|m rest IH]; intros devices; simpl; [constructor|].
  destruct (_update_state devices m) as [d' [u|e]].
  - specialize (IH d'). destruct (receive d' rest) as [[d'' tr] ok]. simpl in *.
    constructor; eauto.
  - simpl. constructor; eauto.
Qed.

Lemma receive_no_stop devices msgs : Stop ∉ snd (fst (receive devices msgs)).
Proof.
  intros Hin. pose proof (receive_trace msgs devices) as H.
  rewrite Forall_forall in H. destruct (H _ Hin) as [m Hm]. discriminate.
Qed.

Lemma listen_ws_stopped devices script :
  _listen_ws devices true script = (devices, [], Stopped).
Proof. by destruct script. Qed.

(** The two facts about a run that the stop claim needs. *)
Definition stop_respected (run : pydict * list event * status) : Prop :=
  stop_is_final (trace_of run)
  /\ (Stop ∈ trace_of run -> status_of run <> Running).

Ltac no_stop :=
  unfold trace_of, status_of in *; simpl in *;
  repeat (rewrite elem_of_cons || rewrite elem_of_app || rewrite elem_of_nil);
  intuition (try discriminate; eauto using receive_no_stop).

Lemma round_sr_end d (received : list event) (st : status) :
  Stop ∉ received -> st <> Running ->
  stop_respected (d, (Connect :: received ++ [Stop])%list, st).
Proof.
  intros Hr Hst. split; [|done].
  apply (stop_is_final_last (Connect :: received)). no_stop.
Qed.

Lemma round_sr_quiet d (received extra : list event) (st : status) :
  Stop ∉ received -> Stop ∉ extra -> st <> Running ->
  stop_respected (d, (Connect :: received ++ extra)%list, st).
Proof.
  intros Hr He Hst. split; [|done].
  apply stop_is_final_no_stop. no_stop.
Qed.

Lemma round_sr_cancel d (received : list event) :
  Stop ∉ received -> stop_respected (d, Connect :: received, Cancelled).
Proof.
  intros Hr. split; [|intros _; discriminate].
  apply stop_is_final_no_stop. no_stop.
Qed.

Lemma round_sr_sleep_stop d (received : list event) :
  Stop ∉ received ->
  stop_respected
    (d, (Connect :: received ++ [Sleep RECONNECT_DELAY; Stop])%list, Stopped).
Proof.
  intros Hr. split; [|intros _; discriminate].
  unfold trace_of; simpl.
  replace (received ++ [Sleep RECONNECT_DELAY; Stop])%list
    with ((received ++ [Sleep RECONNECT_DELAY]) ++ [Stop])%list
    by (by rewrite <- app_assoc).
  apply (stop_is_final_last (Connect :: received ++ [Sleep RECONNECT_DELAY])).
  no_stop.
Qed.

Lemma round_sr_next d d' (received tr : list event) (st : status) :
  Stop ∉ received ->
  stop_respected (d', tr, st) ->
  stop_respected (d, (Connect :: received ++ Sleep RECONNECT_DELAY :: tr)%list, st).
Proof.
  intros Hr [Hf Hs]. unfold stop_respected, trace_of, status_of in *. simpl in *.
  split.
  - apply (stop_is_final_app (Connect :: received ++ [Sleep RECONNECT_DELAY]) tr)
      in Hf; [|no_stop].
    simpl in Hf. by rewrite <- app_assoc in Hf.
  - intros Hin. apply Hs. revert Hin. no_stop.
Qed.

Lemma listen_ws_stop_respected script : forall devices stop,
  stop_respected (_listen_ws devices stop script).
Proof.
  induction script as [|r rest IH]; intros devices stop.
  - destruct stop; simpl; (split; [apply stop_is_final_no_stop|]);
      unfold trace_of; simpl; no_stop.
  - destruct stop.
    { simpl. split; [apply stop_is_final_no_stop|]; unfold trace_of; simpl; no_stop. }
    unfold _listen_ws; fold _listen_ws.
    set (rc := match how r with
               | ConnectFailed => (devices, [], true)
               | _ => receive devices (messages r)
               end).
    assert (Hrc : Stop ∉ snd (fst rc)).
    { subst rc. destruct (how r); simpl; try apply receive_no_stop; no_stop. }
    destruct rc as [[d' received] ok]. simpl in Hrc.
    destruct (stop_set r) eqn:Hss.
    + rewrite listen_ws_stopped.
      destruct (if ok then how r else OtherError);
        rewrite ?app_nil_r; by apply round_sr_end.
    + pose proof (IH d' false) as IHf.
      destruct (_listen_ws d' false rest) as [[d'' tr] st] eqn:Hrest.
      destruct (if ok then how r else OtherError), (then_sleep r) as [[|]|];
        rewrite ?listen_ws_stopped; rewrite ?app_nil_r; simpl;
        rewrite <- ?app_assoc; simpl;
        first [ by apply round_sr_sleep_stop
              | by apply round_sr_quiet; [done|no_stop|done]
              | by (rewrite Hrest; eapply round_sr_next; [done|exact IHf])
              | by apply round_sr_cancel ].
Qed.

Lemma listen_ws_reconnects script : forall devices,
  Forall closes_at_once script ->
  _listen_ws devices false script
  = (devices,
     concat (map (fun _ => [Connect; Sleep RECONNECT_DELAY]) script),
     Running).
Proof.
  induction script as [|r rest IH]; intros devices Hall; [done|].
  inversion Hall as [|? ? (Hm & Hh & Hs & Hsl) Hrest]; subst.
  unfold _listen_ws; fold _listen_ws.
  rewrite Hm, Hs, Hsl.
  destruct (how r); try done; simpl; by rewrite (IH devices Hrest).
Qed.

Lemma listen_ws_stop_in_sleep devices r rest :
  messages r = [] -> how r <> Cancel -> stop_set r = false ->
  then_sleep r = SleepDone true ->
  _listen_ws devices false (r :: rest)
  = (devices, [Connect; Sleep RECONNECT_DELAY; Stop], Stopped).
Proof.
  intros Hm Hh Hs Hsl.
  unfold _listen_ws; fold _listen_ws.
  rewrite Hm, Hs, Hsl.
  destruct (how r); try done; simpl; by rewrite listen_ws_stopped.
Qed.

(** C7 (reconnect and stop).  While every connection closes at once and
    nothing sets the stop event, the listener goes round for as long as
    the environment does: each round is one connect attempt followed by
    one sleep of [RECONNECT_DELAY] = 5 seconds, and the loop is still
    running at the end.  Under every environment, once the stop event is
    set no connect attempt follows, and the loop is then no longer
    running; with the stop event set on entry nothing is attempted; and
    when it is set during the sleep after a closed connection, the sleep
    is the last thing the loop does. *)
Theorem listen_ws_reconnect_and_stop
    (devices : pydict) (stop : bool) (script : list round) :
  RECONNECT_DELAY = 5
  /\ (Forall closes_at_once script ->
      _listen_ws devices false script
      = (devices,
         concat (map (fun _ => [Connect; Sleep RECONNECT_DELAY]) script),
         Running))
  /\ stop_is_final (trace_of (_listen_ws devices stop script))
  /\ (Stop ∈ trace_of (_listen_ws devices stop script) ->
      status_of (_listen_ws devices stop script) <> Running)
  /\ (stop = true -> _listen_ws devices stop script = (devices, [], Stopped))
  /\ (forall r, messages r = [] -> how r <> Cancel -> stop_set r = false ->
        then_sleep r = SleepDone true ->
        _listen_ws devices false (r :: script)
        = (devices, [Connect; Sleep RECONNECT_DELAY; Stop], Stopped)).
Proof.
  split; [done|]. split; [apply listen_ws_reconnects|].
  destruct (listen_ws_stop_respected script devices stop) as [Hf Hs].
  split; [exact Hf|]. split; [exact Hs|]. split.
  - intros ->. apply listen_ws_stopped.
  - intros r. apply listen_ws_stop_in_sleep.
Qed.

Definition closing_round : round :=
  mkRound [] EndOfStream false (SleepDone false).

Lemma listen_ws_reconnect_and_stop_witness :
  _listen_ws [] false [closing_round; closing_round; closing_round]
  = ([], [Connect; Sleep 5; Connect; Sleep 5; Connect; Sleep 5], Running).
Proof.
  apply (proj1 (proj2 (listen_ws_reconnect_and_stop
                         [] false [closing_round; closing_round; closing_round]))).
  repeat constructor; discriminate.
Defined.

(** A connection that delivers two snapshots and is then closed with an
    error; the stop event is set during the sleep. *)
Example listen_ws_run :
  let ups1 := PDict [("device_name", PStr "ups1")] in
  let ups2 := PDict [("device_name", PStr "ups2")] in
  let r := mkRound [Decoded (PList [ups1]); JSONDecodeError; Decoded (PList [ups2])]
                   ClosedError false (SleepDone true) in
  _listen_ws [] false [r; closing_round]
  = ([(PStr "ups1", ups1); (PStr "ups2", ups2)],
     [Connect; Update (Decoded (PList [ups1])); Update JSONDecodeError;
      Update (Decoded (PList [ups2])); Sleep 5; Stop],
     Stopped).
Proof. reflexivity. Qed.

(** A message whose entry is not an object drops the connection; the
    loop sleeps and connects again. *)
Example listen_ws_bad_message :
  let r := mkRound [Decoded (PList [PInt 1]); Decoded (PList [])]
                   EndOfStream false (SleepDone false) in
  _listen_ws [] false [r; closing_round]
  = ([], [Connect; Update (Decoded (PList [PInt 1])); Sleep 5; Connect; Sleep 5],
     Running).
Proof. reflexivity. Qed.

End StreamSpec.

Module DiscoverySpec.
Import Py Store Connection.

(** *** A ledger and the entities added under it *)

Section Ledger.

Context {E : Type} (key_of : E -> string).

(** Since the pass started with [added0]: the set has only grown, the
    new entities are pairwise different, and each has its key in the
    set now and had it not when the pass started. *)
Definition ledger_ok (added0 added : gset string) (new_entities : list E) : Prop :=
  added0 ⊆ added
  /\ NoDup new_entities
  /\ forall e, e ∈ new_entities -> key_of e ∈ added /\ key_of e ∉ added0.

Lemma ledger_ok_start (added0 : gset string) : ledger_ok added0 added0 [].
Proof.
  split; [done|]. split; [constructor|]. intros e He. by apply elem_of_nil in He.
Qed.

Lemma ledger_ok_add (added0 added : gset string) (new_entities : list E) (e : E) :
  ledger_ok added0 added new_entities ->
  key_of e ∉ added ->
  ledger_ok added0 ({[key_of e]} ∪ added) (new_entities ++ [e]).
Proof.
  intros (Hsub & Hnd & Hkeys) Hfresh.
  split; [by apply union_subseteq_r'|]. split.
  - apply NoDup_app. split; [done|]. split; [|apply NoDup_singleton].
    intros x Hx Hx'. apply list_elem_of_singleton in Hx'. subst x.
    by destruct (Hkeys e Hx).
  - intros x Hx. apply elem_of_app in Hx as [Hx|Hx].
    + destruct (Hkeys x Hx) as [Hin Hout]. split; [|done].
      apply elem_of_union. by right.
    + apply list_elem_of_singleton in Hx. subst x. split.
      * apply elem_of_union. left. by apply elem_of_singleton.
      * intros Hin. by apply Hfresh, Hsub.
Qed.

(** What a finished or failed pass leaves. *)
Definition pass_ok (added0 : gset string) (out : gset string * result (list E)) : Prop :=
  match snd out with
  | Ret new_entities => ledger_ok added0 (fst out) new_entities
  | Raise _ => added0 ⊆ fst out
  end.

(** Appending what a pass hands over keeps the record of emitted
    entities free of repetitions, with every key in the ledger. *)
Definition emitted_ok (added : gset string) (emitted : list E) : Prop :=
  NoDup emitted /\ forall e, e ∈ emitted -> key_of e ∈ added.

Lemma emitted_ok_pass (added0 : gset string) (emitted : list E)
    (out : gset string * result (list E)) :
  emitted_ok added0 emitted -> pass_ok added0 out ->
  added0 ⊆ fst out /\ emitted_ok (fst out) (emitted ++ handed_over (snd out)).
Proof.
  intros [Hnd Hkeys] Hpass. unfold pass_ok in Hpass.
  destruct out as [added [new_entities|e]]; simpl in *.
  - destruct Hpass as (Hsub & Hnew & Hk). split; [done|]. split.
    + apply NoDup_app. split; [done|]. split; [|done].
      intros x Hx Hx'. destruct (Hk x Hx') as [_ Hno]. by apply Hno, Hkeys.
    + intros x [Hx|Hx]%elem_of_app; [|by apply Hk]. by apply Hsub, Hkeys.
  - rewrite app_nil_r. split; [done|]. split; [done|].
    intros x Hx. by apply Hpass, Hkeys.
Qed.

End Ledger.

(** *** The sensor platform *)

Definition sensor_key (e : Sensor.SensorEntity) : string :=
  match e with
  | Sensor.UPSStatusSensor _ device_name => py_str device_name +:+ "-status"
  | Sensor.UPSAttributeSensor _ device_name attribute =>
      py_str device_name +:+ "-" +:+ attribute
  end.

Lemma sensor_attribute_loop_ok entry_id device_name added0 keys :
  forall added new_entities,
  ledger_ok sensor_key added0 added new_entities ->
  ledger_ok sensor_key added0
    (fst (Sensor.attribute_loop entry_id device_name keys added new_entities))
    (snd (Sensor.attribute_loop entry_id device_name keys added new_entities)).
Proof.
  induction keys as [|k rest IH]; intros added new_entities Hok; [done|].
  simpl. case_bool_decide as Hin; [by apply IH|].
  destruct (String.eqb k "status"); [by apply IH|].
  apply IH.
  by apply (ledger_ok_add sensor_key _ _ _
              (Sensor.UPSAttributeSensor entry_id device_name k)).
Qed.

Lemma sensor_device_loop_ok entry_id configured_names added0 items :
  forall added new_entities,
  ledger_ok sensor_key added0 added new_entities ->
  pass_ok sensor_key added0
    (Sensor.device_loop entry_id configured_names items added new_entities).
Proof.
  induction items as [|[device_name device] rest IH];
    intros added new_entities Hok; [done|].
  simpl. destruct (Sensor.filtered_out device_name configured_names); [by apply IH|].
  set (st := if bool_decide (py_str device_name +:+ "-status" ∈ added)
             then (added, new_entities)
             else ({[py_str device_name +:+ "-status"]} ∪ added,
                   (new_entities ++ [Sensor.UPSStatusSensor entry_id device_name])%list)).
  assert (Hst : ledger_ok sensor_key added0 (fst st) (snd st)).
  { subst st. case_bool_decide as Hin; [done|].
    by apply (ledger_ok_add sensor_key _ _ _
                (Sensor.UPSStatusSensor entry_id device_name)). }
  destruct st as [added1 new1]. simpl in Hst.
  destruct (py_get device "attributes" PNone) as [a|e]; [|by destruct Hst].
  destruct (py_keys (py_or a (PDict []))) as [keys|e]; [|by destruct Hst].
  pose proof (sensor_attribute_loop_ok entry_id device_name added0
                (Sensor.py_sorted keys) added1 new1 Hst) as Hattr.
  destruct (Sensor.attribute_loop _ _ _ _ _) as [added2 new2].
  by apply IH.
Qed.

Lemma sensor_pass_ok entry_id configured_names devices added :
  pass_ok sensor_key added
    (Sensor._maybe_add_entities entry_id configured_names devices added).
Proof. apply sensor_device_loop_ok, ledger_ok_start. Qed.

(** *** The button platform *)

Definition button_key (b : Button.UPSCommandButton) : string :=
  Button.button_entry_id b +:+ "-" +:+ py_str (Button.button_device_name b)
  +:+ "-" +:+ Button.key (Button.button_description b).

Local Opaque Button.BUTTON_DESCRIPTIONS.

Lemma button_description_loop_ok entry_id device_name device_type added0 descs :
  forall added new_entities,
  ledger_ok button_key added0 added new_entities ->
  ledger_ok button_key added0
    (fst (Button.description_loop entry_id device_name device_type descs
            added new_entities))
    (snd (Button.description_loop entry_id device_name device_type descs
            added new_entities)).
Proof.
  induction descs as [|desc rest IH]; intros added new_entities Hok; [done|].
  simpl. destruct (negb _); [by apply IH|].
  case_bool_decide as Hin; [by apply IH|].
  apply IH.
  by apply (ledger_ok_add button_key _ _ _
              (Button.mkCommandButton entry_id device_name desc)).
Qed.

Lemma button_device_loop_ok entry_id configured_names added0 items :
  forall added new_entities,
  ledger_ok button_key added0 added new_entities ->
  pass_ok button_key added0
    (Button.device_loop entry_id configured_names items added new_entities).
Proof.
  induction items as [|[device_name device] rest IH];
    intros added new_entities Hok; [done|].
  simpl. destruct (Sensor.filtered_out device_name configured_names); [by apply IH|].
  destruct (py_get device "type" (PStr "nut")) as [device_type|e]; [|by destruct Hok].
  pose proof (button_description_loop_ok entry_id device_name device_type added0
                Button.BUTTON_DESCRIPTIONS added new_entities Hok) as Hd.
  destruct (Button.description_loop _ _ _ _ _ _) as [added1 new1].
  by apply IH.
Qed.

Lemma button_pass_ok entry_id configured_names devices added :
  pass_ok button_key added
    (Button._maybe_add_entities entry_id configured_names devices added).
Proof. apply button_device_loop_ok, ledger_ok_start. Qed.

Local Transparent Button.BUTTON_DESCRIPTIONS.

(** *** A connection over time *)

Definition conn_ok (c : connection) : Prop :=
  emitted_ok sensor_key (sensors_added c) (sensors_emitted c)
  /\ emitted_ok button_key (buttons_added c) (buttons_emitted c).

(** From [c] to [c']: no ledger lost a key, and what was emitted is
    still the beginning of what is emitted. *)
Definition grows (c c' : connection) : Prop :=
  sensors_added c ⊆ sensors_added c'
  /\ buttons_added c ⊆ buttons_added c'
  /\ sensors_emitted c `prefix_of` sensors_emitted c'
  /\ buttons_emitted c `prefix_of` buttons_emitted c'.

Lemma grows_refl c : grows c c.
Proof. by repeat split. Qed.

Lemma grows_trans c1 c2 c3 : grows c1 c2 -> grows c2 c3 -> grows c1 c3.
Proof.
  intros (A1 & B1 & C1 & D1) (A2 & B2 & C2 & D2).
  repeat split; by etransitivity.
Qed.

Section Entry.

Variable entry_id : string.
Variable configured_names : gset string.

Lemma reconcile_ok c :
  conn_ok c ->
  conn_ok (reconcile entry_id configured_names c)
  /\ grows c (reconcile entry_id configured_names c).
Proof.
  intros [Hs Hb]. unfold reconcile.
  pose proof (sensor_pass_ok entry_id configured_names (devices c) (sensors_added c)) as Ps.
  pose proof (button_pass_ok entry_id configured_names (devices c) (buttons_added c)) as Pb.
  destruct (emitted_ok_pass sensor_key _ _ _ Hs Ps) as [Ss Es].
  destruct (emitted_ok_pass button_key _ _ _ Hb Pb) as [Sb Eb].
  destruct (Sensor._maybe_add_entities _ _ _ _) as [sa sr].
  destruct (Button._maybe_add_entities _ _ _ _) as [ba br].
  simpl in *. split; [by split|].
  repeat split; simpl; try done; by apply prefix_app_r.
Qed.

Lemma step_ok c ev :
  conn_ok c ->
  conn_ok (step entry_id configured_names c ev)
  /\ grows c (step entry_id configured_names c ev).
Proof.
  intros Hc. destruct ev as [data|]; simpl; [|by apply reconcile_ok].
  destruct (_update_state (devices c) data) as [d r].
  set (c' := {| devices := d;
                sensors_added := sensors_added c;
                buttons_added := buttons_added c;
                sensors_emitted := sensors_emitted c;
                buttons_emitted := buttons_emitted c |}).
  assert (Hc' : conn_ok c') by exact Hc.
  assert (Hg : grows c c') by (by repeat split).
  destruct r as [[|updated]|e]; try done.
  destruct (reconcile_ok c' Hc') as [Hok Hgr].
  split; [done|]. by apply (grows_trans c c').
Qed.

Lemma run_ok evs : forall c,
  conn_ok c ->
  conn_ok (run entry_id configured_names c evs)
  /\ grows c (run entry_id configured_names c evs).
Proof.
  induction evs as [|ev evs IH]; intros c Hc; simpl.
  - split; [done|apply grows_refl].
  - destruct (step_ok c ev Hc) as [Hok Hg].
    destruct (IH _ Hok) as [Hok' Hg'].
    split; [done|]. by eapply grows_trans.
Qed.

Lemma setup_ok devices0 : conn_ok (setup entry_id configured_names devices0).
Proof.
  apply reconcile_ok. split; (split; [constructor|]);
    intros e He; by apply elem_of_nil in He.
Qed.

End Entry.

(** C1 (discovery is monotone, each facet at most once).  Take a
    connection as the platforms set it up, and any sequence of payloads
    applied and reconciliation passes run on it, cut at any point.
    Between the cut and the end neither [added] set loses a key (so
    neither shrinks), the entities handed to the entity-add callback up
    to the cut are still the beginning of those handed over at the end,
    and over the whole sequence no status sensor, attribute sensor or
    command button is handed over twice. *)
Theorem discovery_monotone_once
    (entry_id : string) (configured_names : gset string)
    (devices0 : pydict) (evs1 evs2 : list event) :
  let c1 := run entry_id configured_names
                (setup entry_id configured_names devices0) evs1 in
  let c2 := run entry_id configured_names c1 evs2 in
  c2 = run entry_id configured_names
           (setup entry_id configured_names devices0) (evs1 ++ evs2)
  /\ sensors_added c1 ⊆ sensors_added c2
  /\ buttons_added c1 ⊆ buttons_added c2
  /\ (size (sensors_added c1) <= size (sensors_added c2))%nat
  /\ (size (buttons_added c1) <= size (buttons_added c2))%nat
  /\ sensors_emitted c1 `prefix_of` sensors_emitted c2
  /\ buttons_emitted c1 `prefix_of` buttons_emitted c2
  /\ NoDup (sensors_emitted c2)
  /\ NoDup (buttons_emitted c2).
Proof.
  intros c1 c2.
  destruct (run_ok entry_id configured_names evs1 _
              (setup_ok entry_id configured_names devices0)) as [Hok1 _].
  destruct (run_ok entry_id configured_names evs2 c1 Hok1)
    as [[[Hs _] [Hb _]] (Ga & Gb & Gs & Gbe)].
  split; [subst c2 c1; unfold run; by rewrite fold_left_app|].
  repeat split; try done; by apply subseteq_size.
Qed.

(** *** Runs *)

Definition ups1 (attrs : list (string * pyval)) : pyval :=
  PDict [("device_name", PStr "ups1"); ("type", PStr "nut");
         ("attributes", PDict attrs)].

Definition full : loads :=
  Decoded (PList [ups1 [("status", PStr "OL"); ("battery_charge", PInt 100)]]).

Definition partial : loads := Decoded (PList [ups1 [("status", PStr "OL")]]).

(** The same snapshot twice, then one without [battery_charge], then the
    first again: two sensors and seven buttons, each handed over once. *)
Example discovery_run :
  let c := run "e1" ∅ (setup "e1" ∅ [])
               [Apply full; Apply full; Apply partial; Apply full] in
  sensors_emitted c
  = [Sensor.UPSStatusSensor "e1" (PStr "ups1");
     Sensor.UPSAttributeSensor "e1" (PStr "ups1") "battery_charge"]
  /\ map (fun b => Button.key (Button.button_description b)) (buttons_emitted c)
     = ["beeper_enable"; "beeper_disable"; "beeper_mute"; "test_battery_start";
        "test_battery_stop"; "load_off"; "load_on"]
  /\ size (sensors_added c) = 2%nat /\ size (buttons_added c) = 7%nat.
Proof. vm_compute. repeat split; reflexivity. Qed.

(** With an allow-list only the configured device is discovered. *)
Example discovery_allow_list :
  let ups2 := PDict [("device_name", PStr "ups2"); ("type", PStr "apcupsd")] in
  let c := run "e1" {["ups1"]} (setup "e1" {["ups1"]} [])
               [Apply (Decoded (PList [ups1 []; ups2]))] in
  sensors_emitted c = [Sensor.UPSStatusSensor "e1" (PStr "ups1")]
  /\ length (buttons_emitted c) = 7%nat.
Proof. vm_compute. repeat split; reflexivity. Qed.

(** A device whose [attributes] is not a mapping makes the sensor pass
    raise after its status key went into the ledger: the status sensor
    is not handed over then, nor later. *)
Example discovery_after_raise :
  let broken := PDict [("device_name", PStr "ups1"); ("attributes", PList [PInt 1])] in
  let c := run "e1" ∅ (setup "e1" ∅ []) [Apply (Decoded (PList [broken])); Apply full] in
  sensors_emitted c
  = [Sensor.UPSAttributeSensor "e1" (PStr "ups1") "battery_charge"].
Proof. vm_compute. reflexivity. Qed.

End DiscoverySpec.

Module CommandSpec.
Import Py Command.

Example press_busy :
  async_press (Some "http://ups.example:8080") None
              (Responded 409 (PDict [("error", PStr "busy")]))
  = (Some (PDict [("success", PBool false); ("error", PStr "busy")]),
     HomeAssistantError (CommandFailedStatus 409 (PStr "busy"))).
Proof. reflexivity. Qed.

Example press_ok :
  async_press (Some "http://ups.example:8080") None
              (Responded 200 (PDict [("success", PBool true)]))
  = (Some (PDict [("success", PBool true)]), Pressed).
Proof. reflexivity. Qed.

Example press_body_not_object :
  async_press (Some "http://ups.example:8080") None (Responded 500 (PList []))
  = (Some (failed (PStr "'list' object has no attribute 'get'")),
     HomeAssistantError (CommandFailed "'list' object has no attribute 'get'")).
Proof. reflexivity. Qed.

Example press_no_base_url :
  async_press None (Some (PDict [("success", PBool true)])) (PostRaised TimeoutError)
  = (Some (PDict [("success", PBool true)]), HomeAssistantError BaseUrlUnavailable).
Proof. reflexivity. Qed.

(** C3, as the code has it (command result shape).  With a base URL:
    a response of status 400 or more whose JSON object has an [error]
    field leaves the result [{success: false, error: <that field>}], so
    [{success: false, error: "busy"}] for ["busy"], and
    ["unknown error"] stands in when the field is absent; a failure of
    the exchange itself (the request or the decoding of the body
    raised) leaves [{success: false, error: str(err)}].  The text is
    the exception's own; nothing makes it non-empty.  In all these cases
    the call raises [HomeAssistantError]. *)
Theorem async_press_result (base : string) (last_result : option pyval) :
  base <> "" ->
  (forall status items message,
      400 <= status -> items_get items "error" = Some message ->
      async_press (Some base) last_result (Responded status (PDict items))
      = (Some (failed message),
         HomeAssistantError (CommandFailedStatus status message)))
  /\ (forall status items,
        400 <= status -> items_get items "error" = Some (PStr "busy") ->
        fst (async_press (Some base) last_result (Responded status (PDict items)))
        = Some (PDict [("success", PBool false); ("error", PStr "busy")]))
  /\ (forall status items,
        400 <= status -> items_get items "error" = None ->
        fst (async_press (Some base) last_result (Responded status (PDict items)))
        = Some (PDict [("success", PBool false); ("error", PStr "unknown error")]))
  /\ (forall err,
        async_press (Some base) last_result (PostRaised err)
        = (Some (PDict [("success", PBool false); ("error", PStr (exc_str err))]),
           HomeAssistantError (CommandFailed (exc_str err))))
  /\ (forall status err,
        async_press (Some base) last_result (JsonRaised status err)
        = (Some (PDict [("success", PBool false); ("error", PStr (exc_str err))]),
           HomeAssistantError (CommandFailed (exc_str err)))).
Proof.
  intros Hbase. unfold async_press.
  destruct (String.eqb_spec base "") as [->|_]; [done|].
  assert (Hstatus : forall status items message,
             400 <= status -> items_get items "error" = Some message ->
             (if 400 <=? status
              then match py_get (PDict items) "error" (PStr "unknown error") with
                   | Ret message =>
                       (Some (failed message),
                        HomeAssistantError (CommandFailedStatus status message))
                   | Raise _ => on_exception (no_get (PDict items))
                   end
              else match py_get (PDict items) "success" (PBool false) with
                   | Ret _ => (Some (PDict items), Pressed)
                   | Raise _ => on_exception (no_get (PDict items))
                   end)
             = (Some (failed message),
                HomeAssistantError (CommandFailedStatus status message))).
  { intros status items message Hs Hget.
    apply Z.leb_le in Hs. rewrite Hs. simpl. unfold items_get_or. by rewrite Hget. }
  split; [exact Hstatus|]. split; [|split; [|split]].
  - intros status items Hs Hget. by rewrite (Hstatus status items (PStr "busy")).
  - intros status items Hs Hget. apply Z.leb_le in Hs. rewrite Hs. simpl.
    unfold items_get_or. by rewrite Hget.
  - done.
  - done.
Qed.

Lemma async_press_result_witness :
  let base := "http://ups.example:8080" in
  (forall status items message,
      400 <= status -> items_get items "error" = Some message ->
      async_press (Some base) None (Responded status (PDict items))
      = (Some (failed message),
         HomeAssistantError (CommandFailedStatus status message)))
  /\ (forall status items,
        400 <= status -> items_get items "error" = Some (PStr "busy") ->
        fst (async_press (Some base) None (Responded status (PDict items)))
        = Some (PDict [("success", PBool false); ("error", PStr "busy")]))
  /\ (forall status items,
        400 <= status -> items_get items "error" = None ->
        fst (async_press (Some base) None (Responded status (PDict items)))
        = Some (PDict [("success", PBool false); ("error", PStr "unknown error")]))
  /\ (forall err,
        async_press (Some base) None (PostRaised err)
        = (Some (PDict [("success", PBool false); ("error", PStr (exc_str err))]),
           HomeAssistantError (CommandFailed (exc_str err))))
  /\ (forall status err,
        async_press (Some base) None (JsonRaised status err)
        = (Some (PDict [("success", PBool false); ("error", PStr (exc_str err))]),
           HomeAssistantError (CommandFailed (exc_str err)))).
Proof.
  intros base.
  apply (async_press_result base None).
  discriminate.
Defined.

(** C3, as stated, fails for the timeout: the exception
    [async_timeout] raises carries no text, so the error is the empty
    string. *)
Lemma async_press_timeout_empty_error :
  async_press (Some "http://ups.example:8080") None (PostRaised TimeoutError)
  = (Some (PDict [("success", PBool false); ("error", PStr "")]),
     HomeAssistantError (CommandFailed "")).
Proof. reflexivity. Qed.

End CommandSpec.

(** * Further properties of the code *)

Module HelpersExtra.
Import Py Helpers HelpersSpec ConfigFlow.

(** *** [normalize_attribute_value] *)

Lemma py_float_no_overflow (value : pyval) :
  (forall z, value <> PInt z) -> py_float value <> Raise OverflowError.
Proof.
  intros Hz. destruct value as [| [|] | z | f | s | xs | items]; simpl;
    try discriminate.
  - by destruct (Hz z).
  - by destruct (float_of_str s).
Qed.

(** X1.  [normalize_attribute_value] returns for every attribute and
    every value that is not an [int] (and for every [int] that [float]
    takes).  When [float] refuses the value with [ValueError] or
    [TypeError] the value itself comes back, and so it does for every
    attribute outside the converting ones. *)
Theorem normalize_returns_value (attribute : string) (value : pyval) :
  (forall z, value <> PInt z) \/ py_float value <> Raise OverflowError ->
  returns (normalize_attribute_value attribute value) = true
  /\ (py_float value = Raise ValueError \/ py_float value = Raise TypeError ->
      normalize_attribute_value attribute value = Ret value)
  /\ (converting attribute = false ->
      normalize_attribute_value attribute value = Ret value).
Proof.
  intros H.
  assert (Hno : py_float value <> Raise OverflowError).
  { destruct H as [H|H]; [by apply py_float_no_overflow|done]. }
  split; [by apply normalize_returns|].
  split; [apply normalize_unconvertible|apply normalize_other].
Qed.

Lemma normalize_returns_value_witness :
  returns (normalize_attribute_value "battery_charge" (PStr "n/a")) = true
  /\ (py_float (PStr "n/a") = Raise ValueError \/ py_float (PStr "n/a") = Raise TypeError ->
      normalize_attribute_value "battery_charge" (PStr "n/a") = Ret (PStr "n/a"))
  /\ (converting "battery_charge" = false ->
      normalize_attribute_value "battery_charge" (PStr "n/a") = Ret (PStr "n/a")).
Proof.
  apply (normalize_returns_value "battery_charge" (PStr "n/a")).
  left. discriminate.
Defined.

Lemma normalize_float (attribute : string) (f : spec_float) :
  String.eqb attribute "time_left" = false ->
  normalize_attribute_value attribute (PFloat f) = Ret (PFloat f).
Proof.
  intros Ht. unfold normalize_attribute_value. rewrite Ht.
  by repeat (match goal with |- context [if ?b then _ else _] => destruct b end).
Qed.

(** X2.  Except for [time_left], normalizing is idempotent: the value
    [normalize_attribute_value] returned comes back unchanged when it is
    normalized again under the same attribute.  ([time_left] is divided
    by 60 each time.) *)
Theorem normalize_twice (attribute : string) (value r : pyval) :
  attribute <> "time_left" ->
  normalize_attribute_value attribute value = Ret r ->
  normalize_attribute_value attribute r = Ret r.
Proof.
  intros Hattr%String.eqb_neq Hrun.
  assert (Hcases : r = value \/ exists f, r = PFloat f).
  { revert Hrun. unfold normalize_attribute_value. rewrite Hattr.
    destruct value; try (intros [= <-]; by left);
      repeat (match goal with |- context [if ?b then _ else _] => destruct b end);
      try (intros [= <-]; by left);
      match goal with
      | |- context [py_float ?v] => destruct (py_float v) as [f|[]]; simpl
      end; intros [= <-]; eauto.
  }
  destruct Hcases as [->|[f ->]]; [done|by apply normalize_float].
Qed.

Lemma normalize_twice_witness :
  normalize_attribute_value "battery_charge"
    (PFloat (S754_finite false 7036874417766400 (-46)))
  = Ret (PFloat (S754_finite false 7036874417766400 (-46))).
Proof.
  apply (normalize_twice "battery_charge" (PInt 100)).
  - discriminate.
  - vm_compute. reflexivity.
Defined.

(** *** [get_ups_status] *)

Definition is_dict (v : pyval) : bool :=
  match v with PDict _ => true | _ => false end.

(** The value [device.get("attributes")] gives, for a record. *)
Definition attributes_of (device : pyval) : pyval :=
  match device with
  | PDict items => items_get_or items "attributes" PNone
  | _ => PNone
  end.

Lemma py_get_dict (v : pyval) (k : string) (d : pyval) :
  is_dict v = true -> exists r, py_get v k d = Ret r.
Proof. destruct v; try done. intros _. by eexists. Qed.

Lemma py_get_not_dict (v : pyval) (k : string) (d : pyval) :
  is_dict v = false -> py_get v k d = Raise AttributeError.
Proof. by destruct v. Qed.

(** X3.  [get_ups_status] gives one of the three texts ["offline"],
    ["On Battery"], ["Online"] or raises [AttributeError], and it
    raises exactly when the device is a truthy value that is not a
    record, or a record whose [attributes] is a truthy value that is not
    a mapping. *)
Theorem get_ups_status_outcomes (device : pyval) :
  (forall s, get_ups_status device = Ret s ->
             s = "offline" \/ s = "On Battery" \/ s = "Online")
  /\ (forall e, get_ups_status device = Raise e -> e = AttributeError)
  /\ (returns (get_ups_status device) = false <->
      truthy device = true
      /\ (is_dict device = false
          \/ (truthy (attributes_of device) = true
              /\ is_dict (attributes_of device) = false))).
Proof.
  unfold get_ups_status.
  destruct (truthy device) eqn:Ht; simpl.
  2: { split; [intros s [= <-]; tauto|]. split; [done|].
       split; [done|]. by intros [? _]. }
  destruct device as [| b | z | f | s | xs | items];
    try (split; [done|]; split; [by intros e [= <-]|]; split; [tauto|done]).
  simpl. unfold attributes_of.
  set (a := items_get_or items "attributes" PNone).
  unfold py_or. destruct (truthy a) eqn:Hta.
  - destruct a as [| b | z | f | s | xs | attrs];
      try (split; [done|]; split; [by intros e [= <-]|];
           split; [intros _; split; [done|tauto]|done]).
    simpl. split.
    + intros s [= <-]. destruct (_ || _); tauto.
    + split; [done|]. split; [done|]. intros [_ [H|[_ H]]]; done.
  - simpl. split.
    + intros s [= <-]. tauto.
    + split; [done|]. split; [done|]. intros [_ [H|[H _]]]; done.
Qed.

(** *** [build_http_url] *)

Lemma urlunparse_path (sch nl path : string) :
  sch = "http" \/ sch = "https" ->
  prefix_of "/" path = true -> prefix_of "//" path = false ->
  urlunparse sch nl path = urlunparse sch nl "" +:+ path.
Proof.
  intros Hs H1 H2. unfold urlunparse.
  assert (Hne : String.eqb path "" = false) by (by destruct path).
  rewrite H1, H2, Hne.
  destruct Hs as [-> | ->]; simpl; rewrite !orb_true_r;
    rewrite !append_cons, !append_nil_l, ?append_cons, ?append_nil_l;
    repeat f_equal; by rewrite append_nil_r.
Qed.

(** X4.  The base address and a path compose: when
    [build_http_url(ws_url, "")] gives [base] (what the entry keeps as
    [base_http]), then for every path that starts with one slash
    [build_http_url(ws_url, path)] gives [base] followed by the path.
    So the URL the button forms as [f"{base_http}/api/command"] is the
    one the helper builds for [/api/command]. *)
Theorem build_http_url_base_then_path (ws_url base path : string) :
  build_http_url ws_url "" = Ret (Some base) ->
  prefix_of "/" path = true -> prefix_of "//" path = false ->
  build_http_url ws_url path = Ret (Some (base +:+ path)).
Proof.
  unfold build_http_url. intros Hbase H1 H2.
  destruct (String.eqb ws_url ""); [done|].
  destruct (urlparse ws_url) as [parsed|e]; [|done]. simpl in *.
  destruct (String.eqb (scheme parsed) "ws" || String.eqb (scheme parsed) "wss").
  - injection Hbase as <-. do 2 f_equal.
    apply urlunparse_path; [|done..].
    destruct (String.eqb (scheme parsed) "ws"); tauto.
  - destruct (String.eqb (scheme parsed) "http" || String.eqb (scheme parsed) "https")
      eqn:Hs; [|done].
    simpl in *. injection Hbase as <-. do 2 f_equal.
    apply urlunparse_path; [|done..].
    apply orb_true_iff in Hs as [Hs|Hs]; apply String.eqb_eq in Hs; tauto.
Qed.

Lemma build_http_url_base_then_path_witness :
  build_http_url "ws://homeassistant.local:8080/ws" "/api/command"
  = Ret (Some ("http://homeassistant.local:8080" +:+ "/api/command")).
Proof.
  apply (build_http_url_base_then_path
           "ws://homeassistant.local:8080/ws" "http://homeassistant.local:8080"
           "/api/command"); reflexivity.
Defined.

Lemma urlunparse_is_http (sch nl path : string) :
  sch = "http" \/ sch = "https" ->
  prefix_of "http://" (urlunparse sch nl path) = true
  \/ prefix_of "https://" (urlunparse sch nl path) = true.
Proof.
  intros Hs. unfold urlunparse.
  destruct (prefix_of "//" path) eqn:Hp;
    destruct (negb (String.eqb nl ""));
    destruct Hs as [-> | ->]; [left|right|left|right|left|right|left|right];
    cbn [String.eqb Ascii.eqb Bool.eqb orb andb negb];
    rewrite ?append_cons, ?append_nil_l;
    try reflexivity;
    cbn [prefix_of Ascii.eqb Bool.eqb andb]; exact Hp.
Qed.

(** X5.  Whatever address and path go in, an address that comes out of
    [build_http_url] starts with [http://] or [https://]: a websocket
    scheme never comes out. *)
Theorem build_http_url_is_http (server_url path u : string) :
  build_http_url server_url path = Ret (Some u) ->
  prefix_of "http://" u = true \/ prefix_of "https://" u = true.
Proof.
  unfold build_http_url.
  destruct (String.eqb server_url ""); [done|].
  destruct (urlparse server_url) as [parsed|e]; [|done]. simpl.
  destruct (String.eqb (scheme parsed) "ws" || String.eqb (scheme parsed) "wss").
  - intros [= <-]. apply urlunparse_is_http.
    destruct (String.eqb (scheme parsed) "ws"); tauto.
  - destruct (String.eqb (scheme parsed) "http" || String.eqb (scheme parsed) "https")
      eqn:Hs; [|done].
    simpl. intros [= <-]. apply urlunparse_is_http.
    apply orb_true_iff in Hs as [Hs|Hs]; apply String.eqb_eq in Hs; tauto.
Qed.

Lemma build_http_url_is_http_witness :
  prefix_of "http://" "https://ups.example:8443/health" = true
  \/ prefix_of "https://" "https://ups.example:8443/health" = true.
Proof.
  apply (build_http_url_is_http "wss://ups.example:8443/ws" "/health").
  reflexivity.
Defined.

Lemma urlunparse_nonempty (sch nl path : string) :
  sch <> "" -> urlunparse sch nl path <> "".
Proof.
  intros Hs. unfold urlunparse. rewrite (eqb_neq_false _ _ Hs). simpl.
  destruct sch; [done|]. by rewrite append_cons.
Qed.

Lemma build_http_url_nonempty (server_url path u : string) :
  build_http_url server_url path = Ret (Some u) -> u <> "".
Proof.
  unfold build_http_url.
  destruct (String.eqb server_url ""); [done|].
  destruct (urlparse server_url) as [parsed|e]; [|done]. simpl.
  destruct (String.eqb (scheme parsed) "ws" || String.eqb (scheme parsed) "wss").
  - intros [= <-]. apply urlunparse_nonempty.
    by destruct (String.eqb (scheme parsed) "ws").
  - destruct (String.eqb (scheme parsed) "http" || String.eqb (scheme parsed) "https")
      eqn:Hs; [|done].
    simpl. intros [= <-]. apply urlunparse_nonempty.
    intros Hempty. rewrite Hempty in Hs. done.
Qed.

(** *** The server step of the config flow *)

(** X6.  An address the config flow accepts (no [invalid_url] error)
    is one [build_http_url] converts, for every path; and
    [_async_validate_server] then reports exactly whether the health
    request answered with status 200. *)
Theorem accepted_url_converts (server_url : string) :
  invalid_url server_url = Ret false ->
  (forall path, exists u, build_http_url server_url path = Ret (Some u))
  /\ (forall h, _async_validate_server server_url h
                = Ret (match h with
                       | HealthStatus status => status =? 200
                       | HealthFailed => false
                       end)).
Proof.
  unfold invalid_url. intros Hacc.
  assert (Hne : String.eqb server_url "" = false).
  { destruct (String.eqb_spec server_url "") as [->|]; [|done]. discriminate Hacc. }
  destruct (urlparse server_url) as [parsed|e] eqn:Hparse; [|done].
  simpl in Hacc. injection Hacc as Hacc.
  apply orb_false_iff in Hacc as [Hsch _]. apply negb_false_iff in Hsch.
  assert (Hconv : forall path, exists u,
             build_http_url server_url path = Ret (Some u) /\ u <> "").
  { intros path.
    destruct (build_http_url server_url path) as [[u|]|e] eqn:Hb.
    - exists u. split; [done|]. by apply (build_http_url_nonempty server_url path).
    - exfalso. revert Hb. unfold build_http_url. rewrite Hne, Hparse. simpl.
      simpl in Hsch.
      destruct (String.eqb (scheme parsed) "ws"); [done|].
      destruct (String.eqb (scheme parsed) "wss"); [done|].
      destruct (String.eqb (scheme parsed) "http"); [done|].
      destruct (String.eqb (scheme parsed) "https"); done.
    - exfalso. revert Hb. unfold build_http_url. rewrite Hne, Hparse. simpl.
      by repeat (match goal with |- context [if ?b then _ else _] => destruct b end). }
  split.
  - intros path. destruct (Hconv path) as (u & Hu & _). by exists u.
  - intros h. unfold _async_validate_server.
    destruct (Hconv "/health") as (u & -> & Hu). simpl.
    rewrite (eqb_neq_false _ _ Hu). by destruct h.
Qed.

Lemma accepted_url_converts_witness :
  (forall path, exists u,
      build_http_url "ws://homeassistant.local:8080/ws" path = Ret (Some u))
  /\ (forall h, _async_validate_server "ws://homeassistant.local:8080/ws" h
                = Ret (match h with
                       | HealthStatus status => status =? 200
                       | HealthFailed => false
                       end)).
Proof.
  apply (accepted_url_converts "ws://homeassistant.local:8080/ws").
  reflexivity.
Defined.

End HelpersExtra.

Module StoreExtra.
Import Py Helpers Store StoreSpec HelpersExtra.

(** X7.  Read your writes.  After a call of [_update_state] on a list
    that returns, every key reads the last entry of the list that names
    it (a truthy name equal to the key as Python compares keys), and a
    key no entry names reads what it read before. *)
Theorem update_state_reads
    (devices : pydict) (entries : list pyval) (out : update_end) (h : hkey) :
  snd (_update_state devices (Decoded (PList entries))) = Ret out ->
  dict_get (fst (_update_state devices (Decoded (PList entries)))) h
  = reads_after entries h (dict_get devices h).
Proof.
  rewrite update_state_snd, update_state_fst. intros Hret.
  destruct (snd (update_loop devices [] entries)) as [names|e] eqn:Hloop; [|done].
  apply update_loop_reads. by eapply update_loop_returns.
Qed.

Lemma update_state_reads_witness :
  let old := PDict [("device_name", PStr "ups1"); ("attributes", PDict [("status", PStr "OL")])] in
  let new := PDict [("device_name", PStr "ups1"); ("attributes", PDict [("status", PStr "OB")])] in
  dict_get (fst (_update_state [(PStr "ups1", old)] (Decoded (PList [old; new]))))
           (KStr "ups1")
  = reads_after [old; new] (KStr "ups1") (dict_get [(PStr "ups1", old)] (KStr "ups1")).
Proof.
  intros old new.
  apply (update_state_reads [(PStr "ups1", old)] [old; new]
           (Dispatched [PStr "ups1"; PStr "ups1"]) (KStr "ups1")).
  reflexivity.
Defined.

(** *** What the store holds *)

(** Every stored value is a JSON object filed under its own name: the
    key is truthy and hashable, the value's [device_name] is equal to
    it as a key, and no two entries have equal keys. *)
Definition entry_wf (kv : pyval * pyval) : Prop :=
  truthy (fst kv) = true
  /\ exists name h, py_get (snd kv) "device_name" PNone = Ret name
                    /\ truthy name = true
                    /\ hash_key name = Some h /\ hash_key (fst kv) = Some h.

Definition store_wf (d : pydict) : Prop :=
  Forall entry_wf d /\ NoDup (map hash_key (dict_keys d)).

Lemma dict_set_keys d : forall h k v x,
  hash_key k = Some h ->
  x ∈ map hash_key (dict_keys (dict_set d h k v)) ->
  x ∈ map hash_key (dict_keys d) \/ x = Some h.
Proof.
  induction d as [|[k0 v0] rest IH]; intros h k v x Hk; simpl.
  - intros Hx%list_elem_of_singleton. right. congruence.
  - destruct (decide (hash_key k0 = Some h)); simpl; [by left|].
    intros [->|Hx]%elem_of_cons; [left; by left|].
    destruct (IH h k v x Hk Hx) as [?|?]; [left; by right|by right].
Qed.

Lemma dict_set_wf d : forall h k v,
  store_wf d -> entry_wf (k, v) -> hash_key k = Some h ->
  store_wf (dict_set d h k v).
Proof.
  induction d as [|[k0 v0] rest IH]; intros h k v [Hall Hnd] Hkv Hk; simpl.
  - split; [by constructor|]. simpl. apply NoDup_singleton.
  - inversion Hall as [|? ? H0 Hrest]; subst.
    simpl in Hnd. apply NoDup_cons in Hnd as [Hnotin Hnd'].
    destruct (decide (hash_key k0 = Some h)) as [Heq|Hne].
    + split; [|simpl; by apply NoDup_cons].
      constructor; [|done].
      destruct H0 as [Ht0 _]. destruct Hkv as [_ (name & h' & Hg & Ht & Hn & Hk')].
      simpl in *. split; [done|]. exists name, h. repeat split; try done.
      congruence.
    + destruct (IH h k v (conj Hrest Hnd') Hkv Hk) as [Hall' Hnd''].
      split; [by constructor|]. simpl. apply NoDup_cons. split; [|done].
      intros Hin.
      destruct (dict_set_keys rest h k v _ Hk Hin) as [?|Heq]; [done|].
      by destruct Hne.
Qed.

Lemma update_loop_wf entries : forall d u,
  store_wf d -> store_wf (fst (update_loop d u entries)).
Proof.
  induction entries as [|device rest IH]; intros d u Hd; simpl; [done|].
  destruct (py_get device "device_name" PNone) as [name|e] eqn:Hget; [|done].
  destruct (truthy name) eqn:Ht; simpl; [|by apply IH].
  destruct (hash_key name) as [h|] eqn:Hh; [|done].
  apply IH. apply dict_set_wf; [done| |done].
  split; [done|]. by exists name, h.
Qed.

(** X8.  The store keeps its shape.  If every stored value is a JSON
    object filed under its own truthy name, with no two equal keys,
    then so it is after [_update_state], whatever the payload and also
    when the call raises part-way; the empty mapping has the shape. *)
Theorem update_state_keeps_shape (devices : pydict) (data : loads) :
  store_wf devices ->
  store_wf [] /\ store_wf (fst (_update_state devices data)).
Proof.
  intros Hwf. split; [split; constructor|].
  destruct data as [v| |f]; [|done|done].
  destruct v as [| | | | |xs|]; try done.
  rewrite update_state_fst. by apply update_loop_wf.
Qed.

Lemma update_state_keeps_shape_witness :
  let ups1 := PDict [("device_name", PStr "ups1")] in
  store_wf []
  /\ store_wf (fst (_update_state [(PStr "ups1", ups1)]
                      (Decoded (PList [PDict [("device_name", PStr "ups2")]; PInt 1])))).
Proof.
  intros ups1.
  apply (update_state_keeps_shape [(PStr "ups1", ups1)]).
  split.
  - constructor; [|constructor]. split; [reflexivity|].
    exists (PStr "ups1"), (KStr "ups1"). repeat split.
  - simpl. apply NoDup_singleton.
Defined.

Lemma dict_get_in d : forall h v,
  dict_get d h = Some v -> exists k, (k, v) ∈ d /\ hash_key k = Some h.
Proof.
  induction d as [|[k0 v0] rest IH]; intros h v; simpl; [done|].
  destruct (decide (hash_key k0 = Some h)) as [Hk|Hk].
  - intros [= <-]. exists k0. split; [left|done].
  - intros H. destruct (IH h v H) as (k & Hin & Hk'). exists k. split; [by right|done].
Qed.

(** X9.  A device that is in a well-shaped store is never shown as
    absent: what the mapping returns for a key is a non-empty record,
    so [get_ups_status] does not answer ["offline"] for it, and it
    raises only if the record's [attributes] is a truthy value that is
    not a mapping. *)
Theorem stored_device_not_offline (devices : pydict) (h : hkey) (device : pyval) :
  store_wf devices ->
  dict_get devices h = Some device ->
  truthy device = true /\ is_dict device = true
  /\ get_ups_status device <> Ret "offline"
  /\ (returns (get_ups_status device) = false ->
      truthy (attributes_of device) = true
      /\ is_dict (attributes_of device) = false).
Proof.
  intros [Hall _] Hget.
  destruct (dict_get_in devices h device Hget) as (k & Hin & Hk).
  rewrite Forall_forall in Hall.
  destruct (Hall _ Hin) as [_ (name & h' & Hname & Ht & _)]. simpl in Hname.
  destruct device as [| | | | | |items]; try done.
  assert (Htd : truthy (PDict items) = true).
  { destruct items; [|done]. simpl in Hname. injection Hname as <-. done. }
  split; [done|]. split; [done|]. split.
  - unfold get_ups_status. rewrite Htd. simpl.
    destruct (py_or _ _); simpl; try discriminate.
    by destruct (_ || _).
  - unfold get_ups_status, attributes_of. rewrite Htd. simpl.
    unfold py_or. destruct (truthy (items_get_or items "attributes" PNone)) eqn:Hta.
    + destruct (items_get_or items "attributes" PNone); simpl; try done.
    + simpl. done.
Qed.

Lemma stored_device_not_offline_witness :
  let ups1 := PDict [("device_name", PStr "ups1"); ("attributes", PDict [("status", PStr "OB")])] in
  truthy ups1 = true /\ is_dict ups1 = true
  /\ get_ups_status ups1 <> Ret "offline"
  /\ (returns (get_ups_status ups1) = false ->
      truthy (attributes_of ups1) = true /\ is_dict (attributes_of ups1) = false).
Proof.
  intros ups1.
  apply (stored_device_not_offline [(PStr "ups1", ups1)] (KStr "ups1") ups1).
  - split.
    + constructor; [|constructor]. split; [reflexivity|].
      exists (PStr "ups1"), (KStr "ups1"). repeat split.
    + simpl. apply NoDup_singleton.
  - reflexivity.
Defined.

End StoreExtra.

Module StreamExtra.
Import Py Store StoreSpec StoreExtra Stream StreamSpec.

(** *** What a call never does: lose a device *)

Lemma apply_writes_is_Some ws : forall d h,
  Forall write_ok ws ->
  is_Some (dict_get d h) -> is_Some (dict_get (apply_writes ws d) h).
Proof.
  induction ws as [|[[h0 k] v] ws IH]; intros d h Hok Hsome; [done|].
  inversion Hok as [|? ? Hw Hws]; subst. simpl in Hw.
  change (apply_writes ((h0, k, v) :: ws) d)
    with (apply_writes ws (dict_set d h0 k v)).
  apply IH; [done|]. rewrite dict_get_set by done.
  destruct (decide (h0 = h)); [by eexists|done].
Qed.

(** From one mapping to a later one: the keys held are still there, in
    place, and every key that read a value still reads one. *)
Definition keeps (d d' : pydict) : Prop :=
  dict_keys d `prefix_of` dict_keys d'
  /\ forall h, is_Some (dict_get d h) -> is_Some (dict_get d' h).

Lemma keeps_refl d : keeps d d.
Proof. by split. Qed.

Lemma keeps_trans d1 d2 d3 : keeps d1 d2 -> keeps d2 d3 -> keeps d1 d3.
Proof.
  intros [P1 S1] [P2 S2]. split; [by etransitivity|]. intros h H. by apply S2, S1.
Qed.

Lemma update_state_keeps d data : keeps d (fst (_update_state d data)).
Proof.
  destruct data as [v| |f]; [|apply keeps_refl|apply keeps_refl].
  destruct v as [| | | | |xs|]; try apply keeps_refl.
  rewrite update_state_devices. split.
  - apply apply_writes_keys.
  - intros h. apply apply_writes_is_Some, writes_ok.
Qed.

Lemma update_state_wf d data : store_wf d -> store_wf (fst (_update_state d data)).
Proof.
  intros Hwf. destruct data as [v| |f]; [|done|done].
  destruct v as [| | | | |xs|]; try done.
  rewrite update_state_fst. by apply update_loop_wf.
Qed.

Definition devices_of (run : pydict * list event * status) : pydict := fst (fst run).

(** The mapping that results from handing the [Update] events of a
    trace to [_update_state], in order. *)
Definition replay (d : pydict) (tr : list event) : pydict :=
  fold_left (fun d ev => match ev with
                         | Update m => fst (_update_state d m)
                         | _ => d
                         end) tr d.

Lemma receive_replay msgs : forall d,
  fst (fst (receive d msgs)) = replay d (snd (fst (receive d msgs))).
Proof.
  induction msgs as [|m rest IH]; intros d; simpl; [done|].
  destruct (_update_state d m) as [d' [u|e]] eqn:Hm.
  - specialize (IH d'). destruct (receive d' rest) as [[d'' tr] ok]. simpl in *.
    unfold replay. simpl. by rewrite Hm.
  - unfold replay. simpl. by rewrite Hm.
Qed.

Lemma replay_app d a b : replay d (a ++ b) = replay (replay d a) b.
Proof. unfold replay. by rewrite fold_left_app. Qed.

Lemma replay_keeps tr : forall d, keeps d (replay d tr).
Proof.
  induction tr as [|ev tr IH]; intros d; [apply keeps_refl|].
  unfold replay. simpl. fold (replay (match ev with
                                      | Update m => fst (_update_state d m)
                                      | _ => d end) tr).
  eapply keeps_trans; [|apply IH].
  destruct ev; try apply keeps_refl. apply update_state_keeps.
Qed.

Lemma replay_wf tr : forall d, store_wf d -> store_wf (replay d tr).
Proof.
  induction tr as [|ev tr IH]; intros d Hd; [done|].
  unfold replay. simpl. apply IH. destruct ev; try done. by apply update_state_wf.
Qed.

Lemma listen_ws_replay script : forall devices stop,
  devices_of (_listen_ws devices stop script)
  = replay devices (trace_of (_listen_ws devices stop script)).
Proof.
  induction script as [|r rest IH]; intros devices stop.
  - by destruct stop.
  - destruct stop; [done|].
    unfold _listen_ws; fold _listen_ws.
    set (rc := match how r with
               | ConnectFailed => (devices, [], true)
               | _ => receive devices (messages r)
               end).
    assert (Hrc : fst (fst rc) = replay devices (snd (fst rc))).
    { subst rc. destruct (how r); try apply receive_replay; done. }
    destruct rc as [[d' received] ok]. simpl in Hrc.
    assert (Hround : forall extra,
               replay devices (Connect :: received ++ extra) = replay d' extra).
    { intros extra.
      change (Connect :: received ++ extra)%list
        with ([Connect] ++ (received ++ extra))%list.
      rewrite !replay_app. by rewrite Hrc. }
    destruct (stop_set r).
    + rewrite listen_ws_stopped.
      destruct (if ok then how r else OtherError);
        unfold devices_of, trace_of; cbn [fst snd]; rewrite ?app_nil_r;
        by rewrite (Hround [Stop]).
    + pose proof (IH d' false) as IHf.
      destruct (_listen_ws d' false rest) as [[d'' tr] st] eqn:Hrest.
      unfold devices_of, trace_of in *. cbn [fst snd] in IHf.
      destruct (if ok then how r else OtherError), (then_sleep r) as [[|]|];
        rewrite ?listen_ws_stopped; rewrite ?Hrest; cbn [fst snd];
        rewrite ?app_nil_r; rewrite <- ?app_assoc; cbn [app];
        first [ by rewrite (Hround [Sleep RECONNECT_DELAY])
              | by rewrite (Hround [Sleep RECONNECT_DELAY; Stop])
              | by (rewrite (Hround (Sleep RECONNECT_DELAY :: tr)); exact IHf)
              | by (rewrite <- (app_nil_r received); rewrite (Hround [])) ].
Qed.

(** *** The messages that reach [_update_state] *)

(** Whether [_update_state] returns on a message. *)
Definition accepted (m : loads) : bool := returns (snd (_update_state [] m)).

(** The messages of a connection that are handed to [_update_state]:
    all of them up to and including the first on which it raises, which
    ends the connection. *)
Fixpoint handed_on (msgs : list loads) : list loads :=
  match msgs with
  | [] => []
  | m :: rest => if accepted m then m :: handed_on rest else [m]
  end.

(** The messages of a round: none when the connection was not made. *)
Definition of_round (r : round) : list loads :=
  match how r with
  | ConnectFailed => []
  | _ => handed_on (messages r)
  end.

(** Whether the loop goes round again after [r]: not when the task was
    cancelled, on the connection with every message taken or in the
    sleep, and not once the stop event is set. *)
Definition goes_on (r : round) : bool :=
  negb (match how r with
        | Cancel => forallb accepted (messages r)
        | _ => false
        end)
  && negb (stop_set r)
  && match then_sleep r with SleepDone false => true | _ => false end.

(** The messages of a script that reach [_update_state], in order. *)
Fixpoint delivered (script : list round) : list loads :=
  match script with
  | [] => []
  | r :: rest => (of_round r ++ (if goes_on r then delivered rest else []))%list
  end.

(** The messages a trace records as handed to [_update_state]. *)
Fixpoint updates_of (tr : list event) : list loads :=
  match tr with
  | [] => []
  | Update m :: rest => m :: updates_of rest
  | _ :: rest => updates_of rest
  end.

(** The mapping after [_update_state] was called on each message. *)
Definition apply_all (d : pydict) (msgs : list loads) : pydict :=
  fold_left (fun d m => fst (_update_state d m)) msgs d.

Lemma update_state_outcome (d d' : pydict) (m : loads) :
  snd (_update_state d m) = snd (_update_state d' m).
Proof.
  destruct m as [v| |f]; [|done|done].
  destruct v as [| | | | |xs|]; try done.
  rewrite !update_state_snd. by rewrite (update_loop_outcome xs d d' []).
Qed.

Lemma updates_of_app (a b : list event) :
  updates_of (a ++ b) = (updates_of a ++ updates_of b)%list.
Proof.
  induction a as [|ev a IH]; [done|]. simpl. destruct ev; simpl; by rewrite ?IH.
Qed.

Lemma updates_of_map (msgs : list loads) : updates_of (map Update msgs) = msgs.
Proof. induction msgs as [|m rest IH]; [done|]. simpl. by rewrite IH. Qed.

Lemma apply_all_app (d : pydict) (a b : list loads) :
  apply_all d (a ++ b) = apply_all (apply_all d a) b.
Proof. unfold apply_all. by rewrite fold_left_app. Qed.

Lemma receive_handed_on (msgs : list loads) : forall d,
  receive d msgs
  = (apply_all d (handed_on msgs), map Update (handed_on msgs),
     forallb accepted msgs).
Proof.
  induction msgs as [|m rest IH]; intros d; [done|].
  cbn [receive handed_on forallb].
  assert (Hacc : accepted m = returns (snd (_update_state d m))).
  { unfold accepted. by rewrite (update_state_outcome [] d m). }
  destruct (_update_state d m) as [d' [u|e]] eqn:Hm; simpl in Hacc; rewrite Hacc.
  - rewrite IH. cbn [andb map]. unfold apply_all at 2. cbn [fold_left].
    by rewrite Hm.
  - cbn [andb map]. unfold apply_all. cbn [fold_left]. by rewrite Hm.
Qed.

Lemma handed_on_all (msgs : list loads) :
  forallb accepted msgs = true -> handed_on msgs = msgs.
Proof.
  induction msgs as [|m rest IH]; [done|]. simpl.
  intros [Hm Hrest]%andb_true_iff. rewrite Hm. by rewrite IH.
Qed.

Lemma listen_ws_delivered (script : list round) : forall devices,
  updates_of (trace_of (_listen_ws devices false script)) = delivered script
  /\ devices_of (_listen_ws devices false script)
     = apply_all devices (delivered script).
Proof.
  induction script as [|r rest IH]; intros devices; [done|].
  unfold _listen_ws; fold _listen_ws. cbn [delivered].
  set (ok := match how r with
             | ConnectFailed => true
             | _ => forallb accepted (messages r)
             end).
  assert (Hrc : match how r with
                | ConnectFailed => (devices, [], true)
                | _ => receive devices (messages r)
                end
                = (apply_all devices (of_round r), map Update (of_round r), ok)).
  { unfold of_round, ok. destruct (how r); try apply receive_handed_on; done. }
  rewrite Hrc. clear Hrc.
  assert (Hgo : goes_on r
                = negb (match (if ok then how r else OtherError) with
                        | Cancel => true
                        | _ => false
                        end)
                  && negb (stop_set r)
                  && match then_sleep r with SleepDone false => true | _ => false end).
  { unfold goes_on, ok. destruct (how r); try done.
    all: by destruct (forallb accepted (messages r)). }
  rewrite Hgo. clear Hgo.
  set (d1 := apply_all devices (of_round r)).
  destruct (IH d1) as [IHt IHd].
  destruct (_listen_ws d1 false rest) as [[d2 tr] st] eqn:Hrest.
  unfold trace_of, devices_of in *. cbn [fst snd] in IHt, IHd.
  assert (Hin : forall extra,
            updates_of (Connect :: map Update (of_round r) ++ extra)
            = (of_round r ++ updates_of extra)%list).
  { intros extra. cbn [updates_of]. by rewrite updates_of_app, updates_of_map. }
  assert (Hin0 : updates_of (Connect :: map Update (of_round r)) = of_round r).
  { cbn [updates_of]. apply updates_of_map. }
  destruct (if ok then how r else OtherError), (stop_set r),
    (then_sleep r) as [[|]|];
    rewrite ?listen_ws_stopped; rewrite ?Hrest; cbn [fst snd andb negb];
    rewrite ?app_nil_r; rewrite <- ?app_assoc; cbn [app];
    rewrite ?apply_all_app; rewrite ?Hin, ?Hin0; cbn [updates_of];
    rewrite ?app_nil_r; rewrite ?IHt;
    (split; [reflexivity|first [reflexivity|exact IHd]]).
Qed.

(** X10.  Every message is applied once, in the order it arrived.  The
    messages a listener run hands to [_update_state] are those its
    connections deliver, round after round while the loop goes on, each
    connection up to the first message on which [_update_state] raises;
    and the mapping the run leaves is the starting mapping with
    [_update_state] called on each of them in that order.  When every
    connection is made, every message is taken and the loop goes on
    after every round, these are all the messages of the script. *)
Theorem listen_ws_applies_in_order
    (devices : pydict) (stop : bool) (script : list round) :
  let run := _listen_ws devices stop script in
  let handed := if stop then [] else delivered script in
  updates_of (trace_of run) = handed
  /\ devices_of run = apply_all devices handed
  /\ (Forall (fun r => how r <> ConnectFailed
                       /\ forallb accepted (messages r) = true
                       /\ goes_on r = true) script ->
      delivered script = concat (map messages script)).
Proof.
  intros run handed. subst run handed.
  split; [|split].
  - destruct stop; [by rewrite listen_ws_stopped|]. apply listen_ws_delivered.
  - destruct stop; [by rewrite listen_ws_stopped|]. apply listen_ws_delivered.
  - induction 1 as [|r rest (Hhow & Hacc & Hgo) _ IH]; [done|].
    cbn [delivered map concat]. rewrite Hgo, IH. f_equal.
    unfold of_round. rewrite (handed_on_all _ Hacc). by destruct (how r).
Qed.

(** Two connections: the second message of the first is not a list of
    records and ends it; the second connection delivers the rest. *)
Example listen_ws_applies_example :
  let ups1 := PDict [("device_name", PStr "ups1")] in
  let ups2 := PDict [("device_name", PStr "ups2")] in
  let script :=
    [mkRound [Decoded (PList [ups1]); Decoded (PList [PInt 1]); Decoded (PList [ups2])]
             EndOfStream false (SleepDone false);
     mkRound [Decoded (PList [ups2]); LoadsRaised IntegerTooLong]
             ClosedOK false (SleepDone true)] in
  delivered script
  = [Decoded (PList [ups1]); Decoded (PList [PInt 1]);
     Decoded (PList [ups2]); LoadsRaised IntegerTooLong]
  /\ devices_of (_listen_ws [] false script)
     = [(PStr "ups1", ups1); (PStr "ups2", ups2)].
Proof. split; reflexivity. Qed.

(** X11.  The listener never drops a device.  Over a whole run, under
    every environment, the keys the mapping held at the start are still
    there, in their place, each still reads a value, and a mapping of
    well-shaped entries stays one; so an entity whose device was once
    in the store finds it there for the rest of the run. *)
Theorem listen_ws_keeps_devices
    (devices : pydict) (stop : bool) (script : list round) :
  let devices' := devices_of (_listen_ws devices stop script) in
  dict_keys devices `prefix_of` dict_keys devices'
  /\ (forall h, is_Some (dict_get devices h) -> is_Some (dict_get devices' h))
  /\ (store_wf devices -> store_wf devices').
Proof.
  intros devices'. subst devices'. rewrite listen_ws_replay.
  destruct (replay_keeps (trace_of (_listen_ws devices stop script)) devices)
    as [Hp Hs].
  split; [done|]. split; [done|]. apply replay_wf.
Qed.

End StreamExtra.

Module SeedExtra.
Import Py Helpers Seed.

Lemma urlparse_raises (url : string) (e : exn) :
  urlparse url = Raise e -> e = ValueError.
Proof.
  unfold urlparse. destruct (split_scheme _) as [sch rest]. cbv zeta.
  destruct (_ || _); [by intros [= <-]|].
  destruct (_ || _); [|done]. destruct (netloc_special_ok _); [done|]. by intros [= <-].
Qed.

(** X12.  A failed request never seeds data.  [_fetch_initial_status]
    returns truthy data only when the request answered with status 200
    and a decodable body, and then it returns that body; every other
    outcome gives a result that is not truthy.  It raises only
    [ValueError], when [urlparse] refuses the address. *)
Theorem fetch_only_from_200 (ws_url : string) (o : get_outcome) :
  (forall data, _fetch_initial_status ws_url o = Ret data -> truthy data = true ->
                o = GetResponse 200 (Some data))
  /\ (forall e, _fetch_initial_status ws_url o = Raise e ->
                e = ValueError /\ urlparse ws_url = Raise ValueError).
Proof.
  unfold _fetch_initial_status, build_http_url. split.
  - intros data.
    destruct (String.eqb ws_url ""); simpl; [by intros [= <-]|].
    destruct (urlparse ws_url) as [parsed|e]; simpl; [|done].
    repeat (match goal with
            | |- context [if ?b then _ else _] => destruct b eqn:?; simpl
            end); try (by intros [= <-]);
      destruct o as [|status [body|]]; try (by intros [= <-]);
      destruct (status =? 200) eqn:Hs; try (by intros [= <-]);
      apply Z.eqb_eq in Hs; subst; by intros [= <-].
  - intros e.
    destruct (String.eqb ws_url ""); simpl; [done|].
    destruct (urlparse ws_url) as [parsed|e'] eqn:Hp; simpl.
    + repeat (match goal with
              | |- context [if ?b then _ else _] => destruct b eqn:?; simpl
              end); try done;
        destruct o as [|status [body|]]; try done; by destruct (status =? 200).
    + intros [= <-]. pose proof (urlparse_raises _ _ Hp) as ->. done.
Qed.

End SeedExtra.

Module DiscoveryExtra.
Import Py Store Connection DiscoverySpec.

(** *** [sorted] keeps the keys *)

Lemma insert_sorted_elem (k x : string) (l : list string) :
  x ∈ Sensor.insert_sorted k l <-> x = k \/ x ∈ l.
Proof.
  induction l as [|k' rest IH]; simpl.
  - rewrite list_elem_of_singleton, elem_of_nil. tauto.
  - destruct (String.leb k k').
    + rewrite !elem_of_cons. tauto.
    + rewrite !elem_of_cons, IH. tauto.
Qed.

Lemma py_sorted_elem (x : string) (keys : list string) :
  x ∈ Sensor.py_sorted keys <-> x ∈ keys.
Proof.
  induction keys as [|k rest IH]; simpl; [done|].
  rewrite insert_sorted_elem, elem_of_cons, IH. tauto.
Qed.

(** *** What a sensor pass hands over *)

(** The device is one the allow-list lets through. *)
Definition allowed (configured_names : gset string) (device_name : pyval) : Prop :=
  Sensor.filtered_out device_name configured_names = false.

(** An entity the mapping accounts for: its device is in the mapping
    and passes the allow-list, and an attribute sensor is for a key of
    that device's attributes other than [status]. *)
Definition sensor_sound (entry_id : string) (configured_names : gset string)
    (devices : pydict) (e : Sensor.SensorEntity) : Prop :=
  match e with
  | Sensor.UPSStatusSensor eid device_name =>
      eid = entry_id /\ allowed configured_names device_name
      /\ exists device, (device_name, device) ∈ devices
  | Sensor.UPSAttributeSensor eid device_name attribute =>
      eid = entry_id /\ allowed configured_names device_name
      /\ attribute <> "status"
      /\ exists device a keys,
           (device_name, device) ∈ devices
           /\ py_get device "attributes" PNone = Ret a
           /\ py_keys (py_or a (PDict [])) = Ret keys
           /\ attribute ∈ keys
  end.

Lemma sensor_attribute_loop_sound entry_id device_name (P : Sensor.SensorEntity -> Prop)
    keys :
  forall added new_entities,
  Forall P new_entities ->
  (forall k, k ∈ keys -> k <> "status" ->
             P (Sensor.UPSAttributeSensor entry_id device_name k)) ->
  Forall P (snd (Sensor.attribute_loop entry_id device_name keys added new_entities)).
Proof.
  induction keys as [|k rest IH]; intros added new_entities Hnew Hk; [done|].
  simpl.
  assert (Hrest : forall k', k' ∈ rest -> k' <> "status" ->
            P (Sensor.UPSAttributeSensor entry_id device_name k')).
  { intros k' Hin. apply Hk. by right. }
  case_bool_decide; [by apply IH|].
  destruct (String.eqb_spec k "status") as [->|Hne]; [by apply IH|].
  apply IH; [|done]. apply Forall_app. split; [done|].
  constructor; [|constructor]. apply Hk; [left|done].
Qed.

Lemma sensor_device_loop_sound entry_id configured_names (devices : pydict) items :
  forall added new_entities,
  (forall kv, kv ∈ items -> kv ∈ devices) ->
  Forall (sensor_sound entry_id configured_names devices) new_entities ->
  Forall (sensor_sound entry_id configured_names devices)
    (handed_over (snd (Sensor.device_loop entry_id configured_names items
                         added new_entities))).
Proof.
  induction items as [|[device_name device] rest IH];
    intros added new_entities Hsub Hnew; [done|].
  assert (Hrest : forall kv, kv ∈ rest -> kv ∈ devices).
  { intros kv Hin. apply Hsub. by right. }
  assert (Hhere : (device_name, device) ∈ devices) by (apply Hsub; left).
  simpl.
  destruct (Sensor.filtered_out device_name configured_names) eqn:Hf; [by apply IH|].
  set (st := if bool_decide (py_str device_name +:+ "-status" ∈ added)
             then (added, new_entities)
             else ({[py_str device_name +:+ "-status"]} ∪ added,
                   (new_entities ++ [Sensor.UPSStatusSensor entry_id device_name])%list)).
  assert (Hst : Forall (sensor_sound entry_id configured_names devices) (snd st)).
  { subst st. case_bool_decide; [done|]. simpl.
    apply Forall_app. split; [done|]. constructor; [|constructor].
    simpl. split; [done|]. split; [done|]. by exists device. }
  destruct st as [added1 new1]. simpl in Hst.
  destruct (py_get device "attributes" PNone) as [a|e] eqn:Hget; [|constructor].
  destruct (py_keys (py_or a (PDict []))) as [keys|e] eqn:Hkeys; [|constructor].
  pose proof (sensor_attribute_loop_sound entry_id device_name
                (sensor_sound entry_id configured_names devices)
                (Sensor.py_sorted keys) added1 new1 Hst) as Hattr.
  destruct (Sensor.attribute_loop _ _ _ _ _) as [added2 new2]. simpl in Hattr.
  apply IH; [done|]. apply Hattr.
  intros k Hk Hne. simpl. split; [done|]. split; [done|]. split; [done|].
  exists device, a, keys. repeat split; try done. by apply py_sorted_elem.
Qed.

(** X13.  A sensor pass hands over nothing the mapping does not account
    for.  Every entity [_maybe_add_entities] of the sensor platform
    hands to the callback is for a device that is in the mapping and
    passes the allow-list, and every attribute sensor is for a key that
    device's attributes hold, never for [status]. *)
Theorem sensor_pass_sound
    (entry_id : string) (configured_names : gset string)
    (devices : pydict) (added : gset string) :
  Forall (sensor_sound entry_id configured_names devices)
    (handed_over (snd (Sensor._maybe_add_entities entry_id configured_names
                         devices added))).
Proof.
  unfold Sensor._maybe_add_entities.
  apply sensor_device_loop_sound; [done|constructor].
Qed.

(** *** What a button pass hands over *)

Definition button_sound (entry_id : string) (configured_names : gset string)
    (devices : pydict) (b : Button.UPSCommandButton) : Prop :=
  Button.button_entry_id b = entry_id
  /\ allowed configured_names (Button.button_device_name b)
  /\ Button.button_description b ∈ Button.BUTTON_DESCRIPTIONS
  /\ exists device,
       (Button.button_device_name b, device) ∈ devices
       /\ py_get device "type" (PStr "nut") = Ret (PStr "nut").

Lemma descriptions_nut :
  Forall (fun desc => Button.device_types desc = ["nut"]) Button.BUTTON_DESCRIPTIONS.
Proof. repeat constructor. Qed.

Lemma type_in_nut (device_type : pyval) :
  Button.type_in device_type ["nut"] = true -> device_type = PStr "nut".
Proof.
  destruct device_type; simpl; try done.
  rewrite orb_false_r. by intros ->%String.eqb_eq.
Qed.

Lemma button_description_loop_sound entry_id device_name device_type
    (P : Button.UPSCommandButton -> Prop) descs :
  forall added new_entities,
  Forall P new_entities ->
  (forall desc, desc ∈ descs ->
                Button.type_in device_type (Button.device_types desc) = true ->
                P (Button.mkCommandButton entry_id device_name desc)) ->
  Forall P (snd (Button.description_loop entry_id device_name device_type descs
                   added new_entities)).
Proof.
  induction descs as [|desc rest IH]; intros added new_entities Hnew Hd; [done|].
  simpl.
  assert (Hrest : forall desc', desc' ∈ rest ->
            Button.type_in device_type (Button.device_types desc') = true ->
            P (Button.mkCommandButton entry_id device_name desc')).
  { intros desc' Hin. apply Hd. by right. }
  destruct (Button.type_in device_type (Button.device_types desc)) eqn:Ht; simpl;
    [|by apply IH].
  case_bool_decide; [by apply IH|].
  apply IH; [|done]. apply Forall_app. split; [done|].
  constructor; [|constructor]. apply Hd; [left|done].
Qed.

Local Opaque Button.BUTTON_DESCRIPTIONS.

Lemma button_device_loop_sound entry_id configured_names (devices : pydict) items :
  forall added new_entities,
  (forall kv, kv ∈ items -> kv ∈ devices) ->
  Forall (button_sound entry_id configured_names devices) new_entities ->
  Forall (button_sound entry_id configured_names devices)
    (handed_over (snd (Button.device_loop entry_id configured_names items
                         added new_entities))).
Proof.
  induction items as [|[device_name device] rest IH];
    intros added new_entities Hsub Hnew; [done|].
  assert (Hrest : forall kv, kv ∈ rest -> kv ∈ devices).
  { intros kv Hin. apply Hsub. by right. }
  assert (Hhere : (device_name, device) ∈ devices) by (apply Hsub; left).
  simpl.
  destruct (Sensor.filtered_out device_name configured_names) eqn:Hf; [by apply IH|].
  destruct (py_get device "type" (PStr "nut")) as [device_type|e] eqn:Hget;
    [|constructor].
  pose proof (button_description_loop_sound entry_id device_name device_type
                (button_sound entry_id configured_names devices)
                Button.BUTTON_DESCRIPTIONS added new_entities Hnew) as Hd.
  destruct (Button.description_loop _ _ _ _ _ _) as [added1 new1]. simpl in Hd.
  apply IH; [done|]. apply Hd.
  intros desc Hin Ht. split; [done|]. split; [done|]. split; [done|].
  exists device. split; [done|].
  pose proof descriptions_nut as Hnut. rewrite Forall_forall in Hnut.
  rewrite (Hnut desc Hin) in Ht. apply type_in_nut in Ht. by rewrite Ht in Hget.
Qed.

Local Transparent Button.BUTTON_DESCRIPTIONS.

(** X14.  Buttons are for [nut] devices only.  Every button the button
    platform hands to the callback is one of the seven descriptions,
    for a device that is in the mapping, passes the allow-list, and
    whose [type] is ["nut"] or missing; a device of another type, such
    as [apcupsd], gets none. *)
Theorem button_pass_sound
    (entry_id : string) (configured_names : gset string)
    (devices : pydict) (added : gset string) :
  Forall (button_sound entry_id configured_names devices)
    (handed_over (snd (Button._maybe_add_entities entry_id configured_names
                         devices added))).
Proof.
  unfold Button._maybe_add_entities.
  apply button_device_loop_sound; [done|constructor].
Qed.

(** *** The allow-list over a whole run *)

Definition sensor_device (e : Sensor.SensorEntity) : pyval :=
  match e with
  | Sensor.UPSStatusSensor _ device_name => device_name
  | Sensor.UPSAttributeSensor _ device_name _ => device_name
  end.

Definition sensor_attribute (e : Sensor.SensorEntity) : option string :=
  match e with
  | Sensor.UPSStatusSensor _ _ => None
  | Sensor.UPSAttributeSensor _ _ attribute => Some attribute
  end.

(** With a non-empty allow-list, the device is a configured name. *)
Definition configured (configured_names : gset string) (device_name : pyval) : Prop :=
  configured_names <> ∅ ->
  exists s, device_name = PStr s /\ s ∈ configured_names.

Lemma allowed_configured configured_names device_name :
  allowed configured_names device_name -> configured configured_names device_name.
Proof.
  unfold allowed, Sensor.filtered_out, configured. intros Ha Hne.
  rewrite bool_decide_eq_false_2 in Ha by done. simpl in Ha.
  apply negb_false_iff in Ha. destruct device_name; try done.
  simpl in Ha. apply bool_decide_eq_true_1 in Ha. eauto.
Qed.

Definition run_sound (configured_names : gset string) (c : connection) : Prop :=
  Forall (fun e => configured configured_names (sensor_device e)
                   /\ sensor_attribute e <> Some "status") (sensors_emitted c)
  /\ Forall (fun b => configured configured_names (Button.button_device_name b)
                      /\ Button.button_description b ∈ Button.BUTTON_DESCRIPTIONS)
            (buttons_emitted c).

Lemma reconcile_sound entry_id configured_names c :
  run_sound configured_names c ->
  run_sound configured_names (reconcile entry_id configured_names c).
Proof.
  intros [Hs Hb]. unfold reconcile.
  pose proof (sensor_device_loop_sound entry_id configured_names (devices c)
                (devices c) (sensors_added c) [] (fun kv H => H) (List.Forall_nil _)) as Ps.
  pose proof (button_device_loop_sound entry_id configured_names (devices c)
                (devices c) (buttons_added c) [] (fun kv H => H) (List.Forall_nil _)) as Pb.
  fold (Sensor._maybe_add_entities entry_id configured_names (devices c)
          (sensors_added c)) in Ps.
  fold (Button._maybe_add_entities entry_id configured_names (devices c)
          (buttons_added c)) in Pb.
  destruct (Sensor._maybe_add_entities _ _ _ _) as [sa sr].
  destruct (Button._maybe_add_entities _ _ _ _) as [ba br].
  simpl in *. split; apply Forall_app; (split; [done|]).
  - eapply Forall_impl; [exact Ps|]. intros [eid dn|eid dn attr]; simpl.
    + intros (_ & Ha & _). split; [by apply allowed_configured|done].
    + intros (_ & Ha & Hne & _). split; [by apply allowed_configured|congruence].
  - eapply Forall_impl; [exact Pb|]. intros b (_ & Ha & Hd & _).
    split; [by apply allowed_configured|done].
Qed.

Lemma step_sound entry_id configured_names c ev :
  run_sound configured_names c ->
  run_sound configured_names (step entry_id configured_names c ev).
Proof.
  intros Hc. destruct ev as [data|]; simpl; [|by apply reconcile_sound].
  destruct (_update_state (devices c) data) as [d [[|updated]|e]]; try done.
  by apply reconcile_sound.
Qed.

Lemma run_sound_run entry_id configured_names evs : forall c,
  run_sound configured_names c ->
  run_sound configured_names (run entry_id configured_names c evs).
Proof.
  induction evs as [|ev evs IH]; intros c Hc; [done|].
  simpl. apply IH. by apply step_sound.
Qed.

(** X15.  The allow-list holds for the life of a connection.  With a
    non-empty set of configured names, over every sequence of payloads
    and reconciliation passes, every sensor and every button ever handed
    to the callback is for a device whose name is a configured name;
    and, allow-list or not, no attribute sensor is ever made for the
    attribute [status]. *)
Theorem discovery_respects_allow_list
    (entry_id : string) (configured_names : gset string)
    (devices0 : pydict) (evs : list event) :
  let c := run entry_id configured_names
               (setup entry_id configured_names devices0) evs in
  (forall e, e ∈ sensors_emitted c ->
             configured configured_names (sensor_device e)
             /\ sensor_attribute e <> Some "status")
  /\ (forall b, b ∈ buttons_emitted c ->
                configured configured_names (Button.button_device_name b)).
Proof.
  intros c.
  assert (Hc : run_sound configured_names c).
  { apply run_sound_run. apply reconcile_sound. split; constructor. }
  destruct Hc as [Hs Hb]. rewrite Forall_forall in Hs. rewrite Forall_forall in Hb.
  split; [exact Hs|]. intros b Hin. by destruct (Hb b Hin).
Qed.

(** *** Running a pass again *)

Definition again {E} (r : result (list E)) (new_entities : list E) : result (list E) :=
  match r with
  | Ret _ => Ret new_entities
  | Raise e => Raise e
  end.

Lemma sensor_attribute_loop_mono entry_id device_name keys :
  forall added new_entities,
  added ⊆ fst (Sensor.attribute_loop entry_id device_name keys added new_entities).
Proof.
  induction keys as [|k rest IH]; intros added new_entities; [done|].
  simpl. case_bool_decide; [apply IH|].
  destruct (String.eqb k "status"); [apply IH|].
  etransitivity; [|apply IH]. apply union_subseteq_r.
Qed.

Lemma sensor_attribute_loop_covers entry_id device_name keys :
  forall added new_entities k,
  k ∈ keys -> k <> "status" ->
  py_str device_name +:+ "-" +:+ k
  ∈ fst (Sensor.attribute_loop entry_id device_name keys added new_entities).
Proof.
  induction keys as [|k0 rest IH]; intros added new_entities k Hin Hne.
  - by apply elem_of_nil in Hin.
  - simpl. apply elem_of_cons in Hin as [->|Hin].
    + case_bool_decide as Hk.
      * by apply sensor_attribute_loop_mono.
      * rewrite (proj2 (String.eqb_neq _ _) Hne).
        apply sensor_attribute_loop_mono. apply elem_of_union. left.
        by apply elem_of_singleton.
    + case_bool_decide; [by apply IH|].
      destruct (String.eqb k0 "status"); by apply IH.
Qed.

Lemma sensor_attribute_loop_noop entry_id device_name keys :
  forall added new_entities,
  (forall k, k ∈ keys -> k <> "status" ->
             py_str device_name +:+ "-" +:+ k ∈ added) ->
  Sensor.attribute_loop entry_id device_name keys added new_entities
  = (added, new_entities).
Proof.
  induction keys as [|k rest IH]; intros added new_entities Hall; [done|].
  simpl.
  assert (Hrest : forall k', k' ∈ rest -> k' <> "status" ->
            py_str device_name +:+ "-" +:+ k' ∈ added).
  { intros k' Hin. apply Hall. by right. }
  case_bool_decide as Hk; [by apply IH|].
  destruct (String.eqb_spec k "status") as [->|Hne]; [by apply IH|].
  destruct Hk. apply Hall; [left|done].
Qed.

Lemma sensor_device_loop_mono entry_id configured_names items :
  forall added new_entities,
  added ⊆ fst (Sensor.device_loop entry_id configured_names items added new_entities).
Proof.
  induction items as [|[device_name device] rest IH]; intros added new_entities;
    [done|].
  simpl. destruct (Sensor.filtered_out device_name configured_names); [apply IH|].
  set (st := if bool_decide (py_str device_name +:+ "-status" ∈ added)
             then (added, new_entities)
             else ({[py_str device_name +:+ "-status"]} ∪ added,
                   (new_entities ++ [Sensor.UPSStatusSensor entry_id device_name])%list)).
  assert (Hst : added ⊆ fst st).
  { subst st. case_bool_decide; [done|]. apply union_subseteq_r. }
  destruct st as [added1 new1]. simpl in Hst.
  destruct (py_get device "attributes" PNone) as [a|e]; [|done].
  destruct (py_keys (py_or a (PDict []))) as [keys|e]; [|done].
  pose proof (sensor_attribute_loop_mono entry_id device_name
                (Sensor.py_sorted keys) added1 new1) as Hattr.
  destruct (Sensor.attribute_loop _ _ _ _ _) as [added2 new2]. simpl in Hattr.
  etransitivity; [exact Hst|]. etransitivity; [exact Hattr|]. apply IH.
Qed.

Lemma sensor_device_loop_again entry_id configured_names items :
  forall added new_entities a2 new2,
  fst (Sensor.device_loop entry_id configured_names items added new_entities) ⊆ a2 ->
  Sensor.device_loop entry_id configured_names items a2 new2
  = (a2, again (snd (Sensor.device_loop entry_id configured_names items
                       added new_entities)) new2).
Proof.
  induction items as [|[device_name device] rest IH];
    intros added new_entities a2 new2; [done|].
  simpl. destruct (Sensor.filtered_out device_name configured_names); [apply IH|].
  set (st := if bool_decide (py_str device_name +:+ "-status" ∈ added)
             then (added, new_entities)
             else ({[py_str device_name +:+ "-status"]} ∪ added,
                   (new_entities ++ [Sensor.UPSStatusSensor entry_id device_name])%list)).
  assert (Hst : py_str device_name +:+ "-status" ∈ fst st).
  { subst st. case_bool_decide; [done|]. simpl.
    apply elem_of_union. left. by apply elem_of_singleton. }
  destruct st as [added1 new1]. simpl in Hst.
  destruct (py_get device "attributes" PNone) as [a|e]; simpl.
  2: { intros Hsub. rewrite bool_decide_eq_true_2; [done|by apply Hsub]. }
  destruct (py_keys (py_or a (PDict []))) as [keys|e]; simpl.
  2: { intros Hsub. rewrite bool_decide_eq_true_2; [done|by apply Hsub]. }
  pose proof (sensor_attribute_loop_mono entry_id device_name
                (Sensor.py_sorted keys) added1 new1) as Hmono.
  pose proof (sensor_attribute_loop_covers entry_id device_name
                (Sensor.py_sorted keys) added1 new1) as Hcov.
  destruct (Sensor.attribute_loop _ _ _ added1 new1) as [added2 new3].
  simpl in Hmono, Hcov.
  intros Hsub.
  pose proof (sensor_device_loop_mono entry_id configured_names rest added2 new3)
    as Hrest.
  assert (H2 : added2 ⊆ a2) by (etransitivity; [exact Hrest|exact Hsub]).
  rewrite bool_decide_eq_true_2 by (apply H2, Hmono, Hst).
  rewrite sensor_attribute_loop_noop.
  - by apply IH.
  - intros k Hk Hne. apply H2. by apply Hcov.
Qed.

Lemma button_description_loop_mono entry_id device_name device_type descs :
  forall added new_entities,
  added ⊆ fst (Button.description_loop entry_id device_name device_type descs
                 added new_entities).
Proof.
  induction descs as [|desc rest IH]; intros added new_entities; [done|].
  simpl. destruct (negb _); [apply IH|].
  case_bool_decide; [apply IH|].
  etransitivity; [|apply IH]. apply union_subseteq_r.
Qed.

Lemma button_description_loop_covers entry_id device_name device_type descs :
  forall added new_entities desc,
  desc ∈ descs ->
  Button.type_in device_type (Button.device_types desc) = true ->
  entry_id +:+ "-" +:+ py_str device_name +:+ "-" +:+ Button.key desc
  ∈ fst (Button.description_loop entry_id device_name device_type descs
           added new_entities).
Proof.
  induction descs as [|d0 rest IH]; intros added new_entities desc Hin Ht.
  - by apply elem_of_nil in Hin.
  - simpl. apply elem_of_cons in Hin as [->|Hin].
    + rewrite Ht. simpl. case_bool_decide as Hk.
      * by apply button_description_loop_mono.
      * apply button_description_loop_mono. apply elem_of_union. left.
        by apply elem_of_singleton.
    + destruct (negb _); [by apply IH|].
      case_bool_decide; by apply IH.
Qed.

Lemma button_description_loop_noop entry_id device_name device_type descs :
  forall added new_entities,
  (forall desc, desc ∈ descs ->
                Button.type_in device_type (Button.device_types desc) = true ->
                entry_id +:+ "-" +:+ py_str device_name +:+ "-" +:+ Button.key desc
                ∈ added) ->
  Button.description_loop entry_id device_name device_type descs added new_entities
  = (added, new_entities).
Proof.
  induction descs as [|desc rest IH]; intros added new_entities Hall; [done|].
  simpl.
  assert (Hrest : forall desc', desc' ∈ rest ->
            Button.type_in device_type (Button.device_types desc') = true ->
            entry_id +:+ "-" +:+ py_str device_name +:+ "-" +:+ Button.key desc'
            ∈ added).
  { intros desc' Hin. apply Hall. by right. }
  destruct (Button.type_in device_type (Button.device_types desc)) eqn:Ht; simpl;
    [|by apply IH].
  case_bool_decide as Hk; [by apply IH|].
  destruct Hk. apply Hall; [left|done].
Qed.

Local Opaque Button.BUTTON_DESCRIPTIONS.

Lemma button_device_loop_mono entry_id configured_names items :
  forall added new_entities,
  added ⊆ fst (Button.device_loop entry_id configured_names items added new_entities).
Proof.
  induction items as [|[device_name device] rest IH]; intros added new_entities;
    [done|].
  simpl. destruct (Sensor.filtered_out device_name configured_names); [apply IH|].
  destruct (py_get device "type" (PStr "nut")) as [device_type|e]; [|done].
  pose proof (button_description_loop_mono entry_id device_name device_type
                Button.BUTTON_DESCRIPTIONS added new_entities) as Hd.
  destruct (Button.description_loop _ _ _ _ _ _) as [added1 new1]. simpl in Hd.
  etransitivity; [exact Hd|apply IH].
Qed.

Lemma button_device_loop_again entry_id configured_names items :
  forall added new_entities a2 new2,
  fst (Button.device_loop entry_id configured_names items added new_entities) ⊆ a2 ->
  Button.device_loop entry_id configured_names items a2 new2
  = (a2, again (snd (Button.device_loop entry_id configured_names items
                       added new_entities)) new2).
Proof.
  induction items as [|[device_name device] rest IH];
    intros added new_entities a2 new2; [done|].
  simpl. destruct (Sensor.filtered_out device_name configured_names); [apply IH|].
  destruct (py_get device "type" (PStr "nut")) as [device_type|e]; [|done].
  pose proof (button_description_loop_covers entry_id device_name device_type
                Button.BUTTON_DESCRIPTIONS added new_entities) as Hcov.
  destruct (Button.description_loop _ _ _ _ added new_entities) as [added1 new1].
  simpl in Hcov. intros Hsub.
  pose proof (button_device_loop_mono entry_id configured_names rest added1 new1)
    as Hrest.
  rewrite button_description_loop_noop.
  - by apply IH.
  - intros desc Hin Ht. apply Hsub, Hrest. by apply Hcov.
Qed.

Local Transparent Button.BUTTON_DESCRIPTIONS.

(** X16.  A pass run again finds nothing new.  When
    [_maybe_add_entities] of either platform has run on a mapping,
    running it again on the same mapping leaves the [added] set as it
    is and hands over no entity (and raises again if it raised): what a
    pass adds to the ledger covers everything it would look for. *)
Theorem pass_again_adds_nothing
    (entry_id : string) (configured_names : gset string)
    (devices : pydict) (added : gset string) :
  let sensors := Sensor._maybe_add_entities entry_id configured_names devices added in
  let buttons := Button._maybe_add_entities entry_id configured_names devices added in
  Sensor._maybe_add_entities entry_id configured_names devices (fst sensors)
  = (fst sensors, again (snd sensors) [])
  /\ Button._maybe_add_entities entry_id configured_names devices (fst buttons)
     = (fst buttons, again (snd buttons) []).
Proof.
  intros sensors buttons. split.
  - by apply sensor_device_loop_again.
  - by apply button_device_loop_again.
Qed.

End DiscoveryExtra.

Module CommandExtra.
Import Py Command Entities.

(** X17.  How a press ends.  [async_press] returns normally exactly
    when there is a base URL, the response has a status below 400 and
    its body is a JSON object; the body is then kept as the last result
    as it is.  Without a base URL it raises and leaves the last result
    untouched.  In every other case it raises and the last result
    becomes a failure record [{success: false, error: ...}]. *)
Theorem async_press_outcomes
    (base_http : option string) (last_result : option pyval) (x : exchange) :
  let usable := match base_http with Some b => negb (String.eqb b "") | None => false end in
  let out := async_press base_http last_result x in
  (snd out = Pressed <->
     usable = true
     /\ exists status items, x = Responded status (PDict items) /\ status < 400)
  /\ (forall status items, snd out = Pressed -> x = Responded status (PDict items) ->
        fst out = Some (PDict items))
  /\ (usable = false ->
        out = (last_result, HomeAssistantError BaseUrlUnavailable))
  /\ (usable = true -> snd out <> Pressed ->
        exists message, fst out = Some (failed message)).
Proof.
  intros usable out. subst usable out. unfold async_press.
  destruct base_http as [base|]; [destruct (String.eqb base "")|]; simpl.
  2: { (* a usable base URL *)
    destruct x as [err|status err|status result]; simpl.
    - repeat split; try done; try (by intros (_ & ? & ? & ? & _)); eauto.
    - repeat split; try done; try (by intros (_ & ? & ? & ? & _)); eauto.
    - destruct (400 <=? status) eqn:Hs.
      + apply Z.leb_le in Hs.
        destruct result; simpl; repeat split; try done; eauto;
          intros (_ & s' & i' & [= -> ->] & Hlt); lia.
      + apply Z.leb_gt in Hs.
        destruct result; simpl; repeat split; try done; eauto;
          try (by intros (_ & s' & i' & [= _ ?] & _));
          try (by intros s' i' _ [= _ ->]).
  }
  all: repeat split; try done; by intros [? _].
Qed.

(** X18.  What the button shows after a press.  The state attributes
    always carry [device_name] and [command].  After a press that
    raised although a base URL was there, they carry a [last_result]
    whose [success] is [False]; after a press that returned, they carry
    the server's answer as [last_result] unless it is the empty
    object. *)
Theorem state_attributes_after_press
    (base : string) (device_name : pyval) (cmd : string)
    (last_result : option pyval) (x : exchange) :
  base <> "" ->
  let out := async_press (Some base) last_result x in
  let attrs := extra_state_attributes device_name cmd (fst out) in
  items_get attrs "device_name" = Some device_name
  /\ items_get attrs "command" = Some (PStr cmd)
  /\ (snd out <> Pressed ->
      exists r, items_get attrs "last_result" = Some r
                /\ py_get r "success" PNone = Ret (PBool false))
  /\ (forall status items,
      snd out = Pressed -> x = Responded status (PDict items) ->
      items_get attrs "last_result"
      = if truthy (PDict items) then Some (PDict items) else None).
Proof.
  intros Hbase%String.eqb_neq out attrs. subst attrs out.
  unfold async_press. rewrite Hbase.
  assert (Hfail : forall text,
             items_get (extra_state_attributes device_name cmd
                          (fst (on_exception text))) "last_result"
             = Some (failed (PStr text))) by done.
  destruct x as [err|status err|status result]; simpl.
  - repeat split; try done. intros _. eexists. split; [apply Hfail|done].
  - repeat split; try done. intros _. eexists. split; [apply Hfail|done].
  - destruct (400 <=? status) eqn:Hs.
    + destruct result; simpl; repeat split; try done;
        intros _; eexists; (split; [reflexivity|done]).
    + destruct result as [| | | | | |items]; simpl; repeat split; try done;
        try (intros _; eexists; (split; [reflexivity|done])).
      * unfold extra_state_attributes. by destruct items.
      * unfold extra_state_attributes. by destruct items.
      * intros status' items' _ [= _ <-]. unfold extra_state_attributes.
        by destruct items.
Qed.

Lemma state_attributes_after_press_witness :
  let out := async_press (Some "http://ups.example:8080") None
                         (Responded 409 (PDict [("error", PStr "busy")])) in
  let attrs := extra_state_attributes (PStr "ups1") "load.off" (fst out) in
  items_get attrs "device_name" = Some (PStr "ups1")
  /\ items_get attrs "command" = Some (PStr "load.off")
  /\ (snd out <> Pressed ->
      exists r, items_get attrs "last_result" = Some r
                /\ py_get r "success" PNone = Ret (PBool false))
  /\ (forall status items, snd out = Pressed ->
      Responded 409 (PDict [("error", PStr "busy")]) = Responded status (PDict items) ->
      items_get attrs "last_result"
      = if truthy (PDict items) then Some (PDict items) else None).
Proof.
  apply (state_attributes_after_press "http://ups.example:8080" (PStr "ups1")
           "load.off" None (Responded 409 (PDict [("error", PStr "busy")]))).
  discriminate.
Defined.

End CommandExtra.

Module SetupExtra.
Import Py Store Seed Setup.

Lemma set_add_elem names : forall h name x,
  x ∈ set_add names h name -> x ∈ names \/ x = name.
Proof.
  induction names as [|n rest IH]; intros h name x; simpl.
  - intros Hx%list_elem_of_singleton. by right.
  - destruct (decide (hash_key n = Some h)); [by left|].
    intros [->|Hx]%elem_of_cons; [left; by left|].
    destruct (IH h name x Hx) as [?|?]; [left; by right|by right].
Qed.

Lemma set_add_keeps names : forall h name x,
  x ∈ names -> x ∈ set_add names h name.
Proof.
  induction names as [|n rest IH]; intros h name x Hx; simpl.
  - by apply elem_of_nil in Hx.
  - destruct (decide (hash_key n = Some h)); [done|].
    apply elem_of_cons in Hx as [->|Hx]; [by left|right; by apply IH].
Qed.

Lemma set_add_has names : forall h name,
  hash_key name = Some h ->
  exists n, n ∈ set_add names h name /\ hash_key n = Some h.
Proof.
  induction names as [|n rest IH]; intros h name Hk; simpl.
  - exists name. split; [by left|done].
  - destruct (decide (hash_key n = Some h)) as [Hn|Hn].
    + exists n. split; [by left|done].
    + destruct (IH h name Hk) as (n' & Hin & Hk'). exists n'. split; [by right|done].
Qed.

Lemma set_add_keys names : forall h name x,
  hash_key name = Some h ->
  x ∈ map hash_key (set_add names h name) ->
  x ∈ map hash_key names \/ x = Some h.
Proof.
  induction names as [|n rest IH]; intros h name x Hk; simpl.
  - intros Hx%list_elem_of_singleton. right. congruence.
  - destruct (decide (hash_key n = Some h)); [by left|]. simpl.
    intros [->|Hx]%elem_of_cons; [left; by left|].
    destruct (IH h name x Hk Hx) as [?|?]; [left; by right|by right].
Qed.

Lemma set_add_nodup names : forall h name,
  hash_key name = Some h ->
  NoDup (map hash_key names) -> NoDup (map hash_key (set_add names h name)).
Proof.
  induction names as [|n rest IH]; intros h name Hk Hnd; simpl.
  - apply NoDup_singleton.
  - destruct (decide (hash_key n = Some h)) as [Hn|Hn]; [done|].
    simpl in *. apply NoDup_cons in Hnd as [Hnotin Hnd]. apply NoDup_cons. split.
    + intros Hin. destruct (set_add_keys rest h name _ Hk Hin); [done|by destruct Hn].
    + by apply IH.
Qed.

(** A set of names as the function builds it: every element truthy and
    hashable, no two equal as keys. *)
Definition names_ok (names : list pyval) : Prop :=
  Forall (fun n => truthy n = true /\ is_Some (hash_key n)) names
  /\ NoDup (map hash_key names).

Lemma set_add_ok names h name :
  names_ok names -> truthy name = true -> hash_key name = Some h ->
  names_ok (set_add names h name).
Proof.
  intros [Hall Hnd] Ht Hk. split; [|by apply set_add_nodup].
  rewrite Forall_forall in *. intros x Hx.
  destruct (set_add_elem names h name x Hx) as [?| ->]; [by apply Hall|].
  split; [done|by eexists].
Qed.

(** The name comes from an entry of the list. *)
Definition from_devices (devs : list pyval) (n : pyval) : Prop :=
  exists dev, dev ∈ devs /\ py_get dev "device_name" PNone = Ret n.

Lemma names_loop_spec devs : forall names out,
  names_loop devs names = Ret out ->
  names_ok names ->
  names_ok out
  /\ (forall n, n ∈ names -> n ∈ out)
  /\ (forall n, n ∈ out -> n ∈ names \/ from_devices devs n)
  /\ (forall dev n, dev ∈ devs -> py_get dev "device_name" PNone = Ret n ->
        truthy n = true -> exists n', n' ∈ out /\ hash_key n' = hash_key n).
Proof.
  induction devs as [|dev rest IH]; intros names out; simpl.
  - intros [= <-] Hok. split; [done|]. split; [done|]. split; [by left|].
    intros dev n Hin. by apply elem_of_nil in Hin.
  - destruct (py_get dev "device_name" PNone) as [name|e] eqn:Hget; [|done]. simpl.
    destruct (truthy name) eqn:Ht.
    + destruct (hash_key name) as [h|] eqn:Hh; [|done].
      intros Hrun Hok.
      destruct (IH _ _ Hrun (set_add_ok names h name Hok Ht Hh))
        as (Hout & Hkeep & Hfrom & Hall).
      split; [done|]. split; [|split].
      * intros n Hn. by apply Hkeep, set_add_keeps.
      * intros n Hn. destruct (Hfrom n Hn) as [Hn'|(d & Hd & Hg)].
        -- destruct (set_add_elem names h name n Hn') as [?| ->]; [by left|].
           right. exists dev. split; [by left|done].
        -- right. exists d. split; [by right|done].
      * intros d n [->|Hd]%elem_of_cons Hg Htn.
        -- rewrite Hget in Hg. injection Hg as <-.
           destruct (set_add_has names h name Hh) as (n' & Hin & Hk').
           exists n'. split; [by apply Hkeep|congruence].
        -- by apply (Hall d n).
    + intros Hrun Hok.
      destruct (IH _ _ Hrun Hok) as (Hout & Hkeep & Hfrom & Hall).
      split; [done|]. split; [done|]. split.
      * intros n Hn. destruct (Hfrom n Hn) as [?|(d & Hd & Hg)]; [by left|].
        right. exists d. split; [by right|done].
      * intros d n [->|Hd]%elem_of_cons Hg Htn.
        -- rewrite Hget in Hg. injection Hg as <-. congruence.
        -- by apply (Hall d n).
Qed.

(** X19.  The configured names.  When
    [_get_configured_device_names] returns, every name in the set is
    truthy (so never the empty string or [None]) and hashable, and no
    two are equal; every truthy [device_name] of the entry's devices is
    in the set; and each name in the set is the [device_name] of one of
    those devices, except that the legacy name of [entry.data] is the
    one name of the set when the devices give none. *)
Theorem configured_names_sound
    (options data : list (string * pyval)) (devs names : list pyval) :
  py_iter (items_get_or options "devices" (PList [])) = Ret devs ->
  _get_configured_device_names options data = Ret names ->
  names_ok names
  /\ (PStr "" ∉ names) /\ (PNone ∉ names)
  /\ (forall dev n, dev ∈ devs -> py_get dev "device_name" PNone = Ret n ->
        truthy n = true -> exists n', n' ∈ names /\ hash_key n' = hash_key n)
  /\ (forall n, n ∈ names ->
        from_devices devs n
        \/ (names = [n] /\ n = items_get_or data "device_name" PNone
            /\ forall n', ~ (from_devices devs n' /\ truthy n' = true))).
Proof.
  unfold _get_configured_device_names. intros -> Hrun. simpl in Hrun.
  destruct (names_loop devs []) as [out|e] eqn:Hloop; [|done]. simpl in Hrun.
  assert (Hnil : names_ok []) by (split; constructor).
  destruct (names_loop_spec devs [] out Hloop Hnil) as (Hout & _ & Hfrom & Hall).
  assert (Hmain : names_ok names
            /\ (forall dev n, dev ∈ devs -> py_get dev "device_name" PNone = Ret n ->
                  truthy n = true -> exists n', n' ∈ names /\ hash_key n' = hash_key n)
            /\ (forall n, n ∈ names ->
                  from_devices devs n
                  \/ (names = [n] /\ n = items_get_or data "device_name" PNone
                      /\ forall n', ~ (from_devices devs n' /\ truthy n' = true)))).
  { destruct out as [|n0 out'].
    - assert (Hnone : forall n', ~ (from_devices devs n' /\ truthy n' = true)).
      { intros n' [(dev & Hd & Hg) Ht].
        destruct (Hall dev n' Hd Hg Ht) as (x & Hx & _). by apply elem_of_nil in Hx. }
      destruct (truthy (items_get_or data "device_name" PNone)) eqn:Ht.
      + destruct (hash_key (items_get_or data "device_name" PNone)) as [h|] eqn:Hh;
          [|done].
        injection Hrun as <-. simpl. split; [|split].
        * split; [|apply NoDup_singleton]. constructor; [|constructor].
          split; [done|by eexists].
        * intros dev n Hd Hg Htn. by destruct (Hnone n (conj (ex_intro _ dev (conj Hd Hg)) Htn)).
        * intros n Hn%list_elem_of_singleton. subst n. by right.
      + injection Hrun as <-. split; [done|]. split.
        * intros dev n Hd Hg Htn. by destruct (Hnone n (conj (ex_intro _ dev (conj Hd Hg)) Htn)).
        * intros n Hn. by apply elem_of_nil in Hn.
    - injection Hrun as <-. split; [done|]. split; [done|].
      intros n Hn. destruct (Hfrom n Hn) as [Hn'|?]; [by apply elem_of_nil in Hn'|by left]. }
  destruct Hmain as (Hok & Hcomplete & Horigin).
  split; [done|]. split; [|split; [|split]]; try done.
  - intros Hin. destruct Hok as [Hf _]. rewrite Forall_forall in Hf.
    by destruct (Hf _ Hin).
  - intros Hin. destruct Hok as [Hf _]. rewrite Forall_forall in Hf.
    by destruct (Hf _ Hin).
Qed.

Lemma configured_names_sound_witness :
  let dev (n : string) := PDict [("device_name", PStr n); ("device_type", PStr "nut")] in
  let options := [("devices", PList [dev "ups1"; dev ""; dev "ups2"; dev "ups1"])] in
  let devs := [dev "ups1"; dev ""; dev "ups2"; dev "ups1"] in
  let names := [PStr "ups1"; PStr "ups2"] in
  names_ok names
  /\ (PStr "" ∉ names) /\ (PNone ∉ names)
  /\ (forall dev n, dev ∈ devs -> py_get dev "device_name" PNone = Ret n ->
        truthy n = true -> exists n', n' ∈ names /\ hash_key n' = hash_key n)
  /\ (forall n, n ∈ names ->
        from_devices devs n
        \/ (names = [n] /\ n = items_get_or [("device_name", PStr "old")] "device_name" PNone
            /\ forall n', ~ (from_devices devs n' /\ truthy n' = true))).
Proof.
  intros dev options devs names.
  apply (configured_names_sound options [("device_name", PStr "old")] devs names);
    reflexivity.
Defined.

End SetupExtra.

Module EntitiesExtra.
Import Py Helpers Store StoreSpec StoreExtra Entities.

Lemma stored_record (devices : pydict) (h : hkey) (device : pyval) :
  store_wf devices -> dict_get devices h = Some device ->
  exists items, device = PDict items /\ items <> [].
Proof.
  intros [Hall _] Hget.
  destruct (dict_get_in devices h device Hget) as (k & Hin & Hk).
  rewrite Forall_forall in Hall.
  destruct (Hall _ Hin) as [_ (name & h' & Hname & Ht & _)]. simpl in Hname.
  destruct device as [| | | | | |items]; try done.
  exists items. split; [done|]. intros ->. simpl in Hname. by injection Hname as <-.
Qed.

Lemma status_of_record (items : list (string * pyval)) :
  items <> [] ->
  get_ups_status (PDict items) <> Ret "offline".
Proof.
  intros Hne. unfold get_ups_status.
  assert (Ht : truthy (PDict items) = true) by (by destruct items).
  rewrite Ht. simpl.
  destruct (py_or _ _); simpl; try discriminate.
  by destruct (_ || _).
Qed.

(** X20.  The status sensor and the store.  On a well-shaped store the
    status sensor is available exactly when its device is in the
    mapping; for a device that is not there it shows ["offline"] and
    the update returns; and whenever the update returns, ["offline"] is
    shown exactly when the sensor is unavailable.  If the update raises,
    the sensor is marked available and keeps the value it had. *)
Theorem status_sensor_update
    (devices : pydict) (device_name : pyval) (st : entity_state) :
  store_wf devices ->
  let out := status_handle_update devices device_name st in
  (available (fst out) = true <-> is_Some (_get_device devices device_name))
  /\ (_get_device devices device_name = None ->
      out = (mkState false (PStr "offline"), Ret tt))
  /\ (snd out = Ret tt ->
      (native_value (fst out) = PStr "offline" <-> available (fst out) = false))
  /\ (snd out <> Ret tt ->
      available (fst out) = true /\ native_value (fst out) = native_value st).
Proof.
  intros Hwf out. subst out. unfold status_handle_update.
  destruct (_get_device devices device_name) as [device|] eqn:Hdev.
  - assert (Hrec : exists items, device = PDict items /\ items <> []).
    { unfold _get_device in Hdev. destruct (hash_key device_name) as [h|]; [|done].
      by apply (stored_record devices h). }
    destruct Hrec as (items & -> & Hne).
    pose proof (status_of_record items Hne) as Hoff.
    destruct (get_ups_status (PDict items)) as [s|e]; simpl.
    + split; [split; [by eexists|done]|]. split; [done|]. split; [|done].
      intros _. split; [|done]. intros [= ->]. by destruct Hoff.
    + split; [split; [by eexists|done]|]. split; [done|]. split; [done|]. done.
  - simpl. split; [split; [done|by intros [? ?]]|]. split; [done|]. split; [done|].
    by intros H.
Qed.

Lemma status_sensor_update_witness :
  let ups1 := PDict [("device_name", PStr "ups1"); ("attributes", PDict [("status", PStr "OB")])] in
  let out := status_handle_update [(PStr "ups1", ups1)] (PStr "ups1")
                                  (mkState false PNone) in
  (available (fst out) = true <-> is_Some (_get_device [(PStr "ups1", ups1)] (PStr "ups1")))
  /\ (_get_device [(PStr "ups1", ups1)] (PStr "ups1") = None ->
      out = (mkState false (PStr "offline"), Ret tt))
  /\ (snd out = Ret tt ->
      (native_value (fst out) = PStr "offline" <-> available (fst out) = false))
  /\ (snd out <> Ret tt ->
      available (fst out) = true /\ native_value (fst out) = native_value (mkState false PNone)).
Proof.
  intros ups1.
  apply (status_sensor_update [(PStr "ups1", ups1)] (PStr "ups1") (mkState false PNone)).
  split.
  - constructor; [|constructor]. split; [reflexivity|].
    exists (PStr "ups1"), (KStr "ups1"). repeat split.
  - simpl. apply NoDup_singleton.
Defined.

Lemma reads_after_default entries h : forall before,
  reads_after entries h before
  = match reads_after entries h None with
    | Some d => Some d
    | None => before
    end.
Proof.
  induction entries as [|e rest IH]; intros before; simpl; [done|].
  rewrite IH. symmetry. rewrite IH. symmetry.
  destruct (reads_after rest h None); [done|].
  destruct (py_get e "device_name" PNone) as [name|?]; [|done].
  by destruct (truthy name && bool_decide (hash_key name = Some h)).
Qed.

(** X21.  From a snapshot to the sensor.  After [_update_state] has
    applied a list and returned, the attribute sensor of a device the
    list names updates from the last entry naming it: with that entry's
    attributes a mapping, the sensor is available and shows
    [normalize_attribute_value] of the attribute's value, and it shows
    [None], still available, when that entry lacks the attribute. *)
Theorem snapshot_reaches_sensor
    (devices : pydict) (entries : list pyval) (out : update_end)
    (device_name : pyval) (h : hkey) (device a : pyval)
    (attrs : list (string * pyval)) (attribute : string) (st : entity_state) :
  snd (_update_state devices (Decoded (PList entries))) = Ret out ->
  hash_key device_name = Some h ->
  reads_after entries h None = Some device ->
  py_get device "attributes" PNone = Ret a ->
  py_or a (PDict []) = PDict attrs ->
  let devices' := fst (_update_state devices (Decoded (PList entries))) in
  (forall w, normalize_attribute_value attribute (items_get_or attrs attribute PNone)
             = Ret w ->
             attribute_handle_update devices' device_name attribute st
             = (mkState true w, Ret tt))
  /\ (items_get attrs attribute = None ->
      attribute_handle_update devices' device_name attribute st
      = (mkState true PNone, Ret tt)).
Proof.
  intros Hret Hk Hlast Hattr Hor devices'. subst devices'.
  rewrite update_state_snd in Hret. rewrite update_state_fst.
  destruct (snd (update_loop devices [] entries)) as [names|e] eqn:Hloop; [|done].
  assert (Hread : dict_get (fst (update_loop devices [] entries)) h = Some device).
  { rewrite update_loop_reads by (by eapply update_loop_returns).
    by rewrite reads_after_default, Hlast. }
  assert (Hupd : forall w,
             normalize_attribute_value attribute (items_get_or attrs attribute PNone)
             = Ret w ->
             attribute_handle_update (fst (update_loop devices [] entries))
               device_name attribute st = (mkState true w, Ret tt)).
  { intros w Hw. unfold attribute_handle_update, _get_device.
    rewrite Hk, Hread, Hattr. simpl. rewrite Hor. simpl. by rewrite Hw. }
  split; [exact Hupd|].
  intros Hnone. apply Hupd. unfold items_get_or. by rewrite Hnone.
Qed.

Lemma snapshot_reaches_sensor_witness :
  let attrs := [("status", PStr "OL"); ("model", PStr "Back-UPS 1500")] in
  let ups1 := PDict [("device_name", PStr "ups1"); ("attributes", PDict attrs)] in
  let devices' := fst (_update_state [] (Decoded (PList [ups1]))) in
  (forall w, normalize_attribute_value "model" (items_get_or attrs "model" PNone)
             = Ret w ->
             attribute_handle_update devices' (PStr "ups1") "model" (mkState false PNone)
             = (mkState true w, Ret tt))
  /\ (items_get attrs "model" = None ->
      attribute_handle_update devices' (PStr "ups1") "model" (mkState false PNone)
      = (mkState true PNone, Ret tt)).
Proof.
  intros attrs ups1.
  apply (snapshot_reaches_sensor [] [ups1] (Dispatched [PStr "ups1"])
           (PStr "ups1") (KStr "ups1") ups1 (PDict attrs) attrs "model"
           (mkState false PNone)); reflexivity.
Defined.

End EntitiesExtra.

Module DeviceInfoExtra.
Import Py Store DeviceInfo.

Lemma py_get_raises (v : pyval) (k : string) (d : pyval) (e : exn) :
  py_get v k d = Raise e -> e = AttributeError.
Proof. destruct v; simpl; congruence. Qed.

Lemma first_of_raises attrs keys : forall e,
  first_of attrs keys = Raise e -> e = AttributeError.
Proof.
  induction keys as [|k rest IH]; intros e; [done|].
  destruct rest as [|k' rest].
  - apply py_get_raises.
  - change (first_of attrs (k :: k' :: rest))
      with (let* v := py_get attrs k PNone in
            if truthy v then Ret v else first_of attrs (k' :: rest)).
    destruct (py_get attrs k PNone) as [v|e'] eqn:Hg; simpl.
    + destruct (truthy v); [done|]. apply IH.
    + intros [= <-]. by eapply py_get_raises.
Qed.

(** X22.  What [build_device_info] always fills in.  When it returns,
    the device is named and identified by [device_name], the
    manufacturer is truthy (["go-ups"] when nothing else is known), a
    manufacturer the attributes give is kept whatever the model
    heuristics find, and the model is truthy whenever the device name
    is.  It raises nothing but [AttributeError] and [TypeError]. *)
Theorem build_device_info_defaults (device_name device : pyval) :
  (forall info, build_device_info device_name device = Ret info ->
     name info = device_name
     /\ identifiers info = (DOMAIN, device_name)
     /\ truthy (manufacturer info) = true
     /\ (truthy device_name = true -> truthy (model info) = true)
     /\ (forall a m,
           py_get device "attributes" PNone = Ret a ->
           first_of (py_or a (PDict [])) ["manufacturer"; "ups_mfr"; "mfr"] = Ret m ->
           truthy m = true -> manufacturer info = m))
  /\ (forall e, build_device_info device_name device = Raise e ->
        e = AttributeError \/ e = TypeError).
Proof.
  unfold build_device_info. split.
  - intros info H.
    destruct (py_get device "attributes" PNone) as [a|e0] eqn:E0;
      [cbn [bind] in H|discriminate H].
    destruct (first_of _ ["manufacturer"; "ups_mfr"; "mfr"]) as [m0|e1] eqn:E1;
      [cbn [bind] in H|discriminate H].
    destruct (first_of _ ["model"; "ups_model"; "device_model"; "upsmodel"])
      as [v1|e2] eqn:E2; [cbn [bind] in H|discriminate H].
    destruct (if negb (truthy v1) then _ else _) as [v2|e3] eqn:E3;
      [cbn [bind] in H|discriminate H].
    destruct (if truthy v2 then _ else _) as [[mdl mfr]|e4] eqn:E4;
      [cbn [bind] in H|discriminate H].
    destruct (if negb (truthy mfr) && truthy mdl then _ else _) as [mfr'|e5] eqn:E5;
      [cbn [bind] in H|discriminate H].
    destruct (first_of _ ["serial_number"; "ups_serial"; "serialno"; "device_serial"])
      as [serial|e6] eqn:E6; [cbn [bind] in H|discriminate H].
    destruct (hash_key device_name) as [h|]; [|discriminate H].
    injection H as <-. cbn [name identifiers manufacturer model].
    split; [done|]. split; [done|].
    split; [by destruct (truthy mfr') eqn:Hm|].
    split; [intros Hdn; by destruct (truthy mdl) eqn:Hm|].
    intros a' m Ha Hm Ht. injection Ha as <-.
    assert (m0 = m) by congruence. subst m0.
    (* the manufacturer of the attributes goes through each step *)
    assert (Hkeep : mfr = m).
    { revert E4. destruct (truthy v2).
      - destruct (search_cyberpower v2) as [[found|]|]; cbn [bind]; try done;
          rewrite ?Ht; cbn [negb]; by intros [= _ <-].
      - destruct (truthy device_name); [|by intros [= _ <-]].
        destruct (search_cyberpower device_name) as [[found|]|]; cbn [bind]; try done;
          rewrite ?Ht; cbn [negb]; by intros [= _ <-]. }
    subst mfr. rewrite Ht in E5. cbn [negb andb] in E5. injection E5 as <-.
    by rewrite Ht.
  - intros e H.
    destruct (py_get device "attributes" PNone) as [a|e0] eqn:E0; cbn [bind] in H.
    2: { injection H as <-. left. by eapply py_get_raises. }
    destruct (first_of _ ["manufacturer"; "ups_mfr"; "mfr"]) as [v0|e1] eqn:E1;
      cbn [bind] in H.
    2: { injection H as <-. left. by eapply first_of_raises. }
    destruct (first_of _ ["model"; "ups_model"; "device_model"; "upsmodel"])
      as [v1|e2] eqn:E2; cbn [bind] in H.
    2: { injection H as <-. left. by eapply first_of_raises. }
    destruct (if negb (truthy v1) then _ else _) as [v2|e3] eqn:E3; cbn [bind] in H.
    2: { injection H as <-. left. destruct (negb (truthy v1)); [|done].
         by eapply first_of_raises. }
    destruct (if truthy v2 then _ else _) as [[mdl mfr]|e4] eqn:E4; cbn [bind] in H.
    2: { injection H as <-. right. revert E4. destruct (truthy v2).
         - destruct v2; simpl; by intros [= <-].
         - destruct (truthy device_name); [|done].
           destruct device_name; simpl; by intros [= <-]. }
    destruct (if negb (truthy mfr) && truthy mdl then _ else _) as [v5|e5] eqn:E5;
      cbn [bind] in H.
    2: { injection H as <-. right. revert E5. destruct (_ && _); [|done].
         destruct mdl; simpl; by intros [= <-]. }
    destruct (first_of _ ["serial_number"; "ups_serial"; "serialno"; "device_serial"])
      as [v6|e6] eqn:E6; cbn [bind] in H.
    2: { injection H as <-. left. by eapply first_of_raises. }
    destruct (hash_key device_name); [done|]. injection H as <-. by right.
Qed.

End DeviceInfoExtra.

(** ** The order of the sensors within one pass *)

Module OrderExtra.
Import Py Store Sensor.

(** *** The order of [str] *)

Lemma leb_lt_or_eq (a b : string) :
  String.leb a b = true <-> a = b \/ OrderedTypeEx.String_as_OT.lt a b.
Proof.
  pose proof (OrderedTypeEx.String_as_OT.cmp_eq a b) as He.
  pose proof (OrderedTypeEx.String_as_OT.cmp_lt a b) as Hl.
  unfold OrderedTypeEx.String_as_OT.cmp in He, Hl.
  unfold String.leb.
  destruct (String.compare a b).
  - split; [intros _|reflexivity]. left. apply He. reflexivity.
  - split; [intros _|reflexivity]. right. apply Hl. reflexivity.
  - split; [discriminate|].
    intros [H|H]; [apply He in H|apply Hl in H]; discriminate.
Qed.

Lemma ltb_lt (a b : string) :
  String.ltb a b = true <-> OrderedTypeEx.String_as_OT.lt a b.
Proof.
  pose proof (OrderedTypeEx.String_as_OT.cmp_lt a b) as Hl.
  unfold OrderedTypeEx.String_as_OT.cmp in Hl.
  unfold String.ltb.
  destruct (String.compare a b).
  - split; [discriminate|]. intros H. apply Hl in H. discriminate.
  - split; [intros _|reflexivity]. apply Hl. reflexivity.
  - split; [discriminate|]. intros H. apply Hl in H. discriminate.
Qed.

Lemma leb_trans (a b c : string) :
  String.leb a b = true -> String.leb b c = true -> String.leb a c = true.
Proof.
  rewrite !leb_lt_or_eq.
  intros [-> |Hab] [-> |Hbc]; auto.
  right. exact (OrderedTypeEx.String_as_OT.lt_trans _ _ _ Hab Hbc).
Qed.

Lemma leb_neq_ltb (a b : string) :
  String.leb a b = true -> a <> b -> String.ltb a b = true.
Proof.
  rewrite leb_lt_or_eq, ltb_lt. intros [H|H] Hne; [contradiction|exact H].
Qed.

(** *** [sorted] gives an ascending list *)

Definition ascending (l : list string) : Prop :=
  ForallOrdPairs (fun a b => String.leb a b = true) l.

Lemma insert_sorted_ascending (k : string) (l : list string) :
  ascending l -> ascending (insert_sorted k l).
Proof.
  unfold ascending.
  induction 1 as [|k' rest Hk' Hrest IH]; simpl.
  - constructor; constructor.
  - destruct (String.leb k k') eqn:E.
    + constructor; [|constructor; assumption].
      constructor; [exact E|].
      eapply List.Forall_impl; [|exact Hk'].
      intros x Hx. exact (leb_trans _ _ _ E Hx).
    + constructor; [|exact IH].
      apply List.Forall_forall. intros x Hx.
      apply list_elem_of_In, DiscoveryExtra.insert_sorted_elem in Hx.
      destruct Hx as [-> |Hx].
      * destruct (String.leb_total k k') as [H|H]; [congruence|exact H].
      * rewrite List.Forall_forall in Hk'. apply Hk', list_elem_of_In, Hx.
Qed.

Lemma py_sorted_ascending (keys : list string) : ascending (py_sorted keys).
Proof.
  induction keys as [|k rest IH]; simpl.
  - constructor.
  - apply insert_sorted_ascending, IH.
Qed.

(** *** The order of the entities *)

(** How an entity stands to one that comes later in the list: after an
    attribute sensor of a device come, for this device, only attribute
    sensors of a greater attribute. *)
Definition in_order (e1 e2 : SensorEntity) : Prop :=
  match e1, e2 with
  | UPSAttributeSensor _ d1 a, UPSAttributeSensor _ d2 b =>
      d1 = d2 -> String.ltb a b = true
  | UPSAttributeSensor _ d1 _, UPSStatusSensor _ d2 => d1 <> d2
  | _, _ => True
  end.

Lemma ordered_snoc {A : Type} (R : A -> A -> Prop) (l : list A) (x : A) :
  ForallOrdPairs R l -> Forall (fun e => R e x) l ->
  ForallOrdPairs R (l ++ [x]).
Proof.
  induction 1 as [|a l Ha Hl IH]; intros Hx; simpl.
  - constructor; constructor.
  - inversion Hx as [|? ? Hax Hlx]; subst.
    constructor; [|apply IH, Hlx].
    apply Forall_app. split; [exact Ha|]. constructor; [exact Hax|constructor].
Qed.

Lemma ordered_lookup {A : Type} (R : A -> A -> Prop) (l : list A) :
  ForallOrdPairs R l ->
  forall (i j : nat) (x y : A),
    (i < j)%nat -> l !! i = Some x -> l !! j = Some y -> R x y.
Proof.
  induction 1 as [|a l Ha Hl IH]; intros i j x y Hij Hi Hj.
  - destruct i; discriminate.
  - destruct j as [|j]; [lia|]. simpl in Hj.
    destruct i as [|i]; simpl in Hi.
    + injection Hi as <-.
      rewrite List.Forall_forall in Ha. apply Ha, list_elem_of_In.
      eapply list_elem_of_lookup_2, Hj.
    + eapply (IH i j); [lia|exact Hi|exact Hj].
Qed.

(** What the attribute loop keeps of the attribute sensors of its
    device: each one is recorded in [added], and its attribute is not
    above any key still to come. *)
Definition settled (device_name : pyval) (attr_keys : list string)
    (added : gset string) (e : SensorEntity) : Prop :=
  forall entry_id a, e = UPSAttributeSensor entry_id device_name a ->
    (py_str device_name +:+ "-" +:+ a) ∈ added
    /\ Forall (fun k => String.leb a k = true) attr_keys.

Lemma settled_skip (device_name : pyval) (k : string) (rest : list string)
    (added : gset string) (l : list SensorEntity) :
  Forall (settled device_name (k :: rest) added) l ->
  Forall (settled device_name rest added) l.
Proof.
  apply List.Forall_impl. intros e H entry_id a He.
  destruct (H entry_id a He) as [H1 H2]. split; [exact H1|].
  inversion H2; assumption.
Qed.

Lemma attribute_loop_order (entry_id : string) (device_name : pyval)
    (attr_keys : list string) :
  forall (added : gset string) (l : list SensorEntity),
    ascending attr_keys ->
    ForallOrdPairs in_order l ->
    Forall (settled device_name attr_keys added) l ->
    ForallOrdPairs in_order
      (snd (attribute_loop entry_id device_name attr_keys added l))
    /\ Forall (fun e => DiscoveryExtra.sensor_device e = device_name \/ In e l)
         (snd (attribute_loop entry_id device_name attr_keys added l)).
Proof.
  induction attr_keys as [|k rest IH]; intros added l Hasc Hord Hset.
  - simpl. split; [exact Hord|].
    apply List.Forall_forall. intros e He. right. exact He.
  - assert (Hrest : ascending rest) by (inversion Hasc; assumption).
    assert (Hk : Forall (fun k' => String.leb k k' = true) rest)
      by (inversion Hasc; assumption).
    cbn [attribute_loop].
    case_bool_decide as Hin.
    { apply IH; [exact Hrest|exact Hord|]. eapply settled_skip, Hset. }
    destruct (String.eqb k "status").
    { apply IH; [exact Hrest|exact Hord|]. eapply settled_skip, Hset. }
    destruct (IH ({[py_str device_name +:+ "-" +:+ k]} ∪ added)
                 (l ++ [UPSAttributeSensor entry_id device_name k])%list)
      as [H1 H2].
    + exact Hrest.
    + apply ordered_snoc; [exact Hord|].
      eapply List.Forall_impl; [|exact Hset].
      intros e He. destruct e as [eid d|eid d a]; simpl; [exact I|].
      intros ->. destruct (He eid a eq_refl) as [Ha Hle].
      apply leb_neq_ltb.
      * inversion Hle; assumption.
      * intros ->. contradiction.
    + apply Forall_app. split.
      * eapply List.Forall_impl; [|exact Hset].
        intros e He eid a Heq. destruct (He eid a Heq) as [Ha Hle].
        split; [apply elem_of_union_r, Ha|inversion Hle; assumption].
      * constructor; [|constructor].
        intros eid a Heq. injection Heq as _ <-.
        split; [apply elem_of_union_l, elem_of_singleton; reflexivity|exact Hk].
    + split; [exact H1|].
      eapply List.Forall_impl; [|exact H2].
      intros e [He|He]; [left; exact He|].
      apply in_app_or in He. destruct He as [He|[<- |[]]].
      * right. exact He.
      * left. reflexivity.
Qed.

Lemma device_loop_order (entry_id : string) (configured_names : gset string)
    (items : pydict) :
  forall (seen : list pyval) (added : gset string) (l : list SensorEntity),
    List.NoDup (map fst items) ->
    (forall n, In n (map fst items) -> ~ In n seen) ->
    ForallOrdPairs in_order l ->
    Forall (fun e => In (DiscoveryExtra.sensor_device e) seen) l ->
    forall added' l',
      device_loop entry_id configured_names items added l = (added', Ret l') ->
      ForallOrdPairs in_order l'.
Proof.
  induction items as [|[device_name device] rest IH];
    intros seen added l Hnd Hnew Hord Hseen added' l' Hrun.
  - simpl in Hrun. injection Hrun as _ <-. exact Hord.
  - cbn [device_loop] in Hrun.
    assert (Hnd' : List.NoDup (map fst rest)) by (inversion Hnd; assumption).
    assert (Hfresh : ~ In device_name seen) by (apply Hnew; left; reflexivity).
    destruct (filtered_out device_name configured_names).
    { eapply (IH seen); [exact Hnd'| |exact Hord|exact Hseen|exact Hrun].
      intros n Hn. apply Hnew. right. exact Hn. }
    set (step1 := if bool_decide (py_str device_name +:+ "-status" ∈ added)
                  then (added, l)
                  else ({[py_str device_name +:+ "-status"]} ∪ added,
                        (l ++ [UPSStatusSensor entry_id device_name])%list))
      in Hrun.
    assert (Hord1 : ForallOrdPairs in_order (snd step1)).
    { unfold step1. case_bool_decide; simpl; [exact Hord|].
      apply ordered_snoc; [exact Hord|].
      eapply List.Forall_impl; [|exact Hseen].
      intros e He. destruct e as [eid d|eid d a]; simpl; [exact I|].
      simpl in He. intros ->. contradiction. }
    assert (Hseen1 : Forall (fun e => In (DiscoveryExtra.sensor_device e)
                                         (device_name :: seen)) (snd step1)).
    { assert (Forall (fun e => In (DiscoveryExtra.sensor_device e)
                                  (device_name :: seen)) l) as Hl.
      { eapply List.Forall_impl; [|exact Hseen]. intros e He. right. exact He. }
      unfold step1. case_bool_decide; simpl; [exact Hl|].
      apply Forall_app. split; [exact Hl|].
      constructor; [left; reflexivity|constructor]. }
    assert (Hnone : forall keys added1,
               Forall (settled device_name keys added1) (snd step1)).
    { intros keys added1.
      assert (Forall (settled device_name keys added1) l) as Hl.
      { eapply List.Forall_impl; [|exact Hseen].
        intros e He eid a ->. simpl in He. contradiction. }
      unfold step1. case_bool_decide; simpl; [exact Hl|].
      apply Forall_app. split; [exact Hl|].
      constructor; [|constructor]. intros eid a Heq. discriminate. }
    destruct step1 as [added1 l1]. simpl in Hord1, Hseen1, Hnone.
    destruct (py_get device "attributes" PNone) as [a|e]; [|discriminate].
    destruct (py_keys (py_or a (PDict []))) as [keys|e]; [|discriminate].
    destruct (attribute_loop_order entry_id device_name (py_sorted keys)
                added1 l1 (py_sorted_ascending keys) Hord1 (Hnone _ _))
      as [Hord2 Hseen2].
    destruct (attribute_loop entry_id device_name (py_sorted keys) added1 l1)
      as [added2 l2].
    simpl in Hord2, Hseen2.
    eapply (IH (device_name :: seen)); [exact Hnd'| |exact Hord2| |exact Hrun].
    + intros n Hn [<- |Hs].
      * inversion Hnd; contradiction.
      * apply (Hnew n); [right; exact Hn|exact Hs].
    + apply List.Forall_forall. intros e He.
      rewrite List.Forall_forall in Hseen2.
      destruct (Hseen2 e He) as [<- |Hl1]; [left; reflexivity|].
      rewrite List.Forall_forall in Hseen1. apply Hseen1, Hl1.
Qed.

(** X23.  For a mapping whose device names are different from each
    other: in the list a sensor pass hands over, after an attribute
    sensor of a device there is for this device nothing but attribute
    sensors of a strictly greater attribute name.  So the status sensor
    of a device comes before its attribute sensors, and these come in
    the ascending order of [sorted], none twice. *)
Theorem sensor_pass_in_order (entry_id : string) (configured_names : gset string)
    (devices : pydict) (added added' : gset string)
    (new_entities : list SensorEntity)
    (i j : nat) (entry_id1 : string) (device_name : pyval) (a : string)
    (e : SensorEntity) :
  List.NoDup (dict_keys devices) ->
  _maybe_add_entities entry_id configured_names devices added
    = (added', Ret new_entities) ->
  (i < j)%nat ->
  new_entities !! i = Some (UPSAttributeSensor entry_id1 device_name a) ->
  new_entities !! j = Some e ->
  DiscoveryExtra.sensor_device e = device_name ->
  exists entry_id2 b,
    e = UPSAttributeSensor entry_id2 device_name b /\ String.ltb a b = true.
Proof.
  intros Hnd Hrun Hij Hi Hj Hdev.
  assert (Hord : ForallOrdPairs in_order new_entities).
  { eapply (device_loop_order entry_id configured_names devices [] added []);
      [exact Hnd| | | |exact Hrun].
    - intros n _ [].
    - constructor.
    - constructor. }
  pose proof (ordered_lookup _ _ Hord i j _ _ Hij Hi Hj) as H.
  destruct e as [eid d|eid d b]; simpl in H, Hdev.
  - subst d. contradiction H. reflexivity.
  - subst d. exists eid, b. split; [reflexivity|]. apply H. reflexivity.
Qed.

Definition two_attributes : pydict :=
  [(PStr "ups1",
    PDict [("attributes",
            PDict [("runtime", PInt 1200); ("battery_charge", PInt 97)])])].

Lemma sensor_pass_in_order_witness :
  exists entry_id2 b,
    UPSAttributeSensor "entry" (PStr "ups1") "runtime"
      = UPSAttributeSensor entry_id2 (PStr "ups1") b
    /\ String.ltb "battery_charge" b = true.
Proof.
  apply (sensor_pass_in_order "entry" ∅ two_attributes ∅
           (fst (_maybe_add_entities "entry" ∅ two_attributes ∅))
           [UPSStatusSensor "entry" (PStr "ups1");
            UPSAttributeSensor "entry" (PStr "ups1") "battery_charge";
            UPSAttributeSensor "entry" (PStr "ups1") "runtime"]
           1%nat 2%nat "entry" (PStr "ups1") "battery_charge"
           (UPSAttributeSensor "entry" (PStr "ups1") "runtime")).
  - repeat constructor. intros H. inversion H.
  - vm_compute. reflexivity.
  - lia.
  - reflexivity.
  - reflexivity.
  - reflexivity.
Defined.

End OrderExtra.

(** ** Seeding the store from the fetched data *)

Module SeedingExtra.
Import Py Helpers Store StoreSpec StoreExtra Seed.

(** The entry names the key: its [device_name] is truthy and equal to
    the key as Python compares keys. *)
Definition names_key (device : pyval) (h : hkey) : Prop :=
  exists name, py_get device "device_name" PNone = Ret name
               /\ truthy name = true /\ hash_key name = Some h.

Lemma collect_names_entries_ok xs : forall acc names,
  collect_names xs acc = Ret names -> forallb entry_ok xs = true.
Proof.
  induction xs as [|d rest IH]; intros acc names; simpl; [done|].
  unfold entry_ok.
  destruct (py_get d "device_name" PNone) as [name|e]; [|done].
  simpl. destruct (truthy name); simpl.
  - destruct (hash_key name) as [h|] eqn:Hh; [|done].
    intros H. rewrite bool_decide_eq_true_2 by eauto. simpl. by eapply IH.
  - intros H. by eapply IH.
Qed.

Lemma reads_after_kept entries h : forall b,
  exists d, reads_after entries h (Some b) = Some d
            /\ (d = b \/ (d ∈ entries /\ names_key d h)).
Proof.
  induction entries as [|e rest IH]; intros b; simpl.
  - exists b. split; [done|by left].
  - assert (Hkeep : exists d, reads_after rest h (Some b) = Some d
                      /\ (d = b \/ (d ∈ e :: rest /\ names_key d h))).
    { destruct (IH b) as (d & Hd & Hcase). exists d. split; [done|].
      destruct Hcase as [Heq|[Hin Hn]]; [by left|].
      right. split; [by right|done]. }
    destruct (py_get e "device_name" PNone) as [name|?] eqn:Hget; [|exact Hkeep].
    destruct (truthy name) eqn:Ht; simpl; [|exact Hkeep].
    case_bool_decide as Hh; [|exact Hkeep].
    destruct (IH e) as (d & Hd & Hcase). exists d. split; [done|]. right.
    destruct Hcase as [Heq|[Hin Hn]].
    + subst d. split; [left|]. by exists name.
    + split; [by right|done].
Qed.

Lemma reads_after_named entries h : forall before device,
  device ∈ entries -> names_key device h ->
  exists d, reads_after entries h before = Some d
            /\ d ∈ entries /\ names_key d h.
Proof.
  induction entries as [|e rest IH]; intros before device Hin Hn.
  - by apply elem_of_nil in Hin.
  - apply elem_of_cons in Hin as [Heq|Hin].
    + subst device. simpl. destruct Hn as (name & Hget & Ht & Hh).
      rewrite Hget, Ht. simpl. rewrite bool_decide_eq_true_2 by done.
      destruct (reads_after_kept rest h e) as (d & Hd & Hcase).
      exists d. split; [done|].
      destruct Hcase as [Heq|[Hin Hn]].
      * subst d. split; [left|]. by exists name.
      * split; [by right|done].
    + simpl.
      destruct (IH (match py_get e "device_name" PNone with
                    | Ret name =>
                        if truthy name && bool_decide (hash_key name = Some h)
                        then Some e else before
                    | Raise _ => before
                    end) device Hin Hn) as (d & Hd & Hin' & Hn').
      exists d. split; [done|]. split; [by right|done].
Qed.

Lemma collect_names_from xs : forall acc names h,
  collect_names xs acc = Ret names -> h ∈ names ->
  h ∈ acc \/ exists d, d ∈ xs /\ names_key d h.
Proof.
  induction xs as [|d rest IH]; intros acc names h; simpl.
  - intros [= <-] Hin. by left.
  - destruct (py_get d "device_name" PNone) as [name|e] eqn:Hget; [|done].
    simpl. destruct (truthy name) eqn:Ht.
    + destruct (hash_key name) as [h0|] eqn:Hh; [|done].
      intros Hrun Hin.
      destruct (IH _ _ _ Hrun Hin) as [Hacc|(d' & Hd' & Hn)].
      * apply elem_of_app in Hacc as [Hacc|Hacc]; [by left|].
        apply list_elem_of_singleton in Hacc as ->.
        right. exists d. split; [left|]. by exists name.
      * right. exists d'. split; [by right|done].
    + intros Hrun Hin.
      destruct (IH _ _ _ Hrun Hin) as [Hacc|(d' & Hd' & Hn)]; [by left|].
      right. exists d'. split; [by right|done].
Qed.

(** X24.  When the test of the seed loop passes on the fetched data
    (no configured name is missing from its [device_name] fields), the
    seeding that follows does not raise, and the store then holds an
    entry for every configured name: a record of the fetched list whose
    [device_name] is that name. *)
Theorem seeded_store_has_configured
    (configured_names : gset string) (data : pyval) (names : list hkey) :
  device_names_in_data data = Ret names ->
  missing_devices configured_names names = ∅ ->
  snd (seed_devices data) = Ret tt
  /\ forall c, c ∈ configured_names ->
       exists xs device,
         data = PList xs /\ device ∈ xs
         /\ dict_get (fst (seed_devices data)) (KStr c) = Some device
         /\ py_get device "device_name" PNone = Ret (PStr c).
Proof.
  intros Hnames Hmissing.
  unfold device_names_in_data in Hnames.
  destruct (py_iter data) as [entries|e] eqn:Hiter; [|done]. simpl in Hnames.
  pose proof (collect_names_entries_ok _ _ _ Hnames) as Hok.
  assert (Hseed : truthy data = true -> data = PList entries).
  { intros Ht.
    destruct data as [| | | |s|xs|items]; simpl in Hiter; try done.
    - injection Hiter as <-. destruct s as [|ch s]; [done|].
      simpl in Hok. done.
    - by injection Hiter as <-.
    - injection Hiter as <-. destruct items as [|kv items]; [done|].
      simpl in Hok. done. }
  destruct (update_loop_named entries [] [] Hok) as [_ Hret].
  split.
  - unfold seed_devices. destruct (truthy data) eqn:Ht; [|done].
    rewrite (Hseed eq_refl).
    pose proof (update_state_snd [] entries) as Hsnd.
    destruct (_update_state [] (Decoded (PList entries))) as [devices r].
    simpl in Hsnd. subst r. simpl.
    destruct (snd (update_loop [] [] entries)); [done|discriminate Hret].
  - intros c Hc.
    assert (Hin : KStr c ∈ names).
    { destruct (decide (KStr c ∈ names)) as [H|H]; [done|].
      assert (c ∈ missing_devices configured_names names) as Hm
        by (unfold missing_devices; apply elem_of_filter; done).
      rewrite Hmissing in Hm. by apply elem_of_empty in Hm. }
    destruct (collect_names_from _ _ _ _ Hnames Hin) as [H|(d & Hd & Hn)];
      [by apply elem_of_nil in H|].
    assert (Hlist : data = PList entries).
    { destruct data as [| | | |s|xs|items]; simpl in Hiter; try done.
      - injection Hiter as <-. destruct s as [|ch s]; simpl in Hd.
        + by apply elem_of_nil in Hd.
        + simpl in Hok. done.
      - by injection Hiter as <-.
      - injection Hiter as <-. destruct items as [|kv items]; simpl in Hd.
        + by apply elem_of_nil in Hd.
        + simpl in Hok. done. }
    subst data.
    assert (Htruthy : truthy (PList entries) = true).
    { destruct entries; [by apply elem_of_nil in Hd|done]. }
    unfold seed_devices. rewrite Htruthy.
    pose proof (update_state_fst [] entries) as Hfst.
    destruct (_update_state [] (Decoded (PList entries))) as [devices r].
    simpl in Hfst. subst devices. simpl.
    rewrite (update_loop_reads entries [] [] (KStr c) Hok).
    destruct (reads_after_named entries (KStr c) (dict_get [] (KStr c)) d Hd Hn)
      as (d' & Hread & Hin' & (name & Hget & Ht & Hh)).
    exists entries, d'. repeat split; try done.
    apply SeedSpec.hash_key_str in Hh. by subst name.
Qed.

Lemma seeded_store_has_configured_witness :
  let data := PList [SeedSpec.ups "a"; SeedSpec.ups "b"] in
  snd (seed_devices data) = Ret tt
  /\ exists xs device,
       data = PList xs /\ device ∈ xs
       /\ dict_get (fst (seed_devices data)) (KStr "b") = Some device
       /\ py_get device "device_name" PNone = Ret (PStr "b").
Proof.
  intros data.
  destruct (seeded_store_has_configured {["a"; "b"]} data [KStr "a"; KStr "b"])
    as [Hret Hall].
  - reflexivity.
  - apply (bool_decide_unpack _). vm_compute. exact I.
  - split; [exact Hret|]. apply (Hall "b").
    apply (bool_decide_unpack _). vm_compute. exact I.
Defined.

End SeedingExtra.
